(** * SolarMathCore: a shallow embedding of [src/SolarCore/solarmathcore.cpp]

    The engine keeps one mutable aggregate ([SolarMathCore::Data]) and a set
    of member functions that read and write it.  Each member function is
    rendered here as a function on a [Data] record; a function that
    dereferences a pointer returns [option], with [None] standing for the
    dereference of a null pointer.

    Numbers: the C++ [float] and [double] values are modelled by the real
    numbers of the Standard Library, so every statement below is a statement
    about the arithmetic the code writes down, free of rounding. *)

From Stdlib Require Import Reals Lra Lia ZArith.
From stdpp Require Import base option countable gmap fin_maps.
#[local] Open Scope R_scope.

(** ** Identifiers *)

(** [SolarSystem::SolarObjects].  The enumeration is declared in a header
    outside this file; the constructors are the enumerators named in
    [solarmathcore.cpp], and [OtherObject] stands for any enumerator the
    file never names (it always takes the [default:] branch). *)
Inductive SolarObjects : Set :=
  | Sun | Mercury | Venus | Earth | Mars | Jupiter | Saturn | Uranus
  | Neptune | Pluto | Moon | SaturnRing | UranusRing | EarthCloud
  | SolarSystemView
  | OtherObject (n : nat).

#[global] Instance SolarObjects_eq_dec : EqDecision SolarObjects.
Proof. solve_decision. Defined.

Definition SolarObjects_encode (o : SolarObjects) : nat :=
  match o with
  | Sun => 0 | Mercury => 1 | Venus => 2 | Earth => 3 | Mars => 4
  | Jupiter => 5 | Saturn => 6 | Uranus => 7 | Neptune => 8 | Pluto => 9
  | Moon => 10 | SaturnRing => 11 | UranusRing => 12 | EarthCloud => 13
  | SolarSystemView => 14
  | OtherObject n => 15 + n
  end%nat.

Definition SolarObjects_decode (n : nat) : SolarObjects :=
  match n with
  | 0 => Sun | 1 => Mercury | 2 => Venus | 3 => Earth | 4 => Mars
  | 5 => Jupiter | 6 => Saturn | 7 => Uranus | 8 => Neptune | 9 => Pluto
  | 10 => Moon | 11 => SaturnRing | 12 => UranusRing | 13 => EarthCloud
  | 14 => SolarSystemView
  | _ => OtherObject (n - 15)
  end%nat.

Lemma SolarObjects_decode_encode (o : SolarObjects) :
  SolarObjects_decode (SolarObjects_encode o) = o.
Proof.
  destruct o; try reflexivity.
  cbn [SolarObjects_encode]. 
  change (15 + n)%nat with (S (S (S (S (S (S (S (S (S (S (S (S (S (S (S n))))))))))))))).
  cbn [SolarObjects_decode]. f_equal. lia.
Qed.

#[global] Instance SolarObjects_countable : Countable SolarObjects :=
  inj_countable' SolarObjects_encode SolarObjects_decode
    SolarObjects_decode_encode.

(** ** Records *)

(** [QDate] and [QTime], as far as the engine reads them. *)
Module QDate.
Record t : Set := mk { year : Z; month : Z; day : Z }.
End QDate.

Module QTime.
Record t : Set := mk { hour : Z; minute : Z; second : Z }.
End QTime.

(** A [QDateTime] is a count of milliseconds; [addMSecs] adds to it. *)
Definition QDateTime : Set := Z.

Definition addMSecs (t : QDateTime) (msecs : Z) : QDateTime := (t + msecs)%Z.

(** Conversion of a [double] to [qint64]: the fraction is discarded. *)
Definition truncate (x : R) : Z :=
  if Rle_dec 0 x then Int_part x else (- Int_part (- x))%Z.

(** The mathematical solar object held by [SolarObjectsContainer]: the
    orbital elements (base value and drift per day), the rotation period,
    the physical radius, the centre of orbit, and the current position and
    roll.  The class is declared outside this file; the fields are the
    accessors [solarmathcore.cpp] calls. *)
Module SolarObject.
Record t : Type := mk {
  N1 : R; N2 : R; i1 : R; i2 : R; w1 : R; w2 : R;
  a1 : R; a2 : R; e1 : R; e2 : R; M1 : R; M2 : R;
  period : R; radius : R; centerOfOrbit : SolarObjects;
  x : R; y : R; z : R; roll : R }.

Definition setX (v : R) (o : t) : t :=
  mk (N1 o) (N2 o) (i1 o) (i2 o) (w1 o) (w2 o) (a1 o) (a2 o) (e1 o) (e2 o)
     (M1 o) (M2 o) (period o) (radius o) (centerOfOrbit o)
     v (y o) (z o) (roll o).
Definition setY (v : R) (o : t) : t :=
  mk (N1 o) (N2 o) (i1 o) (i2 o) (w1 o) (w2 o) (a1 o) (a2 o) (e1 o) (e2 o)
     (M1 o) (M2 o) (period o) (radius o) (centerOfOrbit o)
     (x o) v (z o) (roll o).
Definition setZ (v : R) (o : t) : t :=
  mk (N1 o) (N2 o) (i1 o) (i2 o) (w1 o) (w2 o) (a1 o) (a2 o) (e1 o) (e2 o)
     (M1 o) (M2 o) (period o) (radius o) (centerOfOrbit o)
     (x o) (y o) v (roll o).
Definition setRoll (v : R) (o : t) : t :=
  mk (N1 o) (N2 o) (i1 o) (i2 o) (w1 o) (w2 o) (a1 o) (a2 o) (e1 o) (e2 o)
     (M1 o) (M2 o) (period o) (radius o) (centerOfOrbit o)
     (x o) (y o) (z o) v.
End SolarObject.

(** The visual body of the scene ([SolarObject3D]): position, roll, tilt
    and display radius. *)
Module SolarObject3D.
Record t : Type := mk { x : R; y : R; z : R; roll : R; tilt : R; r : R }.

Definition setX (v : R) (o : t) : t := mk v (y o) (z o) (roll o) (tilt o) (r o).
Definition setY (v : R) (o : t) : t := mk (x o) v (z o) (roll o) (tilt o) (r o).
Definition setZ (v : R) (o : t) : t := mk (x o) (y o) v (roll o) (tilt o) (r o).
Definition setRoll (v : R) (o : t) : t := mk (x o) (y o) (z o) v (tilt o) (r o).
Definition setTilt (v : R) (o : t) : t := mk (x o) (y o) (z o) (roll o) v (r o).
Definition setR (v : R) (o : t) : t := mk (x o) (y o) (z o) (roll o) (tilt o) v.
End SolarObject3D.

(** Modelled from the spec: the camera-control collaborator
    ([SolarSystem::CameraController], declared outside this file).  It
    holds a zoom limit and a zoom speed with their defaults;
    [setDefaultZoomLimit] and [setDefaultZoomSpeed] restore the defaults. *)
Module CameraController.
Record t : Type := mk {
  zoomLimit : R; zoomSpeed : R;
  defaultZoomLimit : R; defaultZoomSpeed : R }.

Definition setZoomLimit (v : R) (c : t) : t :=
  mk v (zoomSpeed c) (defaultZoomLimit c) (defaultZoomSpeed c).
Definition setZoomSpeed (v : R) (c : t) : t :=
  mk (zoomLimit c) v (defaultZoomLimit c) (defaultZoomSpeed c).
Definition setDefaultZoomLimit (c : t) : t :=
  setZoomLimit (defaultZoomLimit c) c.
Definition setDefaultZoomSpeed (c : t) : t :=
  setZoomSpeed (defaultZoomSpeed c) c.
End CameraController.

(** [SolarObjectsContainer::solarObject(id)] yields a pointer to the
    object of [id], or null: a finite map and its lookup. *)
Abbreviation SolarObjectsContainer := (gmap SolarObjects SolarObject.t).

(** [PlanetArray], the table of [PlanetsContainer::planets()]: the code
    uses it through [count], [operator[]] and iteration over
    [first]/[second] pairs, that is as a [std::map] from identifiers to
    [SolarObject3D*].  A value [None] is a null pointer stored under a key. *)
Abbreviation PlanetArray := (gmap SolarObjects (option SolarObject3D.t)).

(** [planets[object]]: the pointer stored under [object]; a key that is
    not in the table is inserted with a null pointer. *)
Definition planets_index (planets : PlanetArray) (object : SolarObjects)
  : option SolarObject3D.t * PlanetArray :=
  match planets !! object with
  | Some p => (p, planets)
  | None => (None, <[object := None]> planets)
  end.

(** [planets.count(object)] as a truth value. *)
Definition planets_count (planets : PlanetArray) (object : SolarObjects) : bool :=
  bool_decide (is_Some (planets !! object)).

(** [SolarMathCore::Data], without the camera fields. *)
Record Data : Type := Build_Data {
  year : Z; month : Z; day : Z; hours : Z; minutes : Z; seconds : R;
  solarTime : QDateTime;
  deltaTime : R;
  startD : R; oldTimeD : R; currentTimeD : R; deltaTimeD : R;
  daysPerFrame : R; daysPerFrameScale : R;
  planetScale : R; focusedScaling : bool; focusedMinimumScale : Z;
  actualScale : R;
  ultraSpeed : R; ultraSpeedStep : R; ultraSpeedMax : R;
  saturnRingInnerRadius : R; saturnRingOuterRadius : R;
  uranusRingInnerRadius : R; uranusRingOuterRadius : R;
  earthCloudRModifier : R;
  solarContainer : SolarObjectsContainer;
  container : option PlanetArray;
  cameraController : option CameraController.t }.

(** Assignment to one field of [m_data]. *)
Definition set_year (v : Z) (d : Data) : Data :=
  Build_Data v (month d) (day d) (hours d) (minutes d) (seconds d)
    (solarTime d) (deltaTime d) (startD d) (oldTimeD d) (currentTimeD d)
    (deltaTimeD d) (daysPerFrame d) (daysPerFrameScale d) (planetScale d)
    (focusedScaling d) (focusedMinimumScale d) (actualScale d)
    (ultraSpeed d) (ultraSpeedStep d) (ultraSpeedMax d)
    (saturnRingInnerRadius d) (saturnRingOuterRadius d)
    (uranusRingInnerRadius d) (uranusRingOuterRadius d)
    (earthCloudRModifier d) (solarContainer d) (container d)
    (cameraController d).

Definition set_month (v : Z) (d : Data) : Data :=
  Build_Data (year d) v (day d) (hours d) (minutes d) (seconds d)
    (solarTime d) (deltaTime d) (startD d) (oldTimeD d) (currentTimeD d)
    (deltaTimeD d) (daysPerFrame d) (daysPerFrameScale d) (planetScale d)
    (focusedScaling d) (focusedMinimumScale d) (actualScale d)
    (ultraSpeed d) (ultraSpeedStep d) (ultraSpeedMax d)
    (saturnRingInnerRadius d) (saturnRingOuterRadius d)
    (uranusRingInnerRadius d) (uranusRingOuterRadius d)
    (earthCloudRModifier d) (solarContainer d) (container d)
    (cameraController d).

Definition set_day (v : Z) (d : Data) : Data :=
  Build_Data (year d) (month d) v (hours d) (minutes d) (seconds d)
    (solarTime d) (deltaTime d) (startD d) (oldTimeD d) (currentTimeD d)
    (deltaTimeD d) (daysPerFrame d) (daysPerFrameScale d) (planetScale d)
    (focusedScaling d) (focusedMinimumScale d) (actualScale d)
    (ultraSpeed d) (ultraSpeedStep d) (ultraSpeedMax d)
    (saturnRingInnerRadius d) (saturnRingOuterRadius d)
    (uranusRingInnerRadius d) (uranusRingOuterRadius d)
    (earthCloudRModifier d) (solarContainer d) (container d)
    (cameraController d).

Definition set_hours (v : Z) (d : Data) : Data :=
  Build_Data (year d) (month d) (day d) v (minutes d) (seconds d)
    (solarTime d) (deltaTime d) (startD d) (oldTimeD d) (currentTimeD d)
    (deltaTimeD d) (daysPerFrame d) (daysPerFrameScale d) (planetScale d)
    (focusedScaling d) (focusedMinimumScale d) (actualScale d)
    (ultraSpeed d) (ultraSpeedStep d) (ultraSpeedMax d)
    (saturnRingInnerRadius d) (saturnRingOuterRadius d)
    (uranusRingInnerRadius d) (uranusRingOuterRadius d)
    (earthCloudRModifier d) (solarContainer d) (container d)
    (cameraController d).

Definition set_minutes (v : Z) (d : Data) : Data :=
  Build_Data (year d) (month d) (day d) (hours d) v (seconds d)
    (solarTime d) (deltaTime d) (startD d) (oldTimeD d) (currentTimeD d)
    (deltaTimeD d) (daysPerFrame d) (daysPerFrameScale d) (planetScale d)
    (focusedScaling d) (focusedMinimumScale d) (actualScale d)
    (ultraSpeed d) (ultraSpeedStep d) (ultraSpeedMax d)
    (saturnRingInnerRadius d) (saturnRingOuterRadius d)
    (uranusRingInnerRadius d) (uranusRingOuterRadius d)
    (earthCloudRModifier d) (solarContainer d) (container d)
    (cameraController d).

Definition set_seconds (v : R) (d : Data) : Data :=
  Build_Data (year d) (month d) (day d) (hours d) (minutes d) v
    (solarTime d) (deltaTime d) (startD d) (oldTimeD d) (currentTimeD d)
    (deltaTimeD d) (daysPerFrame d) (daysPerFrameScale d) (planetScale d)
    (focusedScaling d) (focusedMinimumScale d) (actualScale d)
    (ultraSpeed d) (ultraSpeedStep d) (ultraSpeedMax d)
    (saturnRingInnerRadius d) (saturnRingOuterRadius d)
    (uranusRingInnerRadius d) (uranusRingOuterRadius d)
    (earthCloudRModifier d) (solarContainer d) (container d)
    (cameraController d).

Definition set_solarTime (v : QDateTime) (d : Data) : Data :=
  Build_Data (year d) (month d) (day d) (hours d) (minutes d) (seconds d) v
    (deltaTime d) (startD d) (oldTimeD d) (currentTimeD d) (deltaTimeD d)
    (daysPerFrame d) (daysPerFrameScale d) (planetScale d)
    (focusedScaling d) (focusedMinimumScale d) (actualScale d)
    (ultraSpeed d) (ultraSpeedStep d) (ultraSpeedMax d)
    (saturnRingInnerRadius d) (saturnRingOuterRadius d)
    (uranusRingInnerRadius d) (uranusRingOuterRadius d)
    (earthCloudRModifier d) (solarContainer d) (container d)
    (cameraController d).

Definition set_deltaTime (v : R) (d : Data) : Data :=
  Build_Data (year d) (month d) (day d) (hours d) (minutes d) (seconds d)
    (solarTime d) v (startD d) (oldTimeD d) (currentTimeD d) (deltaTimeD d)
    (daysPerFrame d) (daysPerFrameScale d) (planetScale d)
    (focusedScaling d) (focusedMinimumScale d) (actualScale d)
    (ultraSpeed d) (ultraSpeedStep d) (ultraSpeedMax d)
    (saturnRingInnerRadius d) (saturnRingOuterRadius d)
    (uranusRingInnerRadius d) (uranusRingOuterRadius d)
    (earthCloudRModifier d) (solarContainer d) (container d)
    (cameraController d).

Definition set_oldTimeD (v : R) (d : Data) : Data :=
  Build_Data (year d) (month d) (day d) (hours d) (minutes d) (seconds d)
    (solarTime d) (deltaTime d) (startD d) v (currentTimeD d) (deltaTimeD d)
    (daysPerFrame d) (daysPerFrameScale d) (planetScale d)
    (focusedScaling d) (focusedMinimumScale d) (actualScale d)
    (ultraSpeed d) (ultraSpeedStep d) (ultraSpeedMax d)
    (saturnRingInnerRadius d) (saturnRingOuterRadius d)
    (uranusRingInnerRadius d) (uranusRingOuterRadius d)
    (earthCloudRModifier d) (solarContainer d) (container d)
    (cameraController d).

Definition set_currentTimeD (v : R) (d : Data) : Data :=
  Build_Data (year d) (month d) (day d) (hours d) (minutes d) (seconds d)
    (solarTime d) (deltaTime d) (startD d) (oldTimeD d) v (deltaTimeD d)
    (daysPerFrame d) (daysPerFrameScale d) (planetScale d)
    (focusedScaling d) (focusedMinimumScale d) (actualScale d)
    (ultraSpeed d) (ultraSpeedStep d) (ultraSpeedMax d)
    (saturnRingInnerRadius d) (saturnRingOuterRadius d)
    (uranusRingInnerRadius d) (uranusRingOuterRadius d)
    (earthCloudRModifier d) (solarContainer d) (container d)
    (cameraController d).

Definition set_deltaTimeD (v : R) (d : Data) : Data :=
  Build_Data (year d) (month d) (day d) (hours d) (minutes d) (seconds d)
    (solarTime d) (deltaTime d) (startD d) (oldTimeD d) (currentTimeD d) v
    (daysPerFrame d) (daysPerFrameScale d) (planetScale d)
    (focusedScaling d) (focusedMinimumScale d) (actualScale d)
    (ultraSpeed d) (ultraSpeedStep d) (ultraSpeedMax d)
    (saturnRingInnerRadius d) (saturnRingOuterRadius d)
    (uranusRingInnerRadius d) (uranusRingOuterRadius d)
    (earthCloudRModifier d) (solarContainer d) (container d)
    (cameraController d).

Definition set_daysPerFrame (v : R) (d : Data) : Data :=
  Build_Data (year d) (month d) (day d) (hours d) (minutes d) (seconds d)
    (solarTime d) (deltaTime d) (startD d) (oldTimeD d) (currentTimeD d)
    (deltaTimeD d) v (daysPerFrameScale d) (planetScale d)
    (focusedScaling d) (focusedMinimumScale d) (actualScale d)
    (ultraSpeed d) (ultraSpeedStep d) (ultraSpeedMax d)
    (saturnRingInnerRadius d) (saturnRingOuterRadius d)
    (uranusRingInnerRadius d) (uranusRingOuterRadius d)
    (earthCloudRModifier d) (solarContainer d) (container d)
    (cameraController d).

Definition set_daysPerFrameScale (v : R) (d : Data) : Data :=
  Build_Data (year d) (month d) (day d) (hours d) (minutes d) (seconds d)
    (solarTime d) (deltaTime d) (startD d) (oldTimeD d) (currentTimeD d)
    (deltaTimeD d) (daysPerFrame d) v (planetScale d) (focusedScaling d)
    (focusedMinimumScale d) (actualScale d) (ultraSpeed d)
    (ultraSpeedStep d) (ultraSpeedMax d) (saturnRingInnerRadius d)
    (saturnRingOuterRadius d) (uranusRingInnerRadius d)
    (uranusRingOuterRadius d) (earthCloudRModifier d) (solarContainer d)
    (container d) (cameraController d).

Definition set_planetScale (v : R) (d : Data) : Data :=
  Build_Data (year d) (month d) (day d) (hours d) (minutes d) (seconds d)
    (solarTime d) (deltaTime d) (startD d) (oldTimeD d) (currentTimeD d)
    (deltaTimeD d) (daysPerFrame d) (daysPerFrameScale d) v
    (focusedScaling d) (focusedMinimumScale d) (actualScale d)
    (ultraSpeed d) (ultraSpeedStep d) (ultraSpeedMax d)
    (saturnRingInnerRadius d) (saturnRingOuterRadius d)
    (uranusRingInnerRadius d) (uranusRingOuterRadius d)
    (earthCloudRModifier d) (solarContainer d) (container d)
    (cameraController d).

Definition set_actualScale (v : R) (d : Data) : Data :=
  Build_Data (year d) (month d) (day d) (hours d) (minutes d) (seconds d)
    (solarTime d) (deltaTime d) (startD d) (oldTimeD d) (currentTimeD d)
    (deltaTimeD d) (daysPerFrame d) (daysPerFrameScale d) (planetScale d)
    (focusedScaling d) (focusedMinimumScale d) v (ultraSpeed d)
    (ultraSpeedStep d) (ultraSpeedMax d) (saturnRingInnerRadius d)
    (saturnRingOuterRadius d) (uranusRingInnerRadius d)
    (uranusRingOuterRadius d) (earthCloudRModifier d) (solarContainer d)
    (container d) (cameraController d).

Definition set_ultraSpeed (v : R) (d : Data) : Data :=
  Build_Data (year d) (month d) (day d) (hours d) (minutes d) (seconds d)
    (solarTime d) (deltaTime d) (startD d) (oldTimeD d) (currentTimeD d)
    (deltaTimeD d) (daysPerFrame d) (daysPerFrameScale d) (planetScale d)
    (focusedScaling d) (focusedMinimumScale d) (actualScale d) v
    (ultraSpeedStep d) (ultraSpeedMax d) (saturnRingInnerRadius d)
    (saturnRingOuterRadius d) (uranusRingInnerRadius d)
    (uranusRingOuterRadius d) (earthCloudRModifier d) (solarContainer d)
    (container d) (cameraController d).

Definition set_saturnRingInnerRadius (v : R) (d : Data) : Data :=
  Build_Data (year d) (month d) (day d) (hours d) (minutes d) (seconds d)
    (solarTime d) (deltaTime d) (startD d) (oldTimeD d) (currentTimeD d)
    (deltaTimeD d) (daysPerFrame d) (daysPerFrameScale d) (planetScale d)
    (focusedScaling d) (focusedMinimumScale d) (actualScale d)
    (ultraSpeed d) (ultraSpeedStep d) (ultraSpeedMax d) v
    (saturnRingOuterRadius d) (uranusRingInnerRadius d)
    (uranusRingOuterRadius d) (earthCloudRModifier d) (solarContainer d)
    (container d) (cameraController d).

Definition set_saturnRingOuterRadius (v : R) (d : Data) : Data :=
  Build_Data (year d) (month d) (day d) (hours d) (minutes d) (seconds d)
    (solarTime d) (deltaTime d) (startD d) (oldTimeD d) (currentTimeD d)
    (deltaTimeD d) (daysPerFrame d) (daysPerFrameScale d) (planetScale d)
    (focusedScaling d) (focusedMinimumScale d) (actualScale d)
    (ultraSpeed d) (ultraSpeedStep d) (ultraSpeedMax d)
    (saturnRingInnerRadius d) v (uranusRingInnerRadius d)
    (uranusRingOuterRadius d) (earthCloudRModifier d) (solarContainer d)
    (container d) (cameraController d).

Definition set_uranusRingInnerRadius (v : R) (d : Data) : Data :=
  Build_Data (year d) (month d) (day d) (hours d) (minutes d) (seconds d)
    (solarTime d) (deltaTime d) (startD d) (oldTimeD d) (currentTimeD d)
    (deltaTimeD d) (daysPerFrame d) (daysPerFrameScale d) (planetScale d)
    (focusedScaling d) (focusedMinimumScale d) (actualScale d)
    (ultraSpeed d) (ultraSpeedStep d) (ultraSpeedMax d)
    (saturnRingInnerRadius d) (saturnRingOuterRadius d) v
    (uranusRingOuterRadius d) (earthCloudRModifier d) (solarContainer d)
    (container d) (cameraController d).

Definition set_uranusRingOuterRadius (v : R) (d : Data) : Data :=
  Build_Data (year d) (month d) (day d) (hours d) (minutes d) (seconds d)
    (solarTime d) (deltaTime d) (startD d) (oldTimeD d) (currentTimeD d)
    (deltaTimeD d) (daysPerFrame d) (daysPerFrameScale d) (planetScale d)
    (focusedScaling d) (focusedMinimumScale d) (actualScale d)
    (ultraSpeed d) (ultraSpeedStep d) (ultraSpeedMax d)
    (saturnRingInnerRadius d) (saturnRingOuterRadius d)
    (uranusRingInnerRadius d) v (earthCloudRModifier d) (solarContainer d)
    (container d) (cameraController d).

Definition set_solarContainer (v : SolarObjectsContainer) (d : Data) : Data :=
  Build_Data (year d) (month d) (day d) (hours d) (minutes d) (seconds d)
    (solarTime d) (deltaTime d) (startD d) (oldTimeD d) (currentTimeD d)
    (deltaTimeD d) (daysPerFrame d) (daysPerFrameScale d) (planetScale d)
    (focusedScaling d) (focusedMinimumScale d) (actualScale d)
    (ultraSpeed d) (ultraSpeedStep d) (ultraSpeedMax d)
    (saturnRingInnerRadius d) (saturnRingOuterRadius d)
    (uranusRingInnerRadius d) (uranusRingOuterRadius d)
    (earthCloudRModifier d) v (container d) (cameraController d).

Definition set_container (v : option PlanetArray) (d : Data) : Data :=
  Build_Data (year d) (month d) (day d) (hours d) (minutes d) (seconds d)
    (solarTime d) (deltaTime d) (startD d) (oldTimeD d) (currentTimeD d)
    (deltaTimeD d) (daysPerFrame d) (daysPerFrameScale d) (planetScale d)
    (focusedScaling d) (focusedMinimumScale d) (actualScale d)
    (ultraSpeed d) (ultraSpeedStep d) (ultraSpeedMax d)
    (saturnRingInnerRadius d) (saturnRingOuterRadius d)
    (uranusRingInnerRadius d) (uranusRingOuterRadius d)
    (earthCloudRModifier d) (solarContainer d) v (cameraController d).

Definition set_cameraController (v : option CameraController.t) (d : Data) : Data :=
  Build_Data (year d) (month d) (day d) (hours d) (minutes d) (seconds d)
    (solarTime d) (deltaTime d) (startD d) (oldTimeD d) (currentTimeD d)
    (deltaTimeD d) (daysPerFrame d) (daysPerFrameScale d) (planetScale d)
    (focusedScaling d) (focusedMinimumScale d) (actualScale d)
    (ultraSpeed d) (ultraSpeedStep d) (ultraSpeedMax d)
    (saturnRingInnerRadius d) (saturnRingOuterRadius d)
    (uranusRingInnerRadius d) (uranusRingOuterRadius d)
    (earthCloudRModifier d) (solarContainer d) (container d) v.

(** [a <= b] as the truth value of a C++ condition. *)
Definition Rleb (a b : R) : bool := if Rle_dec a b then true else false.

(** [std::atan2(y, x)]: the angle of the point [(x, y)]. *)
Definition atan2 (y x : R) : R :=
  if Rlt_dec 0 x then atan (y / x)
  else if Rlt_dec x 0 then
         (if Rle_dec 0 y then atan (y / x) + PI else atan (y / x) - PI)
  else if Rlt_dec 0 y then PI / 2
  else if Rlt_dec y 0 then - (PI / 2)
  else 0.

(** ** The member functions *)

Section Core.

(** Collaborators declared outside [solarmathcore.cpp]. *)
Variable parseSolarObjectRadius : SolarObjects -> R.   (* SolarParser *)
Variable calculateTimeScale : Z -> Z -> Z -> R.        (* Utils *)
Variable calculateUT : Z -> Z -> R -> R.               (* Utils *)
Variable auScale : R.                                  (* SolarValues *)
Variable SolarValues_year SolarValues_month SolarValues_day : Z.
Variable saturnOuterRadius uranusOuterRadius : R.      (* SolarValues *)
Variable mkDateTime : QDate.t -> QTime.t -> QDateTime. (* QDateTime(date, time) *)
Variable dateOf : QDateTime -> QDate.t.                (* QDateTime::date() *)
Variable timeOf : QDateTime -> QTime.t.                (* QDateTime::time() *)

(** [Data::Data()].  The solar-object container is built by its own
    constructor, and [planetScale] and [actualScale] have no
    initialiser: the three are arguments here. *)
Definition newData (sc : SolarObjectsContainer)
    (planetScale0 actualScale0 : R) : option Data :=
  let year := SolarValues_year in
  let month := SolarValues_month in
  let day := SolarValues_day in
  let hours := 0%Z in
  let minutes := 0%Z in
  let seconds := 0 in
  let startD :=
    calculateTimeScale year month day + calculateUT hours minutes seconds in
  saturn ← sc !! Saturn;
  uranus ← sc !! Uranus;
  Some {|
    year := year; month := month; day := day;
    hours := hours; minutes := minutes; seconds := seconds;
    solarTime := mkDateTime (QDate.mk year month day) (QTime.mk hours minutes 0);
    deltaTime := 0;
    startD := startD; oldTimeD := startD; currentTimeD := startD;
    deltaTimeD := 0;
    daysPerFrame := 0; daysPerFrameScale := 0;
    planetScale := planetScale0; focusedScaling := false;
    focusedMinimumScale := 20; actualScale := actualScale0;
    ultraSpeed := 1; ultraSpeedStep := 2; ultraSpeedMax := 64;
    saturnRingInnerRadius := SolarObject.radius saturn + 6.630;
    saturnRingOuterRadius := SolarObject.radius saturn + saturnOuterRadius;
    uranusRingInnerRadius := SolarObject.radius uranus + 2;
    uranusRingOuterRadius := SolarObject.radius uranus + uranusOuterRadius;
    earthCloudRModifier := 1.010;
    solarContainer := sc;
    container := None;
    cameraController := None |}.

(** [solarObjectPosition(object)]. *)
Definition solarObjectPosition (object : SolarObjects) (d : Data) : option Data :=
  match solarContainer d !! object with
  | None => Some d
  | Some solarObj =>
      moved ←
        (if bool_decide (object ≠ Sun) then
           let t := currentTimeD d in
           let N := (SolarObject.N1 solarObj + SolarObject.N2 solarObj * t) * PI / 180 in
           let iPlanet := (SolarObject.i1 solarObj + SolarObject.i2 solarObj * t) * PI / 180 in
           let w := (SolarObject.w1 solarObj + SolarObject.w2 solarObj * t) * PI / 180 in
           let a := SolarObject.a1 solarObj + SolarObject.a2 solarObj * t in
           let e := SolarObject.e1 solarObj + SolarObject.e2 solarObj * t in
           let M := (SolarObject.M1 solarObj + SolarObject.M2 solarObj * t) * PI / 180 in
           let E := M + e * sin M * (1 + e * cos M) in
           let xv := a * (cos E - e) in
           let yv := a * (sqrt (1 - e * e) * sin E) in
           let v := atan2 yv xv in
           let r := sqrt (xv * xv + yv * yv) in
           let xh := r * (cos N * cos (v + w) - sin N * sin (v + w) * cos iPlanet) in
           let zh := - r * (sin N * cos (v + w) + cos N * sin (v + w) * cos iPlanet) in
           let yh := r * (sin (w + v) * sin iPlanet) in
           centerObj ← solarContainer d !! SolarObject.centerOfOrbit solarObj;
           Some (SolarObject.setZ (SolarObject.z centerObj + zh * auScale)
                  (SolarObject.setY (SolarObject.y centerObj + yh * auScale)
                    (SolarObject.setX (SolarObject.x centerObj + xh * auScale)
                      solarObj)))
         else Some solarObj);
      let solarObj' :=
        SolarObject.setRoll
          (SolarObject.roll moved + deltaTimeD d / SolarObject.period moved * 360)
          moved in
      planets ← container d;
      let '(visualSolarObject, planets') := planets_index planets object in
      let planets'' :=
        match visualSolarObject with
        | Some vis =>
            <[object := Some
                (SolarObject3D.setRoll (SolarObject.roll solarObj')
                  (SolarObject3D.setZ (SolarObject.z solarObj')
                    (SolarObject3D.setY (SolarObject.y solarObj')
                      (SolarObject3D.setX (SolarObject.x solarObj') vis))))]>
              planets'
        | None => planets'
        end in
      Some (set_container (Some planets'')
             (set_solarContainer (<[object := solarObj']> (solarContainer d)) d))
  end.

(** [advanceTime(object)]. *)
Definition advanceTime (object : SolarObjects) (d : Data) : option Data :=
  d ←
    (if bool_decide (object = SolarSystemView) then
       Some (set_daysPerFrame (daysPerFrameScale d) d)
     else if bool_decide (object = Mercury) || bool_decide (object = Venus) then
       solarObj ← solarContainer d !! object;
       Some (set_daysPerFrame
               (daysPerFrameScale d * SolarObject.period solarObj / 15000) d)
     else
       solarObj ← solarContainer d !! object;
       Some (set_daysPerFrame
               (daysPerFrameScale d * SolarObject.period solarObj / 100) d));
  (* add solar time *)
  let d :=
    set_solarTime
      (addMSecs (solarTime d)
         (truncate (deltaTime d * 1000 * daysPerFrame d * ultraSpeed d))) d in
  (* save helpers values *)
  let d := set_hours (QTime.hour (timeOf (solarTime d))) d in
  let d := set_minutes (QTime.minute (timeOf (solarTime d))) d in
  let d := set_seconds (IZR (QTime.second (timeOf (solarTime d)))) d in
  let d := set_year (QDate.year (dateOf (solarTime d))) d in
  let d := set_month (QDate.month (dateOf (solarTime d))) d in
  let d := set_day (QDate.day (dateOf (solarTime d))) d in
  (* advance the time in days *)
  let d := set_oldTimeD (currentTimeD d) d in
  let d := set_currentTimeD (calculateTimeScale (year d) (month d) (day d)) d in
  let d :=
    set_currentTimeD
      (currentTimeD d + calculateUT (hours d) (minutes d) (seconds d)) d in
  Some (set_deltaTimeD (currentTimeD d - oldTimeD d) d).

(** [setSolarObjectsScale(scale, focused)]. *)
Definition setSolarObjectsScale (scale : R) (focused : bool) (d : Data) : Data :=
  let d := if negb focused then set_actualScale scale d else d in
  if Rleb scale (IZR (focusedMinimumScale d)) && (focusedScaling d || focused)
  then set_planetScale (IZR (focusedMinimumScale d)) d
  else set_planetScale (actualScale d) d.

(** [setSolarSystemSpeed(speed)], [setPlanetsContainer(planetsContainer)],
    [setDeltaTime(dt)], [setCameraController(controller)] and the
    accessors. *)
Definition setSolarSystemSpeed (speed : R) (d : Data) : Data :=
  set_daysPerFrameScale speed d.

Definition setPlanetsContainer (planetsContainer : option PlanetArray)
    (d : Data) : Data :=
  set_container planetsContainer d.

Definition setDeltaTime (dt : R) (d : Data) : Data := set_deltaTime dt d.

Definition setCameraController (controller : option CameraController.t)
    (d : Data) : Data :=
  set_cameraController controller d.

Definition getTime (d : Data) : QDateTime := solarTime d.
Definition solarSystemSpeed (d : Data) : R := daysPerFrameScale d.
Definition extraSpeed (d : Data) : R := ultraSpeed d.

(** The body of the loop of [changeSolarSystemScale], for the entry
    [(first, second)] of the table. *)
Definition changeSolarSystemScale_body (scaling : R)
    (first : SolarObjects) (second : option SolarObject3D.t)
    (acc : option Data) : option Data :=
  d ← acc;
  match first with
  | Sun =>
      planet ← second;
      planets ← container d;
      Some (set_container
              (Some (<[first := Some
                        (SolarObject3D.setR
                           (parseSolarObjectRadius first * scaling / 80) planet)]>
                      planets)) d)
  | Mercury | Venus | Earth | Mars | Jupiter | Saturn | Uranus | Neptune
  | Pluto | Moon =>
      planet ← second;
      planets ← container d;
      Some (set_container
              (Some (<[first := Some
                        (SolarObject3D.setR
                           (parseSolarObjectRadius first * scaling) planet)]>
                      planets)) d)
  | SaturnRing =>
      let d := set_saturnRingOuterRadius (saturnRingOuterRadius d * scaling) d in
      Some (set_saturnRingInnerRadius (saturnRingInnerRadius d * scaling) d)
  | UranusRing =>
      let d := set_uranusRingInnerRadius (uranusRingInnerRadius d * scaling) d in
      Some (set_uranusRingOuterRadius (uranusRingOuterRadius d * scaling) d)
  | _ => Some d
  end.

(** [changeSolarSystemScale(scale, focused)].  Every key of the table is
    visited once, and the bodies of two different keys write different
    places, so the order of the visits does not matter. *)
Definition changeSolarSystemScale (scale : R) (focused : bool) (d : Data)
  : option Data :=
  let d := setSolarObjectsScale scale focused d in
  let scaling := planetScale d in
  planets ← container d;
  map_fold (changeSolarSystemScale_body scaling) (Some d) planets.

(** [changeExtraSpeed()] and [resetExtraSpeed()]. *)
Definition changeExtraSpeed (d : Data) : Data :=
  if Rleb (ultraSpeed d * ultraSpeedStep d) (ultraSpeedMax d)
  then set_ultraSpeed (ultraSpeed d * ultraSpeedStep d) d
  else set_ultraSpeed 1 d.

Definition resetExtraSpeed (d : Data) : Data := set_ultraSpeed 1 d.

(** [setupPlanetRings()]. *)
Definition setupPlanetRings (d : Data) : option Data :=
  planets ← container d;
  planets ←
    (if planets_count planets SaturnRing && planets_count planets Saturn then
       let '(saturn, planets) := planets_index planets Saturn in
       let '(saturnRing, planets) := planets_index planets SaturnRing in
       saturn ← saturn;
       saturnRing ← saturnRing;
       let saturnRing := SolarObject3D.setX (SolarObject3D.x saturn) saturnRing in
       let saturnRing := SolarObject3D.setY (SolarObject3D.y saturn) saturnRing in
       let saturnRing := SolarObject3D.setZ (SolarObject3D.z saturn) saturnRing in
       let saturnRing := SolarObject3D.setTilt (SolarObject3D.tilt saturn) saturnRing in
       let saturnRing := SolarObject3D.setRoll (SolarObject3D.roll saturn / 10) saturnRing in
       let saturnRing :=
         SolarObject3D.setR
           ((saturnRingInnerRadius d + saturnRingOuterRadius d) / 1.75)
           saturnRing in
       Some (<[SaturnRing := Some saturnRing]> planets)
     else Some planets);
  planets ←
    (if planets_count planets UranusRing && planets_count planets Uranus then
       let '(uranus, planets) := planets_index planets Uranus in
       let '(uranusRings, planets) := planets_index planets UranusRing in
       uranus ← uranus;
       uranusRings ← uranusRings;
       let uranusRings := SolarObject3D.setX (SolarObject3D.x uranus) uranusRings in
       let uranusRings := SolarObject3D.setY (SolarObject3D.y uranus) uranusRings in
       let uranusRings := SolarObject3D.setZ (SolarObject3D.z uranus) uranusRings in
       let uranusRings := SolarObject3D.setTilt (SolarObject3D.tilt uranus) uranusRings in
       let uranusRings := SolarObject3D.setRoll (SolarObject3D.roll uranus / 10) uranusRings in
       let uranusRings :=
         SolarObject3D.setR
           ((uranusRingInnerRadius d + uranusRingOuterRadius d) / 1.75)
           uranusRings in
       Some (<[UranusRing := Some uranusRings]> planets)
     else Some planets);
  Some (set_container (Some planets) d).

(** [atmosphereCalculations()]. *)
Definition atmosphereCalculations (d : Data) : option Data :=
  planets ← container d;
  planets ←
    (if planets_count planets EarthCloud && planets_count planets Earth then
       let '(earth, planets) := planets_index planets Earth in
       let '(earthCloud, planets) := planets_index planets EarthCloud in
       earth ← earth;
       earthCloud ← earthCloud;
       let earthCloud := SolarObject3D.setX (SolarObject3D.x earth) earthCloud in
       let earthCloud := SolarObject3D.setY (SolarObject3D.y earth) earthCloud in
       let earthCloud := SolarObject3D.setZ (SolarObject3D.z earth) earthCloud in
       let earthCloud := SolarObject3D.setTilt (SolarObject3D.tilt earth) earthCloud in
       let earthCloud := SolarObject3D.setRoll (SolarObject3D.roll earth / 1.2) earthCloud in
       let earthCloud :=
         SolarObject3D.setR (SolarObject3D.r earth * earthCloudRModifier d)
           earthCloud in
       Some (<[EarthCloud := Some earthCloud]> planets)
     else Some planets);
  Some (set_container (Some planets) d).

(** [additionalCalculation()]. *)
Definition additionalCalculation (d : Data) : option Data :=
  d ← setupPlanetRings d;
  atmosphereCalculations d.

(** [calculateZoomLimit(object, limit)]. *)
Definition calculateZoomLimit (object : SolarObjects) (limit : R) (d : Data)
  : option R :=
  let finalLimit := limit in
  match object with
  | Sun =>
      controller ← cameraController d;
      Some (CameraController.defaultZoomLimit controller)
  | Mercury => Some (finalLimit * 2)
  | Jupiter => Some (finalLimit / 1.5)
  | Pluto => Some (finalLimit * 1.5)
  | _ => Some finalLimit
  end.

(** [calculateZoomLimit(object)]. *)
Definition calculateZoomLimit_of (object : SolarObjects) (d : Data) : option R :=
  let solarObjRadius := parseSolarObjectRadius object in
  let zoomLimit := planetScale d * solarObjRadius * 4 in
  calculateZoomLimit object zoomLimit d.

(** [updateSolarViewZoomLimit(object)]. *)
Definition updateSolarViewZoomLimit (object : SolarObjects) (d : Data)
  : option Data :=
  if bool_decide (object = SolarSystemView) then
    match cameraController d with
    | Some controller =>
        let controller := CameraController.setDefaultZoomLimit controller in
        let controller := CameraController.setDefaultZoomSpeed controller in
        Some (set_cameraController (Some controller) d)
    | None => Some d
    end
  else
    let solarObjRadius := parseSolarObjectRadius object in
    let zoomLimit := planetScale d * solarObjRadius * 4 in
    zoomLimit ← calculateZoomLimit object zoomLimit d;
    match cameraController d with
    | Some controller =>
        let controller := CameraController.setZoomLimit zoomLimit controller in
        let controller :=
          CameraController.setZoomSpeed
            (CameraController.defaultZoomSpeed controller / 3) controller in
        Some (set_cameraController (Some controller) d)
    | None => Some d
    end.

(** A call of one of the two burst-speed operations, and a run of calls. *)
Inductive SpeedCall : Set := CallChangeExtraSpeed | CallResetExtraSpeed.

Definition speedCall (c : SpeedCall) (d : Data) : Data :=
  match c with
  | CallChangeExtraSpeed => changeExtraSpeed d
  | CallResetExtraSpeed => resetExtraSpeed d
  end.

Definition speedCalls (cs : list SpeedCall) (d : Data) : Data :=
  foldl (fun d c => speedCall c d) d cs.

End Core.

(** ** Sample data

    A small scene used to run the functions on concrete values. *)

Definition sampleObject (center : SolarObjects) (a e M period : R) : SolarObject.t :=
  SolarObject.mk 0 0 0 0 0 0 a 0 e 0 M 0 period 1 center 0 0 0 0.

Definition sampleContainer : SolarObjectsContainer :=
  <[Sun := sampleObject Sun 0 0 0 25]>
    (<[Earth := sampleObject Sun 1 0 0 1]>
      (<[Saturn := sampleObject Sun 10 0 0 2]>
        (<[Uranus := sampleObject Sun 19 0 0 4]> ∅))).

Definition sampleVisual : SolarObject3D.t := SolarObject3D.mk 1 2 3 40 5 6.

Definition sampleController : CameraController.t := CameraController.mk 7 9 50 3.

Definition sampleData : Data :=
  {| year := 2000; month := 1; day := 1; hours := 0; minutes := 0; seconds := 0;
     solarTime := 0%Z; deltaTime := 0;
     startD := 0; oldTimeD := 0; currentTimeD := 0; deltaTimeD := 1;
     daysPerFrame := 0; daysPerFrameScale := 0;
     planetScale := 1; focusedScaling := false; focusedMinimumScale := 20;
     actualScale := 1;
     ultraSpeed := 1; ultraSpeedStep := 2; ultraSpeedMax := 64;
     saturnRingInnerRadius := 10; saturnRingOuterRadius := 12;
     uranusRingInnerRadius := 5; uranusRingOuterRadius := 6;
     earthCloudRModifier := 1.010;
     solarContainer := sampleContainer;
     container := None;
     cameraController := Some sampleController |}.

(** ** Predicates used by the statements *)

(** The burst step and ceiling keep the values their initialisers give
    them: no function assigns them. *)
Definition burst_constants (d : Data) : Prop :=
  ultraSpeedStep d = 2 /\ ultraSpeedMax d = 64.

(** The period of [object] in the registry ([0] if it has no record). *)
Definition periodOf (d : Data) (object : SolarObjects) : R :=
  from_option SolarObject.period 0 (solarContainer d !! object).

(** The period factor of the time model, in the words of its description:
    1 for the whole-system view, period/15000 for Mercury and Venus,
    period/100 for every other body. *)
Definition spec_periodFactor (focus : SolarObjects) (period : R) : R :=
  match focus with
  | SolarSystemView => 1
  | Mercury | Venus => period / 15000
  | _ => period / 100
  end.

(** The zoom limit of a body, in the words of its description: the base
    limit is effective scale × physical radius × 4; the whole-system view
    and the Sun take the controller's default, Mercury doubles the base,
    Jupiter divides it by 1.5, Pluto multiplies it by 1.5, every other body
    keeps it. *)
Definition spec_zoomLimitFor (effectiveScale radius defaultLimit : R)
    (id : SolarObjects) : R :=
  let base := effectiveScale * radius * 4 in
  match id with
  | SolarSystemView | Sun => defaultLimit
  | Mercury => base * 2
  | Jupiter => base / 1.5
  | Pluto => base * 1.5
  | _ => base
  end.

(** No key of the table holds a null pointer: every body of the scene is
    a live object. *)
Definition no_null (planets : PlanetArray) : Prop :=
  forall k, planets !! k <> Some None.

(** The dependent body the hierarchy step is described to produce: position
    and tilt of the parent, and the given roll and radius. *)
Definition followed (parent : SolarObject3D.t) (roll r : R) : SolarObject3D.t :=
  SolarObject3D.mk (SolarObject3D.x parent) (SolarObject3D.y parent)
    (SolarObject3D.z parent) roll (SolarObject3D.tilt parent) r.

(** The step of one (dependent, parent) pair as described: it acts when
    both are in the scene and does nothing otherwise. *)
Definition spec_follow (dep parent : SolarObjects) (rollDivisor : R)
    (radius : SolarObject3D.t -> R) (planets : PlanetArray) : PlanetArray :=
  match planets !! dep, planets !! parent with
  | Some (Some _), Some (Some p) =>
      <[dep := Some (followed p (SolarObject3D.roll p / rollDivisor) (radius p))]>
        planets
  | _, _ => planets
  end.

(** The four ring radii of [Data]. *)
Definition ringRadii (d : Data) : R * R * R * R :=
  (saturnRingInnerRadius d, saturnRingOuterRadius d,
   uranusRingInnerRadius d, uranusRingOuterRadius d).

(** The ring radii after one pass of the loop of [changeSolarSystemScale]
    over [planets]: a ring that is in the table has its two radii
    multiplied by [scaling]. *)
Definition scaledRingRadii (scaling : R) (planets : PlanetArray) (d : Data)
  : R * R * R * R :=
  let s := if bool_decide (is_Some (planets !! SaturnRing)) then scaling else 1 in
  let u := if bool_decide (is_Some (planets !! UranusRing)) then scaling else 1 in
  (saturnRingInnerRadius d * s, saturnRingOuterRadius d * s,
   uranusRingInnerRadius d * u, uranusRingOuterRadius d * u).

(** A scene: the Sun, the Earth, Saturn and Saturn's ring. *)
Definition sampleScene : PlanetArray :=
  <[Sun := Some sampleVisual]>
    (<[Earth := Some sampleVisual]>
      (<[Saturn := Some (SolarObject3D.mk 7 8 9 30 2 4)]>
        (<[SaturnRing := Some sampleVisual]> ∅))).

Definition sampleSceneData : Data := setPlanetsContainer (Some sampleScene) sampleData.

(** Two tables hold the same identifiers. *)
Definition same_keys (P Q : PlanetArray) : Prop :=
  forall j, is_Some (P !! j) <-> is_Some (Q !! j).

(** The scale state of [Data]: effective scale, focused flag, floor and
    persistent scale. *)
Definition scaleState (d : Data) : R * bool * Z * R :=
  (planetScale d, focusedScaling d, focusedMinimumScale d, actualScale d).

(** ** The orbit solver in closed form *)

(** The eccentric anomaly of the description: one step from the mean
    anomaly, [E = M + e·sin(M)·(1 + e·cos(M))]. *)
Definition spec_eccentricAnomaly (M e : R) : R :=
  M + e * sin M * (1 + e * cos M).

(** The offset from the centre of orbit that [solarObjectPosition] derives
    from the elements [N], [i], [w] (radians), [a], [e] and an eccentric
    anomaly [E], before the unit scale is applied: [(xh, yh, zh)]. *)
Definition orbitOffset (N iPlanet w a e E : R) : R * R * R :=
  let xv := a * (cos E - e) in
  let yv := a * (sqrt (1 - e * e) * sin E) in
  let v := atan2 yv xv in
  let r := sqrt (xv * xv + yv * yv) in
  (r * (cos N * cos (v + w) - sin N * sin (v + w) * cos iPlanet),
   r * (sin (w + v) * sin iPlanet),
   - r * (sin N * cos (v + w) + cos N * sin (v + w) * cos iPlanet)).

(** An element at the elapsed days [t]: base value plus drift. *)
Definition elementAt (base drift t : R) : R := base + drift * t.

(** The offset of [solarObj] at the elapsed days [t], with the eccentric
    anomaly [E] left open. *)
Definition offsetAt (solarObj : SolarObject.t) (t E : R) : R * R * R :=
  orbitOffset
    (elementAt (SolarObject.N1 solarObj) (SolarObject.N2 solarObj) t * PI / 180)
    (elementAt (SolarObject.i1 solarObj) (SolarObject.i2 solarObj) t * PI / 180)
    (elementAt (SolarObject.w1 solarObj) (SolarObject.w2 solarObj) t * PI / 180)
    (elementAt (SolarObject.a1 solarObj) (SolarObject.a2 solarObj) t)
    (elementAt (SolarObject.e1 solarObj) (SolarObject.e2 solarObj) t)
    E.

(** The position of a record, and the distance of two positions. *)
Definition positionOf (o : SolarObject.t) : R * R * R :=
  (SolarObject.x o, SolarObject.y o, SolarObject.z o).

Definition distance (p q : R * R * R) : R :=
  let '(px, py, pz) := p in
  let '(qx, qy, qz) := q in
  sqrt ((px - qx) * (px - qx) + (py - qy) * (py - qy) + (pz - qz) * (pz - qz)).

(** The roll [solarObjectPosition] leaves in a record. *)
Definition advancedRoll (d : Data) (solarObj : SolarObject.t) : R :=
  SolarObject.roll solarObj + deltaTimeD d / SolarObject.period solarObj * 360.

(** The table after the last step of [solarObjectPosition]: the visual
    body of [object], if it is live, takes the position and roll of the
    record. *)
Definition synced (planets : PlanetArray) (object : SolarObjects)
    (solarObj : SolarObject.t) : PlanetArray :=
  match planets !! object with
  | Some (Some vis) =>
      <[object := Some (SolarObject3D.mk
                          (SolarObject.x solarObj) (SolarObject.y solarObj)
                          (SolarObject.z solarObj) (SolarObject.roll solarObj)
                          (SolarObject3D.tilt vis) (SolarObject3D.r vis))]> planets
  | Some None => planets
  | None => <[object := None]> planets
  end.

(** [object] has no live visual body in the scene of [d]. *)
Definition no_live_visual (d : Data) (object : SolarObjects) : Prop :=
  exists planets : PlanetArray,
    container d = Some planets /\
    (planets !! object = None \/ planets !! object = Some None).

(** The data of the sample with an empty scene. *)
Definition sampleEmptySceneData : Data := setPlanetsContainer (Some ∅) sampleData.


(** ** The remaining member functions *)

(** [QVector3D], with the operations the engine uses.  [normalized] of the
    null vector is the null vector. *)
Module QVector3D.
Record t : Set := mk { xp : R; yp : R; zp : R }.

Definition plus (u v : t) : t := mk (xp u + xp v) (yp u + yp v) (zp u + zp v).
Definition minus (u v : t) : t := mk (xp u - xp v) (yp u - yp v) (zp u - zp v).
Definition times (v : t) (factor : R) : t :=
  mk (xp v * factor) (yp v * factor) (zp v * factor).
Definition length (v : t) : R := sqrt (xp v * xp v + yp v * yp v + zp v * zp v).
Definition normalized (v : t) : t :=
  if Req_dec_T (length v) 0 then mk 0 0 0
  else mk (xp v / length v) (yp v / length v) (zp v / length v).
End QVector3D.

(** [Qt3DRender::QCamera], as far as the engine uses it: the position it
    reads and the view centre it writes. *)
Module QCamera.
Record t : Set := mk { position : QVector3D.t; viewCenter : QVector3D.t }.

Definition setViewCenter (v : QVector3D.t) (c : t) : t := mk (position c) v.
End QCamera.

Section Views.

Variable parseSolarObjectRadius : SolarObjects -> R.   (* SolarParser *)
Variable auScale : R.                                  (* SolarValues *)
Variable solarDistance : R.                            (* SolarValues *)
Variable saturnOuterRadius uranusOuterRadius : R.      (* SolarValues *)
(** [SolarObjectsValues::<Body>::radius]. *)
Variable valuesRadius : SolarObjects -> R.
(** [PlanetsContainer::planetsNumber()]. *)
Variable planetsNumber : PlanetArray -> Z.
(** The enumerator of an integer, [(SolarObjects)i]. *)
Variable objectOfIndex : Z -> SolarObjects.

(** [getOuterRadius(object)]. *)
Definition getOuterRadius (object : SolarObjects) : R :=
  let outerRadius := solarDistance in
  match object with
  | Mercury => outerRadius + valuesRadius Mercury
  | Venus => outerRadius + valuesRadius Venus
  | Earth => outerRadius + valuesRadius Earth
  | Mars => outerRadius + valuesRadius Mars
  | Jupiter => outerRadius + valuesRadius Jupiter
  | Neptune => outerRadius + valuesRadius Neptune
  | Saturn => outerRadius + (valuesRadius Saturn + saturnOuterRadius)
  | Uranus => outerRadius + (valuesRadius Uranus + uranusOuterRadius)
  | Moon => outerRadius + valuesRadius Moon
  | Pluto => outerRadius + valuesRadius Pluto
  | Sun => valuesRadius Sun / 100
  | _ => outerRadius
  end.

(** [updateSolarView(object)].  The camera pointer of [Data] is threaded
    beside it. *)
Definition updateSolarView (object : SolarObjects)
    (camera : option QCamera.t) (d : Data)
  : option (option QCamera.t * Data) :=
  planets ← container d;
  let '(solarObj, planets) :=
    if bool_decide (object ≠ SolarSystemView)
    then planets_index planets object
    else planets_index planets Sun in
  let d := set_container (Some planets) d in
  match solarObj with
  | Some solarObj =>
      camera ← camera;
      Some (Some (QCamera.setViewCenter
                    (QVector3D.mk (SolarObject3D.x solarObj)
                       (SolarObject3D.y solarObj) (SolarObject3D.z solarObj))
                    camera), d)
  | None => Some (camera, d)
  end.

(** [viewPositionOfObject(object)]: the returned position, and [Data] with
    the table as the lookup leaves it. *)
Definition viewPositionOfObject (object : SolarObjects)
    (camera : option QCamera.t) (d : Data) : option (QVector3D.t * Data) :=
  planets ← container d;
  let '(solarObj, planets) := planets_index planets object in
  let d := set_container (Some planets) d in
  let pos := QVector3D.mk 0 0 0 in
  match solarObj with
  | Some solarObj =>
      let solarObjPos :=
        QVector3D.mk (SolarObject3D.x solarObj) (SolarObject3D.y solarObj)
          (SolarObject3D.z solarObj) in
      camera ← camera;
      (* vector on object *)
      let onTarget := QVector3D.minus solarObjPos (QCamera.position camera) in
      (* get dist *)
      let dist := QVector3D.length onTarget in
      (* calculate need dist to camera *)
      limit ← calculateZoomLimit_of parseSolarObjectRadius object d;
      let needDist := dist - limit in
      let needDist := if Rleb needDist 0 then limit - dist else needDist in
      (* get position *)
      let onTargetLimit := QVector3D.times (QVector3D.normalized onTarget) needDist in
      (* get need cam pos *)
      Some (QVector3D.plus onTargetLimit (QCamera.position camera), d)
  | None => Some (pos, d)
  end.

(** [calculateAllSolarObjectsPosiitons()]. *)
Definition calculateAllSolarObjectsPosiitons (d : Data) : option Data :=
  planets ← container d;
  let updateCount := planetsNumber planets in
  foldl (fun acc i =>
           d ← acc; solarObjectPosition auScale (objectOfIndex (Z.of_nat i)) d)
        (Some d) (seq 0 (Z.to_nat updateCount)).

End Views.

(** ** More predicates used by the statements *)

(** Every registered body other than the Sun has its centre of orbit
    registered. *)
Definition closed_registry (sc : SolarObjectsContainer) : Prop :=
  forall k o, sc !! k = Some o ->
    k = Sun \/ is_Some (sc !! SolarObject.centerOfOrbit o).

(** The visual body [changeSolarSystemScale] leaves under the key [k]:
    the radius of the Sun, a planet or the Moon is set from the parsed
    radius, every other body is kept. *)
Definition scaledVisual (parse : SolarObjects -> R) (scaling : R)
    (k : SolarObjects) (vis : SolarObject3D.t) : SolarObject3D.t :=
  match k with
  | Sun => SolarObject3D.setR (parse k * scaling / 80) vis
  | Mercury | Venus | Earth | Mars | Jupiter | Saturn | Uranus | Neptune
  | Pluto | Moon => SolarObject3D.setR (parse k * scaling) vis
  | _ => vis
  end.

(** The key [k] names the Sun, a planet or the Moon: the bodies whose
    visual [changeSolarSystemScale] dereferences. *)
Definition scaled_body (k : SolarObjects) : bool :=
  match k with
  | Sun | Mercury | Venus | Earth | Mars | Jupiter | Saturn | Uranus
  | Neptune | Pluto | Moon => true
  | _ => false
  end.

(** The position of a visual body as a vector. *)
Definition visualPosition (vis : SolarObject3D.t) : QVector3D.t :=
  QVector3D.mk (SolarObject3D.x vis) (SolarObject3D.y vis) (SolarObject3D.z vis).

(** A camera of the sample. *)
Definition sampleCamera : QCamera.t :=
  QCamera.mk (QVector3D.mk 1 2 13) (QVector3D.mk 0 0 0).

(** A record moved to a position and given a roll: its elements, period,
    radius and centre of orbit are kept. *)
Definition movedTo (solarObj : SolarObject.t) (x y z roll : R) : SolarObject.t :=
  SolarObject.setRoll roll
    (SolarObject.setZ z (SolarObject.setY y (SolarObject.setX x solarObj))).

(** [n] calls of [solarObjectPosition] for the same body in a row. *)
Definition solarObjectPosition_times (auScale : R) (object : SolarObjects)
    (n : nat) (d : Data) : option Data :=
  Nat.iter n (fun acc => d ← acc; solarObjectPosition auScale object d) (Some d).

(** The sample scene with an eccentric Mars and a Moon of the Earth in the
    registry. *)
Definition sampleMars : SolarObject.t := sampleObject Sun 2 (1 / 2) 90 3.
Definition sampleMoon : SolarObject.t := sampleObject Earth 1 0 0 4.

Definition sampleEccentricData : Data :=
  set_solarContainer
    (<[Mars := sampleMars]> (<[Moon := sampleMoon]> sampleContainer))
    sampleSceneData.

(** ** The clock in closed form *)

Section Clock.

Variable calculateTimeScale : Z -> Z -> Z -> R.
Variable calculateUT : Z -> Z -> R -> R.
Variable dateOf : QDateTime -> QDate.t.
Variable timeOf : QDateTime -> QTime.t.

(** The elapsed days the engine derives from a timestamp. *)
Definition elapsedDaysOf (t : QDateTime) : R :=
  calculateTimeScale (QDate.year (dateOf t)) (QDate.month (dateOf t))
    (QDate.day (dateOf t))
  + calculateUT (QTime.hour (timeOf t)) (QTime.minute (timeOf t))
      (IZR (QTime.second (timeOf t))).

(** The elapsed days of [Data] are the ones of its timestamp. *)
Definition clock_in_sync (d : Data) : Prop :=
  currentTimeD d = elapsedDaysOf (solarTime d).

(** The milliseconds [advanceTime] adds when the frame's days-per-frame
    is [dpf]. *)
Definition frameMSecs (dpf : R) (d : Data) : Z :=
  truncate (deltaTime d * 1000 * dpf * ultraSpeed d).

End Clock.

(** The fields [advanceTime] does not write. *)
Definition outsideClock (d : Data)
  : R * R * (R * bool * Z * R) * (R * R * R) * (R * R * R * R) * R
    * SolarObjectsContainer * option PlanetArray * option CameraController.t :=
  (deltaTime d, daysPerFrameScale d, scaleState d,
   (ultraSpeed d, ultraSpeedStep d, ultraSpeedMax d), ringRadii d,
   earthCloudRModifier d, solarContainer d, container d, cameraController d).

(** The fields [changeSolarSystemScale] does not write: the clock, the
    speed settings, the registry and the controller. *)
Definition outsideScale (d : Data)
  : (Z * Z * Z * Z * Z * R) * QDateTime * (R * R * R * R) * (R * R * R)
    * (R * R * R) * R * SolarObjectsContainer * option CameraController.t :=
  ((year d, month d, day d, hours d, minutes d, seconds d), solarTime d,
   (startD d, oldTimeD d, currentTimeD d, deltaTimeD d),
   (deltaTime d, daysPerFrame d, daysPerFrameScale d),
   (ultraSpeed d, ultraSpeedStep d, ultraSpeedMax d),
   earthCloudRModifier d, solarContainer d, cameraController d).

(** The bodies whose zoom limit [calculateZoomLimit] leaves at the base
    value. *)
Definition uncorrected_body (k : SolarObjects) : bool :=
  match k with
  | Venus | Earth | Mars | Saturn | Uranus | Neptune | Moon => true
  | _ => false
  end.

(** One step of the burst multiplier on its value. *)
Definition nextBurst (u : R) : R := if Rleb (u * 2) 64 then u * 2 else 1.

(** The fields [solarObjectPosition] does not write: everything but the
    registry and the scene. *)
Definition outsideBodies (d : Data)
  : (Z * Z * Z * Z * Z * R) * QDateTime * (R * R * R * R) * (R * R * R)
    * (R * bool * Z * R) * (R * R * R) * (R * R * R * R) * R
    * option CameraController.t :=
  ((year d, month d, day d, hours d, minutes d, seconds d), solarTime d,
   (startD d, oldTimeD d, currentTimeD d, deltaTimeD d),
   (deltaTime d, daysPerFrame d, daysPerFrameScale d), scaleState d,
   (ultraSpeed d, ultraSpeedStep d, ultraSpeedMax d), ringRadii d,
   earthCloudRModifier d, cameraController d).

(** An assignment of enumerators to integers, in the order of the
    declaration of [SolarObjects] above. *)
Definition SolarObjects_decode_Z (i : Z) : SolarObjects :=
  SolarObjects_decode (Z.to_nat i).

(** What a run of calls keeps: a planets container, a closed registry with
    the same identifiers, and the fields outside registry and scene. *)
Definition solve_invariant (d0 d : Data) : Prop :=
  is_Some (container d) /\
  closed_registry (solarContainer d) /\
  (forall k, is_Some (solarContainer d !! k) <-> is_Some (solarContainer d0 !! k)) /\
  outsideBodies d = outsideBodies d0.

(** A clock for the sample: the timestamp counts milliseconds from
    midnight of a fixed day, and the elapsed days are the time of day as a
    fraction of a day. *)
Definition sampleDateOf (_ : QDateTime) : QDate.t := QDate.mk 2000 1 1.

Definition sampleTimeOf (t : QDateTime) : QTime.t :=
  QTime.mk (t / 3600000) ((t / 60000) mod 60) ((t / 1000) mod 60).

Definition sampleTimeScale (_ _ _ : Z) : R := 0.

Definition sampleUT (h m : Z) (s : R) : R := (IZR h + IZR m / 60 + s / 3600) / 24.

(** The sample at the timestamp 7000 ms, in step with its elapsed days,
    with a speed scale of 1 and the frame time [dt] seconds. *)
Definition sampleClockData (dt : R) : Data :=
  set_solarTime 7000%Z
    (set_currentTimeD (7 / 3600 / 24)
       (setDeltaTime dt (setSolarSystemSpeed 1 sampleData))).

(** The pair (dependent, parent) is sound in the table: when both keys
    are in the table, neither holds a null pointer.  A pair with a key
    missing is sound whatever the other key holds. *)
Definition pair_sound (planets : PlanetArray) (dep parent : SolarObjects) : Prop :=
  is_Some (planets !! dep) -> is_Some (planets !! parent) ->
  planets !! dep <> Some None /\ planets !! parent <> Some None.

(** The sample scene after an absent Uranus was looked up: its key holds
    a null pointer, and its ring is not in the scene. *)
Definition samplePartialScene : PlanetArray := <[Uranus := None]> sampleScene.

Definition samplePartialSceneData : Data :=
  setPlanetsContainer (Some samplePartialScene) sampleData.

(** The sample scene with a null pointer under the key of Saturn, the
    ring being live. *)
Definition sampleBrokenSceneData : Data :=
  setPlanetsContainer (Some (<[Saturn := None]> sampleScene)) sampleData.

(** * Properties *)

(** ** Burst speed *)

Section BurstSpeed.

Lemma changeExtraSpeed_constants d :
  ultraSpeedStep (changeExtraSpeed d) = ultraSpeedStep d /\
  ultraSpeedMax (changeExtraSpeed d) = ultraSpeedMax d.
Proof. unfold changeExtraSpeed. destruct (Rleb _ _); split; reflexivity. Qed.

Lemma changeExtraSpeed_double d u :
  burst_constants d -> ultraSpeed d = u -> u * 2 <= 64 ->
  ultraSpeed (changeExtraSpeed d) = u * 2.
Proof.
  intros [Hs Hm] Hu Hle. unfold changeExtraSpeed, Rleb.
  rewrite Hs, Hm, Hu. destruct (Rle_dec _ _); [reflexivity | contradiction].
Qed.

Lemma changeExtraSpeed_wrap d u :
  burst_constants d -> ultraSpeed d = u -> 64 < u * 2 ->
  ultraSpeed (changeExtraSpeed d) = 1.
Proof.
  intros [Hs Hm] Hu Hlt. unfold changeExtraSpeed, Rleb.
  rewrite Hs, Hm, Hu. destruct (Rle_dec _ _); [lra | reflexivity].
Qed.

Lemma changeExtraSpeed_burst_constants d :
  burst_constants d -> burst_constants (changeExtraSpeed d).
Proof.
  unfold burst_constants. destruct (changeExtraSpeed_constants d) as [-> ->].
  trivial.
Qed.

Lemma iter_changeExtraSpeed_constants n d :
  burst_constants d -> burst_constants (Nat.iter n changeExtraSpeed d).
Proof.
  intros H. induction n as [|n IH]; [exact H|].
  cbn [Nat.iter nat_rect]. now apply changeExtraSpeed_burst_constants.
Qed.

(** C2: from a burst multiplier of 1 (step 2, ceiling 64), seven
    successive calls of [changeExtraSpeed] give the multipliers
    2, 4, 8, 16, 32, 64 and then 1: a call doubles the multiplier when the
    doubled value does not exceed 64, and sets it to 1 otherwise. *)
Theorem changeExtraSpeed_seven_calls :
  (forall d : Data,
      ultraSpeed d = 1 -> ultraSpeedStep d = 2 -> ultraSpeedMax d = 64 ->
      map (fun n => extraSpeed (Nat.iter n changeExtraSpeed d))
          [1; 2; 3; 4; 5; 6; 7]%nat
      = [2; 4; 8; 16; 32; 64; 1]) /\
  (forall d : Data,
      ultraSpeedStep d = 2 -> ultraSpeedMax d = 64 ->
      (ultraSpeed d * 2 <= 64 ->
       extraSpeed (changeExtraSpeed d) = ultraSpeed d * 2) /\
      (64 < ultraSpeed d * 2 -> extraSpeed (changeExtraSpeed d) = 1)).
Proof.
  split; [|intros d Hs Hm; split; intros H;
           [apply changeExtraSpeed_double | apply (changeExtraSpeed_wrap d (ultraSpeed d))];
           (split; assumption) || trivial].
  intros d Hu Hs Hm.
  assert (Hc : burst_constants d) by (split; assumption).
  pose proof (fun n => iter_changeExtraSpeed_constants n d Hc) as Hcs.
  unfold extraSpeed.
  assert (H1 : ultraSpeed (Nat.iter 1 changeExtraSpeed d) = 2).
  { cbn [Nat.iter nat_rect].
    rewrite (changeExtraSpeed_double d 1) by (trivial; lra). lra. }
  assert (H2 : ultraSpeed (Nat.iter 2 changeExtraSpeed d) = 4).
  { change (Nat.iter 2 changeExtraSpeed d)
      with (changeExtraSpeed (Nat.iter 1 changeExtraSpeed d)).
    rewrite (changeExtraSpeed_double _ 2) by (auto; lra). lra. }
  assert (H3 : ultraSpeed (Nat.iter 3 changeExtraSpeed d) = 8).
  { change (Nat.iter 3 changeExtraSpeed d)
      with (changeExtraSpeed (Nat.iter 2 changeExtraSpeed d)).
    rewrite (changeExtraSpeed_double _ 4) by (auto; lra). lra. }
  assert (H4 : ultraSpeed (Nat.iter 4 changeExtraSpeed d) = 16).
  { change (Nat.iter 4 changeExtraSpeed d)
      with (changeExtraSpeed (Nat.iter 3 changeExtraSpeed d)).
    rewrite (changeExtraSpeed_double _ 8) by (auto; lra). lra. }
  assert (H5 : ultraSpeed (Nat.iter 5 changeExtraSpeed d) = 32).
  { change (Nat.iter 5 changeExtraSpeed d)
      with (changeExtraSpeed (Nat.iter 4 changeExtraSpeed d)).
    rewrite (changeExtraSpeed_double _ 16) by (auto; lra). lra. }
  assert (H6 : ultraSpeed (Nat.iter 6 changeExtraSpeed d) = 64).
  { change (Nat.iter 6 changeExtraSpeed d)
      with (changeExtraSpeed (Nat.iter 5 changeExtraSpeed d)).
    rewrite (changeExtraSpeed_double _ 32) by (auto; lra). lra. }
  assert (H7 : ultraSpeed (Nat.iter 7 changeExtraSpeed d) = 1).
  { change (Nat.iter 7 changeExtraSpeed d)
      with (changeExtraSpeed (Nat.iter 6 changeExtraSpeed d)).
    apply (changeExtraSpeed_wrap _ 64); auto; lra. }
  cbn [map]. rewrite H1, H2, H3, H4, H5, H6, H7. reflexivity.
Qed.

Lemma speedCall_burst_constants c d :
  burst_constants d -> burst_constants (speedCall c d).
Proof.
  destruct c; cbn [speedCall].
  - apply changeExtraSpeed_burst_constants.
  - trivial.
Qed.

(** One call keeps the multiplier among the powers of two up to 2^6. *)
Lemma speedCall_power_of_two c d :
  burst_constants d ->
  (exists k, (k <= 6)%nat /\ ultraSpeed d = 2 ^ k) ->
  exists k, (k <= 6)%nat /\ ultraSpeed (speedCall c d) = 2 ^ k.
Proof.
  intros Hc (k & Hk & Hu). destruct c; cbn [speedCall].
  - destruct (Nat.eq_dec k 6%nat) as [-> | Hne].
    + exists 0%nat. split; [lia|].
      apply (changeExtraSpeed_wrap d (2 ^ 6)); trivial. lra.
    + exists (S k). split; [lia|].
      rewrite (changeExtraSpeed_double d (2 ^ k)); trivial.
      * cbn [pow]. lra.
      * assert (Hk5 : (k <= 5)%nat) by lia.
        assert (H : 2 ^ k <= 2 ^ 5) by (apply Rle_pow; [lra | exact Hk5]).
        lra.
  - exists 0%nat. split; [lia | reflexivity].
Qed.

Lemma speedCalls_power_of_two cs : forall d,
  burst_constants d ->
  (exists k, (k <= 6)%nat /\ ultraSpeed d = 2 ^ k) ->
  exists k, (k <= 6)%nat /\ ultraSpeed (speedCalls cs d) = 2 ^ k.
Proof.
  induction cs as [|c cs IH]; intros d Hc Hu; [exact Hu|].
  apply (IH (speedCall c d)).
  - now apply speedCall_burst_constants.
  - now apply speedCall_power_of_two.
Qed.

(** C10: the burst multiplier is 1 in a freshly constructed [Data], and
    after any run of [changeExtraSpeed] and [resetExtraSpeed] calls it is
    a power of two between [2^0 = 1] and [2^6 = 64]. *)
Theorem ultraSpeed_power_of_two
    (calculateTimeScale : Z -> Z -> Z -> R) (calculateUT : Z -> Z -> R -> R)
    (SolarValues_year SolarValues_month SolarValues_day : Z)
    (saturnOuterRadius uranusOuterRadius : R)
    (mkDateTime : QDate.t -> QTime.t -> QDateTime)
    (sc : SolarObjectsContainer) (planetScale0 actualScale0 : R) (d0 : Data) :
  newData calculateTimeScale calculateUT SolarValues_year SolarValues_month
    SolarValues_day saturnOuterRadius uranusOuterRadius mkDateTime
    sc planetScale0 actualScale0 = Some d0 ->
  ultraSpeed d0 = 1 /\
  forall cs : list SpeedCall,
    exists k : nat, (k <= 6)%nat /\ ultraSpeed (speedCalls cs d0) = 2 ^ k.
Proof.
  unfold newData. intros Hnew.
  destruct (sc !! Saturn) as [saturn|]; [|discriminate].
  destruct (sc !! Uranus) as [uranus|]; [|discriminate].
  cbn in Hnew. injection Hnew as <-. split; [reflexivity|].
  intros cs. apply speedCalls_power_of_two.
  - split; reflexivity.
  - exists 0%nat. split; [lia | reflexivity].
Qed.

End BurstSpeed.

Lemma changeExtraSpeed_seven_calls_witness :
  map (fun n => extraSpeed (Nat.iter n changeExtraSpeed sampleData))
      [1; 2; 3; 4; 5; 6; 7]%nat
  = [2; 4; 8; 16; 32; 64; 1].
Proof. apply (proj1 changeExtraSpeed_seven_calls sampleData); reflexivity. Defined.

Lemma ultraSpeed_power_of_two_witness :
  exists d0 : Data,
    newData (fun _ _ _ => 0) (fun _ _ _ => 0) 2000 1 1 8 3
      (fun _ _ => 0%Z) sampleContainer 1 1 = Some d0 /\
    ultraSpeed d0 = 1 /\
    forall cs : list SpeedCall,
      exists k : nat, (k <= 6)%nat /\ ultraSpeed (speedCalls cs d0) = 2 ^ k.
Proof.
  eexists. split; [reflexivity|].
  apply (ultraSpeed_power_of_two (fun _ _ _ => 0) (fun _ _ _ => 0) 2000 1 1 8 3
           (fun _ _ => 0%Z) sampleContainer 1 1).
  reflexivity.
Defined.

(** ** Visual scale *)

Section Scale.

Lemma Rleb_true a b : a <= b -> Rleb a b = true.
Proof. intros H. unfold Rleb. destruct (Rle_dec a b); [reflexivity | contradiction]. Qed.

Lemma Rleb_false a b : b < a -> Rleb a b = false.
Proof. intros H. unfold Rleb. destruct (Rle_dec a b); [lra | reflexivity]. Qed.

Lemma Rleb_le a b : Rleb a b = true <-> a <= b.
Proof. unfold Rleb. destruct (Rle_dec a b); split; (trivial || discriminate || contradiction). Qed.

(** What [setSolarObjectsScale] leaves alone. *)
Lemma setSolarObjectsScale_frame scale focused d :
  focusedMinimumScale (setSolarObjectsScale scale focused d) = focusedMinimumScale d /\
  focusedScaling (setSolarObjectsScale scale focused d) = focusedScaling d /\
  container (setSolarObjectsScale scale focused d) = container d /\
  saturnRingInnerRadius (setSolarObjectsScale scale focused d) = saturnRingInnerRadius d /\
  saturnRingOuterRadius (setSolarObjectsScale scale focused d) = saturnRingOuterRadius d /\
  uranusRingInnerRadius (setSolarObjectsScale scale focused d) = uranusRingInnerRadius d /\
  uranusRingOuterRadius (setSolarObjectsScale scale focused d) = uranusRingOuterRadius d.
Proof.
  unfold setSolarObjectsScale.
  destruct focused; cbn [negb];
    match goal with |- context [if ?c then _ else _] => destruct c end;
    repeat split.
Qed.

(** The persistent scale after a call. *)
Lemma setSolarObjectsScale_actualScale scale focused d :
  actualScale (setSolarObjectsScale scale focused d)
  = if focused then actualScale d else scale.
Proof.
  unfold setSolarObjectsScale.
  destruct focused; cbn [negb];
    match goal with |- context [if ?c then _ else _] => destruct c end;
    reflexivity.
Qed.

(** The effective scale after a call. *)
Lemma setSolarObjectsScale_planetScale scale focused d :
  planetScale (setSolarObjectsScale scale focused d)
  = if (focusedScaling d || focused) && Rleb scale (IZR (focusedMinimumScale d))
    then IZR (focusedMinimumScale d)
    else actualScale (setSolarObjectsScale scale focused d).
Proof.
  unfold setSolarObjectsScale.
  destruct focused; cbn [negb];
    change (focusedMinimumScale (set_actualScale scale d)) with (focusedMinimumScale d);
    change (focusedScaling (set_actualScale scale d)) with (focusedScaling d);
    destruct (Rleb scale (IZR (focusedMinimumScale d)));
    destruct (focusedScaling d); reflexivity.
Qed.

(** C3: a persistent request [x] followed by a focused request [y] at or
    below the floor leaves the effective scale on the floor (and the
    persistent scale on [x]).  In general the effective scale after
    [setSolarObjectsScale scale focused] is the floor when the focused
    flag or the focused request holds and [scale] is at most the floor,
    and the persistent scale in every other case. *)
Theorem setSolarObjectsScale_focused_floor :
  (forall (x y : R) (d : Data),
      y <= IZR (focusedMinimumScale d) ->
      let d' := setSolarObjectsScale y true (setSolarObjectsScale x false d) in
      planetScale d' = IZR (focusedMinimumScale d) /\ actualScale d' = x) /\
  (forall (scale : R) (focused : bool) (d : Data),
      let d' := setSolarObjectsScale scale focused d in
      actualScale d' = (if focused then actualScale d else scale) /\
      ((focusedScaling d = true \/ focused = true) /\
         scale <= IZR (focusedMinimumScale d) ->
       planetScale d' = IZR (focusedMinimumScale d)) /\
      (~ ((focusedScaling d = true \/ focused = true) /\
            scale <= IZR (focusedMinimumScale d)) ->
       planetScale d' = actualScale d')).
Proof.
  split.
  - intros x y d Hy d'. subst d'.
    rewrite setSolarObjectsScale_planetScale.
    rewrite !setSolarObjectsScale_actualScale.
    destruct (setSolarObjectsScale_frame x false d) as (-> & _).
    rewrite (Rleb_true _ _ Hy), orb_true_r. split; reflexivity.
  - intros scale focused d d'. subst d'.
    rewrite setSolarObjectsScale_planetScale.
    split; [apply setSolarObjectsScale_actualScale|]. split.
    + intros [Hf Hle]. rewrite (Rleb_true _ _ Hle), andb_true_r.
      destruct Hf as [-> | ->]; [reflexivity | now rewrite orb_true_r].
    + intros Hn.
      destruct ((focusedScaling d || focused) && Rleb scale (IZR (focusedMinimumScale d)))
        eqn:Hc; [|reflexivity].
      exfalso. apply Hn. apply andb_prop in Hc as [Hf Hle].
      split; [|now apply Rleb_le].
      destruct (focusedScaling d); [now left | right; exact Hf].
Qed.

Lemma no_null_insert_live (planets : PlanetArray) k v :
  no_null planets -> no_null (<[k := Some v]> planets).
Proof.
  intros Hnn j. destruct (decide (k = j)) as [<- | Hne].
  - rewrite lookup_insert_eq. discriminate.
  - rewrite lookup_insert_ne by exact Hne. apply Hnn.
Qed.

Lemma is_Some_insert_live (planets : PlanetArray) k v j :
  is_Some (<[k := Some v]> planets !! j) <-> is_Some (planets !! j) \/ j = k.
Proof.
  destruct (decide (k = j)) as [<- | Hne].
  - rewrite lookup_insert_eq. split; eauto.
  - rewrite lookup_insert_ne by exact Hne. split; [now left|].
    intros [H | ->]; [exact H | contradiction].
Qed.

(** One visit of the loop of [changeSolarSystemScale] at a live body. *)
Lemma changeSolarSystemScale_body_live parse scaling k vis d (P : PlanetArray) :
  container d = Some P -> no_null P ->
  exists d' (P' : PlanetArray),
    changeSolarSystemScale_body parse scaling k (Some vis) (Some d) = Some d' /\
    (container d' = Some P' /\ no_null P' /\
     forall j, is_Some (P' !! j) <-> is_Some (P !! j) \/ (j = k /\ P' <> P)) /\
    scaleState d' = scaleState d /\
    ringRadii d'
    = (saturnRingInnerRadius d * (if bool_decide (k = SaturnRing) then scaling else 1),
       saturnRingOuterRadius d * (if bool_decide (k = SaturnRing) then scaling else 1),
       uranusRingInnerRadius d * (if bool_decide (k = UranusRing) then scaling else 1),
       uranusRingOuterRadius d * (if bool_decide (k = UranusRing) then scaling else 1)).
Proof.
  intros Hc Hnn. unfold changeSolarSystemScale_body, ringRadii.
  assert (Hsame : forall j, is_Some (P !! j) <-> is_Some (P !! j) \/ (j = k /\ P <> P)).
  { intros j. split; [now left | intros [H | [_ H]]; [exact H | contradiction]]. }
  assert (Hins : forall v j,
             is_Some (<[k := Some v]> P !! j)
             <-> is_Some (P !! j) \/ (j = k /\ <[k := Some v]> P <> P)).
  { intros v j. rewrite is_Some_insert_live. split.
    - intros [H | ->]; [now left|].
      destruct (P !! k) as [p|] eqn:Hk; [left; eauto | right].
      split; [reflexivity|]. intros Heq.
      assert (H : <[k := Some v]> P !! k = None) by (rewrite Heq; exact Hk).
      rewrite lookup_insert_eq in H. discriminate.
    - intros [H | [-> _]]; [now left | now right]. }
  destruct k; cbn [mbind option_bind]; rewrite ?Hc; cbn [mbind option_bind];
    (eexists; eexists; split; [reflexivity|]);
    (split;
     [ first [ split; [exact Hc | split; [exact Hnn | exact Hsame]]
             | split; [reflexivity
                      | split; [apply no_null_insert_live; exact Hnn | apply Hins]] ]
     | ]);
    (split; [reflexivity|]);
    repeat match goal with
      | |- context [bool_decide (?a = ?b)] =>
          first [ rewrite (bool_decide_eq_false_2 (a = b)) by discriminate
                | rewrite (bool_decide_eq_true_2 (a = b)) by reflexivity ]
      end;
    cbn; repeat f_equal; lra.
Qed.

(** The loop of [changeSolarSystemScale] over a table of live bodies
    returns, keeps the effective scale and the identifiers of the scene,
    and multiplies the radii of each ring of the table by [scaling],
    once. *)
Lemma changeSolarSystemScale_loop parse scaling d (P planets : PlanetArray) :
  container d = Some P -> no_null P -> no_null planets ->
  exists d' (P' : PlanetArray),
    map_fold (changeSolarSystemScale_body parse scaling) (Some d) planets = Some d' /\
    (container d' = Some P' /\ no_null P' /\
     (forall j, is_Some (P !! j) -> is_Some (P' !! j)) /\
     (forall j, is_Some (P' !! j) -> is_Some (P !! j) \/ is_Some (planets !! j))) /\
    scaleState d' = scaleState d /\
    ringRadii d' = scaledRingRadii scaling planets d.
Proof.
  intros Hc HnnP.
  apply (map_fold_weak_ind
           (fun acc (m : PlanetArray) =>
              no_null m ->
              exists d' (P' : PlanetArray),
                acc = Some d' /\
                (container d' = Some P' /\ no_null P' /\
                 (forall j, is_Some (P !! j) -> is_Some (P' !! j)) /\
                 (forall j, is_Some (P' !! j) -> is_Some (P !! j) \/ is_Some (m !! j))) /\
                scaleState d' = scaleState d /\
                ringRadii d' = scaledRingRadii scaling m d)).
  - intros _. exists d, P. repeat split; auto.
    unfold ringRadii, scaledRingRadii. rewrite !lookup_empty.
    rewrite !bool_decide_eq_false_2 by (intros [? ?]; discriminate).
    repeat f_equal; lra.
  - intros k p m acc Hk IH Hnn.
    assert (Hnn' : no_null m).
    { intros j Hj. apply (Hnn j). rewrite lookup_insert_ne; [exact Hj|].
      intros ->. rewrite Hk in Hj. discriminate. }
    destruct (IH Hnn') as (d1 & P1 & -> & (Hc1 & Hnn1 & Hsub1 & Hsup1) & Hs1 & Hr1).
    destruct p as [vis|]; [|exfalso; apply (Hnn k); apply lookup_insert_eq].
    destruct (changeSolarSystemScale_body_live parse scaling k vis d1 P1 Hc1 Hnn1)
      as (d2 & P2 & Hd2 & (Hc2 & Hnn2 & Hkeys2) & Hs2 & Hr2).
    exists d2, P2. split; [exact Hd2|]. split; [|split; [congruence|]].
    { split; [exact Hc2|]. split; [exact Hnn2|]. split.
      - intros j Hj. apply Hkeys2. left. now apply Hsub1.
      - intros j Hj. apply Hkeys2 in Hj as [Hj | [-> _]].
        + destruct (Hsup1 j Hj) as [H | H]; [now left | right].
          destruct (decide (k = j)) as [<- | Hne];
            [rewrite lookup_insert_eq; eauto
            | now rewrite lookup_insert_ne by exact Hne].
        + right. rewrite lookup_insert_eq. eauto. }
    rewrite Hr2.
    unfold ringRadii, scaledRingRadii in Hr1 |- *.
    injection Hr1 as -> -> -> ->.
    assert (Hs : forall j, m !! j = None \/ k <> j ->
              (if bool_decide (is_Some (<[k:=Some vis]> m !! j)) then scaling else 1)
              = (if bool_decide (is_Some (m !! j)) then scaling else 1)
                * (if bool_decide (k = j) then scaling else 1)).
    { intros j Hj. destruct (decide (k = j)) as [<- | Hne].
      - rewrite lookup_insert_eq, Hk.
        rewrite (bool_decide_eq_true_2 (k = k)) by reflexivity.
        rewrite bool_decide_eq_true_2 by eauto.
        rewrite bool_decide_eq_false_2 by (intros [? ?]; discriminate). lra.
      - rewrite lookup_insert_ne by exact Hne.
        rewrite (bool_decide_eq_false_2 (k = j)) by exact Hne. lra. }
    assert (HsS := Hs SaturnRing). assert (HsU := Hs UranusRing).
    rewrite HsS, HsU.
    + repeat match goal with |- (_, _) = (_, _) => f_equal end; ring.
    + destruct (decide (k = UranusRing)) as [<- | ?]; [left; exact Hk | now right].
    + destruct (decide (k = SaturnRing)) as [<- | ?]; [left; exact Hk | now right].
Qed.

(** [changeSolarSystemScale] on a scene of live bodies: it returns, the
    scene keeps its identifiers and stays free of null pointers, the
    effective scale is the one [setSolarObjectsScale] chose, and each ring
    of the scene has its stored radii multiplied by that scale. *)
Lemma changeSolarSystemScale_rings parse scale focused d (planets : PlanetArray) :
  container d = Some planets -> no_null planets ->
  exists d' (planets' : PlanetArray),
    changeSolarSystemScale parse scale focused d = Some d' /\
    (container d' = Some planets' /\ no_null planets' /\ same_keys planets' planets) /\
    scaleState d' = scaleState (setSolarObjectsScale scale focused d) /\
    ringRadii d'
    = scaledRingRadii (planetScale (setSolarObjectsScale scale focused d)) planets d.
Proof.
  intros Hc Hnn. unfold changeSolarSystemScale.
  destruct (setSolarObjectsScale_frame scale focused d)
    as (_ & Hfs & Hc' & Hsi & Hso & Hui & Huo).
  rewrite Hc', Hc. cbn [mbind option_bind].
  destruct (changeSolarSystemScale_loop parse
              (planetScale (setSolarObjectsScale scale focused d))
              (setSolarObjectsScale scale focused d) planets planets)
    as (d' & P' & Hd' & (Hcd' & Hnn' & Hsub & Hsup) & Hs & Hr);
    [rewrite Hc', Hc; reflexivity | exact Hnn | exact Hnn |].
  exists d', P'. split; [exact Hd'|]. split; [|split; [exact Hs|]].
  - split; [exact Hcd'|]. split; [exact Hnn'|]. intros j. split; [|apply Hsub].
    intros Hj. destruct (Hsup j Hj); assumption.
  - rewrite Hr. unfold scaledRingRadii. now rewrite Hsi, Hso, Hui, Huo.
Qed.

(** The visits of two different keys commute. *)
Lemma changeSolarSystemScale_body_comm parse scaling k1 k2 p1 p2 acc :
  k1 <> k2 ->
  changeSolarSystemScale_body parse scaling k1 p1
    (changeSolarSystemScale_body parse scaling k2 p2 acc)
  = changeSolarSystemScale_body parse scaling k2 p2
      (changeSolarSystemScale_body parse scaling k1 p1 acc).
Proof.
  intros Hne. destruct acc as [d|]; [|reflexivity].
  destruct (container d) as [P|] eqn:Hc.
  - destruct k1, k2; try contradiction;
      destruct p1 as [v1|], p2 as [v2|];
      cbn [changeSolarSystemScale_body mbind option_bind];
      cbn [container set_container set_saturnRingOuterRadius
             set_saturnRingInnerRadius set_uranusRingInnerRadius
             set_uranusRingOuterRadius];
      rewrite ?Hc; cbn [mbind option_bind]; try reflexivity;
      unfold set_container; cbn; do 3 f_equal; apply insert_insert_ne; discriminate.
  - destruct k1, k2; try contradiction;
      destruct p1 as [v1|], p2 as [v2|];
      cbn [changeSolarSystemScale_body mbind option_bind];
      cbn [container set_container set_saturnRingOuterRadius
             set_saturnRingInnerRadius set_uranusRingInnerRadius
             set_uranusRingOuterRadius];
      rewrite ?Hc; reflexivity.
Qed.

(** The loop of [changeSolarSystemScale] gives the same result in every
    order of the entries of the table, the key order of the iteration
    among them. *)
Lemma changeSolarSystemScale_any_order parse scaling (planets : PlanetArray)
    (entries : list (SolarObjects * option SolarObject3D.t)) (d : Data) :
  entries ≡ₚ map_to_list planets ->
  foldr (uncurry (changeSolarSystemScale_body parse scaling)) (Some d) entries
  = map_fold (changeSolarSystemScale_body parse scaling) (Some d) planets.
Proof.
  intros Hperm. rewrite map_fold_foldr. symmetry.
  assert (Hcomm : forall j1 a1 j2 a2 acc,
             j1 <> j2 ->
             map_to_list planets !! j1 = Some a1 ->
             map_to_list planets !! j2 = Some a2 ->
             uncurry (changeSolarSystemScale_body parse scaling) a1
               (uncurry (changeSolarSystemScale_body parse scaling) a2 acc)
             = uncurry (changeSolarSystemScale_body parse scaling) a2
                 (uncurry (changeSolarSystemScale_body parse scaling) a1 acc)).
  { intros j1 [k1 p1] j2 [k2 p2] acc Hj H1 H2. cbn [uncurry].
    apply changeSolarSystemScale_body_comm. intros ->.
    pose proof (NoDup_fst_map_to_list planets) as Hnd.
    apply Hj. apply (NoDup_lookup _ j1 j2 k2 Hnd);
      rewrite list_lookup_fmap; [rewrite H1 | rewrite H2]; reflexivity. }
  assert (Hprop : forall a, Proper (eq ==> eq)
                    (uncurry (changeSolarSystemScale_body parse scaling) a))
    by (intros a ? ? ->; reflexivity).
  exact (foldr_permutation eq _ (Some d) (Hf := Hprop) _ _ Hcomm
           (symmetry Hperm)).
Qed.

Lemma no_null_empty : no_null ∅.
Proof. intros k. rewrite lookup_empty. discriminate. Qed.

Lemma no_null_sampleScene : no_null sampleScene.
Proof. unfold sampleScene. repeat apply no_null_insert_live. apply no_null_empty. Qed.

Lemma scaledRingRadii_same_keys scaling (P Q : PlanetArray) d :
  same_keys P Q -> scaledRingRadii scaling P d = scaledRingRadii scaling Q d.
Proof.
  intros H. unfold scaledRingRadii.
  now rewrite (bool_decide_ext _ _ (H SaturnRing)), (bool_decide_ext _ _ (H UranusRing)).
Qed.

(** Two persistent calls in a row on a scene of live bodies, the focused
    flag being off: both return, and the second multiplies the ring radii
    the first one left by the scale once more. *)
Lemma changeSolarSystemScale_twice parse s d (planets : PlanetArray) :
  container d = Some planets -> no_null planets -> focusedScaling d = false ->
  exists d1 d2,
    changeSolarSystemScale parse s false d = Some d1 /\
    changeSolarSystemScale parse s false d1 = Some d2 /\
    ringRadii d1 = scaledRingRadii s planets d /\
    ringRadii d2 = scaledRingRadii s planets d1.
Proof.
  intros Hc Hnn Hf.
  assert (Hscale : forall d0, focusedScaling d0 = false ->
                     planetScale (setSolarObjectsScale s false d0) = s).
  { intros d0 H0. rewrite setSolarObjectsScale_planetScale, H0.
    cbn [orb andb]. apply setSolarObjectsScale_actualScale. }
  destruct (changeSolarSystemScale_rings parse s false d planets Hc Hnn)
    as (d1 & P1 & Hd1 & (Hc1 & Hnn1 & Hk1) & Hs1 & Hr1).
  assert (Hf1 : focusedScaling d1 = false).
  { unfold scaleState in Hs1. injection Hs1 as _ Hfs _ _.
    destruct (setSolarObjectsScale_frame s false d) as (_ & Hfs' & _). congruence. }
  destruct (changeSolarSystemScale_rings parse s false d1 P1 Hc1 Hnn1)
    as (d2 & P2 & Hd2 & _ & _ & Hr2).
  exists d1, d2. repeat split; trivial.
  - rewrite Hr1. now rewrite Hscale.
  - rewrite Hr2, (Hscale d1 Hf1). now apply scaledRingRadii_same_keys.
Qed.

(** C1 (the code at a failing input): on the sample scene, which holds
    Saturn's ring with stored radii 10 and 12, two persistent calls of
    [changeSolarSystemScale] at scale 2 both return; the first leaves the
    radii 20 and 24, the second 40 and 48.  The second call does not
    leave the radii of the first. *)
Theorem changeSolarSystemScale_compounds_ring_radii :
  forall parse : SolarObjects -> R,
  exists d1 d2 : Data,
    changeSolarSystemScale parse 2 false sampleSceneData = Some d1 /\
    changeSolarSystemScale parse 2 false d1 = Some d2 /\
    (saturnRingInnerRadius d1 = 20 /\ saturnRingOuterRadius d1 = 24) /\
    (saturnRingInnerRadius d2 = 40 /\ saturnRingOuterRadius d2 = 48) /\
    saturnRingInnerRadius d2 <> saturnRingInnerRadius d1.
Proof.
  intros parse.
  destruct (changeSolarSystemScale_twice parse 2 sampleSceneData sampleScene
              eq_refl no_null_sampleScene eq_refl)
    as (d1 & d2 & Hd1 & Hd2 & Hr1 & Hr2).
  exists d1, d2. split; [exact Hd1|]. split; [exact Hd2|].
  unfold ringRadii, scaledRingRadii in Hr1, Hr2.
  assert (HS : is_Some (sampleScene !! SaturnRing)) by (eexists; reflexivity).
  rewrite (bool_decide_eq_true_2 _ HS) in Hr1, Hr2.
  injection Hr1 as Hi1 Ho1 _ _. injection Hr2 as Hi2 Ho2 _ _.
  cbn in Hi1, Ho1. rewrite Hi1 in Hi2. rewrite Ho1 in Ho2.
  repeat split; lra.
Qed.

End Scale.

Lemma setSolarObjectsScale_focused_floor_witness :
  let d' := setSolarObjectsScale 5 true (setSolarObjectsScale 30 false sampleData) in
  planetScale d' = 20 /\ actualScale d' = 30.
Proof.
  apply (proj1 setSolarObjectsScale_focused_floor 30 5 sampleData).
  cbn. lra.
Defined.

(** ** Time model *)

Section Time.

Variable calculateTimeScale : Z -> Z -> Z -> R.
Variable calculateUT : Z -> Z -> R -> R.
Variable dateOf : QDateTime -> QDate.t.
Variable timeOf : QDateTime -> QTime.t.

(** C4: for the whole-system view, and for every focus that has a record
    in the registry, [advanceTime] returns with this frame's days-per-frame
    equal to [daysPerFrameScale] times the period factor: 1 for the view,
    period/15000 for Mercury and Venus, period/100 for every other
    body. *)
Theorem advanceTime_daysPerFrame (object : SolarObjects) (d : Data) :
  object = SolarSystemView \/ is_Some (solarContainer d !! object) ->
  exists d' : Data,
    advanceTime calculateTimeScale calculateUT dateOf timeOf object d = Some d' /\
    daysPerFrame d'
    = daysPerFrameScale d * spec_periodFactor object (periodOf d object).
Proof.
  intros Hobj. unfold advanceTime, periodOf.
  destruct (bool_decide (object = SolarSystemView)) eqn:Hview.
  - apply bool_decide_eq_true in Hview. subst object.
    cbn [mbind option_bind]. eexists. split; [reflexivity|].
    cbn. lra.
  - apply bool_decide_eq_false in Hview.
    destruct Hobj as [? | [solarObj Hso]]; [contradiction|].
    rewrite Hso. cbn [from_option].
    destruct (bool_decide (object = Mercury) || bool_decide (object = Venus))
      eqn:Hinner; cbn [mbind option_bind]; (eexists; split; [reflexivity|]);
      cbn [daysPerFrame set_deltaTimeD set_currentTimeD set_oldTimeD set_day
             set_month set_year set_seconds set_minutes set_hours
             set_solarTime set_daysPerFrame].
    + apply orb_prop in Hinner as [H | H]; apply bool_decide_eq_true in H;
        subst object; cbn [spec_periodFactor]; unfold Rdiv; ring.
    + apply orb_false_elim in Hinner as [Hm Hv].
      apply bool_decide_eq_false in Hm, Hv.
      destruct object; try contradiction; cbn [spec_periodFactor];
        unfold Rdiv; ring.
Qed.

End Time.

Lemma advanceTime_daysPerFrame_witness :
  exists d' : Data,
    advanceTime (fun _ _ _ => 0) (fun _ _ _ => 0)
      (fun _ => QDate.mk 2000 1 1) (fun _ => QTime.mk 0 0 0) Saturn
      (setSolarSystemSpeed 3 sampleData) = Some d' /\
    daysPerFrame d' = 3 * spec_periodFactor Saturn 2.
Proof.
  apply (advanceTime_daysPerFrame (fun _ _ _ => 0) (fun _ _ _ => 0)
           (fun _ => QDate.mk 2000 1 1) (fun _ => QTime.mk 0 0 0) Saturn
           (setSolarSystemSpeed 3 sampleData)).
  right. exists (sampleObject Sun 10 0 0 2). reflexivity.
Defined.

(** ** Zoom limit *)

Section Zoom.

Variable parseSolarObjectRadius : SolarObjects -> R.

(** The per-body correction of [calculateZoomLimit(object, limit)], with
    a controller attached. *)
Lemma calculateZoomLimit_correction object limit d controller :
  cameraController d = Some controller ->
  calculateZoomLimit object limit d
  = Some match object with
         | Sun => CameraController.defaultZoomLimit controller
         | Mercury => limit * 2
         | Jupiter => limit / 1.5
         | Pluto => limit * 1.5
         | _ => limit
         end.
Proof.
  intros Hc. unfold calculateZoomLimit. rewrite Hc.
  destruct object; reflexivity.
Qed.

(** C7: with a controller attached, [updateSolarViewZoomLimit] leaves in
    the controller the limit of the description: the default for the
    whole-system view and the Sun, and otherwise the base limit
    [planetScale * radius * 4], doubled for Mercury, divided by 1.5 for
    Jupiter, multiplied by 1.5 for Pluto and unchanged for the rest.  At
    scale 1 this is [(R*4)/1.5] for Jupiter and [(R*4)*2] for Mercury. *)
Theorem updateSolarViewZoomLimit_limit (object : SolarObjects) (d : Data)
    (controller : CameraController.t) :
  cameraController d = Some controller ->
  exists (d' : Data) (controller' : CameraController.t),
    updateSolarViewZoomLimit parseSolarObjectRadius object d = Some d' /\
    cameraController d' = Some controller' /\
    CameraController.zoomLimit controller'
    = spec_zoomLimitFor (planetScale d) (parseSolarObjectRadius object)
        (CameraController.defaultZoomLimit controller) object /\
    (planetScale d = 1 ->
     (object = Jupiter ->
      CameraController.zoomLimit controller'
      = (parseSolarObjectRadius Jupiter * 4) / 1.5) /\
     (object = Mercury ->
      CameraController.zoomLimit controller'
      = (parseSolarObjectRadius Mercury * 4) * 2)).
Proof.
  intros Hc. unfold updateSolarViewZoomLimit.
  destruct (bool_decide (object = SolarSystemView)) eqn:Hview.
  - apply bool_decide_eq_true in Hview. subst object. rewrite Hc.
    eexists; eexists. split; [reflexivity|]. split; [reflexivity|].
    split; [reflexivity|]. intros _. split; discriminate.
  - apply bool_decide_eq_false in Hview.
    rewrite (calculateZoomLimit_correction _ _ _ _ Hc).
    cbn [mbind option_bind]. rewrite Hc.
    eexists; eexists. split; [reflexivity|]. split; [reflexivity|].
    split.
    + destruct object; try reflexivity. contradiction.
    + intros Hscale. split; intros ->; cbn; rewrite Hscale; lra.
Qed.

End Zoom.

Lemma updateSolarViewZoomLimit_limit_witness :
  exists (d' : Data) (controller' : CameraController.t),
    updateSolarViewZoomLimit (fun _ => 5) Jupiter sampleData = Some d' /\
    cameraController d' = Some controller' /\
    CameraController.zoomLimit controller'
    = spec_zoomLimitFor 1 5 50 Jupiter /\
    (planetScale sampleData = 1 ->
     (Jupiter = Jupiter ->
      CameraController.zoomLimit controller' = (5 * 4) / 1.5) /\
     (Jupiter = Mercury ->
      CameraController.zoomLimit controller' = (5 * 4) * 2)).
Proof.
  apply (updateSolarViewZoomLimit_limit (fun _ => 5) Jupiter sampleData
           sampleController).
  reflexivity.
Defined.

(** ** Hierarchy propagation *)

Section Hierarchy.

Lemma no_null_spec_follow dep parent q radius planets :
  no_null planets -> no_null (spec_follow dep parent q radius planets).
Proof.
  intros Hnn. unfold spec_follow.
  destruct (planets !! dep) as [[dv|]|]; trivial.
  destruct (planets !! parent) as [[p|]|]; trivial.
  now apply no_null_insert_live.
Qed.

(** Lookups after the step of a pair. *)
Lemma spec_follow_other dep parent q radius planets k :
  k <> dep -> spec_follow dep parent q radius planets !! k = planets !! k.
Proof.
  intros Hne. unfold spec_follow.
  destruct (planets !! dep) as [[dv|]|]; trivial.
  destruct (planets !! parent) as [[p|]|]; trivial.
  now rewrite lookup_insert_ne by congruence.
Qed.

Lemma spec_follow_both dep parent q radius planets dv p :
  planets !! dep = Some (Some dv) -> planets !! parent = Some (Some p) ->
  spec_follow dep parent q radius planets !! dep
  = Some (Some (followed p (SolarObject3D.roll p / q) (radius p))).
Proof.
  intros Hd Hp. unfold spec_follow. rewrite Hd, Hp.
  now rewrite lookup_insert_eq.
Qed.

Lemma spec_follow_absent dep parent q radius planets :
  planets !! dep = None \/ planets !! parent = None ->
  spec_follow dep parent q radius planets = planets.
Proof.
  intros H. unfold spec_follow.
  destruct H as [-> | ->]; [reflexivity|].
  destruct (planets !! dep) as [[dv|]|]; reflexivity.
Qed.

(** One block of [setupPlanetRings] or [atmosphereCalculations] on a
    table without null pointers. *)
Ltac follow_block planets dep parent Hnn :=
  unfold planets_count, planets_index, spec_follow;
  let Hd := fresh "Hd" in
  let Hp := fresh "Hp" in
  destruct (planets !! dep) as [[?|]|] eqn:Hd;
    [ | exfalso; exact (Hnn _ Hd) | ];
    (destruct (planets !! parent) as [[?|]|] eqn:Hp;
     [ | exfalso; exact (Hnn _ Hp) | ]);
    rewrite ?bool_decide_eq_true_2 by eauto;
    rewrite ?(bool_decide_eq_false_2 (is_Some None)) by (intros [? ?]; discriminate);
    cbn [andb mbind option_bind]; rewrite ?Hd; cbn [mbind option_bind];
    try reflexivity.

Ltac split_lookup planets k Hnn :=
  let H := fresh "Hk" in
  destruct (planets !! k) as [[?|]|] eqn:H; [ | exfalso; exact (Hnn _ H) | ].

Ltac simpl_counts :=
  unfold planets_count, planets_index, spec_follow;
  repeat progress
    (rewrite ?lookup_insert_ne by discriminate;
     repeat match goal with
       | H : ?m !! ?k = _ |- context [?m !! ?k] => rewrite H
       end;
     rewrite ?bool_decide_eq_true_2 by eauto;
     rewrite ?(bool_decide_eq_false_2 (is_Some None))
       by (intros [? ?]; discriminate);
     cbn [andb mbind option_bind]).

Lemma setupPlanetRings_follow d planets :
  container d = Some planets -> no_null planets ->
  setupPlanetRings d
  = Some (set_container
            (Some (spec_follow UranusRing Uranus 10
                     (fun _ => (uranusRingInnerRadius d + uranusRingOuterRadius d) / 1.75)
                     (spec_follow SaturnRing Saturn 10
                        (fun _ => (saturnRingInnerRadius d + saturnRingOuterRadius d) / 1.75)
                        planets))) d).
Proof.
  intros Hc Hnn. unfold setupPlanetRings. rewrite Hc. cbn [mbind option_bind].
  split_lookup planets SaturnRing Hnn; split_lookup planets Saturn Hnn;
    split_lookup planets UranusRing Hnn; split_lookup planets Uranus Hnn;
    simpl_counts; reflexivity.
Qed.

Lemma atmosphereCalculations_follow d planets :
  container d = Some planets -> no_null planets ->
  atmosphereCalculations d
  = Some (set_container
            (Some (spec_follow EarthCloud Earth 1.2
                     (fun earth => SolarObject3D.r earth * earthCloudRModifier d)
                     planets)) d).
Proof.
  intros Hc Hnn. unfold atmosphereCalculations. rewrite Hc.
  cbn [mbind option_bind].
  split_lookup planets EarthCloud Hnn; split_lookup planets Earth Hnn;
    simpl_counts; reflexivity.
Qed.

Ltac split_entry planets k :=
  let H := fresh "Hk" in
  destruct (planets !! k) as [[?|]|] eqn:H.

Ltac broken_pair H :=
  exfalso; unfold pair_sound in H;
  repeat match goal with
    | E : ?m !! ?k = _ |- _ => rewrite E in H
    end;
  let Hb := fresh "Hb" in
  assert (Hb := H ltac:(eauto) ltac:(eauto));
  destruct Hb; congruence.

(** [setupPlanetRings] and [atmosphereCalculations] on a table whose
    pairs are sound. *)
Lemma setupPlanetRings_sound d (planets : PlanetArray) :
  container d = Some planets ->
  pair_sound planets SaturnRing Saturn -> pair_sound planets UranusRing Uranus ->
  setupPlanetRings d
  = Some (set_container
            (Some (spec_follow UranusRing Uranus 10
                     (fun _ => (uranusRingInnerRadius d + uranusRingOuterRadius d) / 1.75)
                     (spec_follow SaturnRing Saturn 10
                        (fun _ => (saturnRingInnerRadius d + saturnRingOuterRadius d) / 1.75)
                        planets))) d).
Proof.
  intros Hc HS HU. unfold setupPlanetRings. rewrite Hc. cbn [mbind option_bind].
  split_entry planets SaturnRing; split_entry planets Saturn;
    split_entry planets UranusRing; split_entry planets Uranus;
    simpl_counts; try reflexivity;
    first [broken_pair HS | broken_pair HU].
Qed.

Lemma atmosphereCalculations_sound d (planets : PlanetArray) :
  container d = Some planets ->
  pair_sound planets EarthCloud Earth ->
  atmosphereCalculations d
  = Some (set_container
            (Some (spec_follow EarthCloud Earth 1.2
                     (fun earth => SolarObject3D.r earth * earthCloudRModifier d)
                     planets)) d).
Proof.
  intros Hc HE. unfold atmosphereCalculations. rewrite Hc.
  cbn [mbind option_bind].
  split_entry planets EarthCloud; split_entry planets Earth;
    simpl_counts; try reflexivity; broken_pair HE.
Qed.

(** C9 (amended): on a scene in which no pair has both keys in the table
    with a null pointer under one of them, [additionalCalculation]
    returns, and for each of the pairs (Saturn ring, Saturn), (Uranus ring,
    Uranus) and (Earth cloud, Earth): when both members are live the
    dependent gets the parent's x, y, z and tilt, the roll [parent roll /
    10] (rings) or [parent roll / 1.2] (cloud), and the radius [(inner +
    outer) / 1.75] of the ring radii kept in [Data] (rings) or [parent
    radius * earthCloudRModifier] (cloud); when the key of a member is
    missing from the table the dependent's entry stays as it was.  No other
    entry of the scene and no other field of [Data] changes. *)
Theorem additionalCalculation_propagates (d : Data) (planets : PlanetArray) :
  container d = Some planets ->
  pair_sound planets SaturnRing Saturn ->
  pair_sound planets UranusRing Uranus ->
  pair_sound planets EarthCloud Earth ->
  exists planets' : PlanetArray,
    additionalCalculation d = Some (set_container (Some planets') d) /\
    (forall ring saturn,
        planets !! SaturnRing = Some (Some ring) ->
        planets !! Saturn = Some (Some saturn) ->
        planets' !! SaturnRing
        = Some (Some (SolarObject3D.mk
                        (SolarObject3D.x saturn) (SolarObject3D.y saturn)
                        (SolarObject3D.z saturn) (SolarObject3D.roll saturn / 10)
                        (SolarObject3D.tilt saturn)
                        ((saturnRingInnerRadius d + saturnRingOuterRadius d) / 1.75)))) /\
    (planets !! SaturnRing = None \/ planets !! Saturn = None ->
     planets' !! SaturnRing = planets !! SaturnRing) /\
    (forall ring uranus,
        planets !! UranusRing = Some (Some ring) ->
        planets !! Uranus = Some (Some uranus) ->
        planets' !! UranusRing
        = Some (Some (SolarObject3D.mk
                        (SolarObject3D.x uranus) (SolarObject3D.y uranus)
                        (SolarObject3D.z uranus) (SolarObject3D.roll uranus / 10)
                        (SolarObject3D.tilt uranus)
                        ((uranusRingInnerRadius d + uranusRingOuterRadius d) / 1.75)))) /\
    (planets !! UranusRing = None \/ planets !! Uranus = None ->
     planets' !! UranusRing = planets !! UranusRing) /\
    (forall cloud earth,
        planets !! EarthCloud = Some (Some cloud) ->
        planets !! Earth = Some (Some earth) ->
        planets' !! EarthCloud
        = Some (Some (SolarObject3D.mk
                        (SolarObject3D.x earth) (SolarObject3D.y earth)
                        (SolarObject3D.z earth) (SolarObject3D.roll earth / 1.2)
                        (SolarObject3D.tilt earth)
                        (SolarObject3D.r earth * earthCloudRModifier d)))) /\
    (planets !! EarthCloud = None \/ planets !! Earth = None ->
     planets' !! EarthCloud = planets !! EarthCloud) /\
    (forall k, k <> SaturnRing -> k <> UranusRing -> k <> EarthCloud ->
               planets' !! k = planets !! k).
Proof.
  intros Hc HS HU HE. unfold additionalCalculation.
  rewrite (setupPlanetRings_sound d planets Hc HS HU). cbn [mbind option_bind].
  set (fS := fun _ : SolarObject3D.t =>
               (saturnRingInnerRadius d + saturnRingOuterRadius d) / 1.75).
  set (fU := fun _ : SolarObject3D.t =>
               (uranusRingInnerRadius d + uranusRingOuterRadius d) / 1.75).
  set (P1 := spec_follow SaturnRing Saturn 10 fS planets).
  set (P2 := spec_follow UranusRing Uranus 10 fU P1).
  assert (H12 : forall k, k <> SaturnRing -> k <> UranusRing -> P2 !! k = planets !! k).
  { intros k H1 H2. unfold P2, P1. now rewrite !spec_follow_other by assumption. }
  assert (HE2 : pair_sound P2 EarthCloud Earth).
  { unfold pair_sound. rewrite !H12 by discriminate. exact HE. }
  rewrite (atmosphereCalculations_sound (set_container (Some P2) d) P2 eq_refl HE2).
  set (fE := fun earth : SolarObject3D.t =>
               SolarObject3D.r earth * earthCloudRModifier (set_container (Some P2) d)).
  exists (spec_follow EarthCloud Earth 1.2 fE P2).
  split; [reflexivity|].
  repeat split.
  - intros ring saturn Hr Hp.
    rewrite spec_follow_other by discriminate. unfold P2.
    rewrite spec_follow_other by discriminate.
    apply (spec_follow_both _ _ _ _ _ ring saturn Hr Hp).
  - intros Habs. rewrite spec_follow_other by discriminate. unfold P2.
    rewrite spec_follow_other by discriminate.
    unfold P1. now rewrite spec_follow_absent.
  - intros ring uranus Hr Hp.
    rewrite spec_follow_other by discriminate.
    apply (spec_follow_both _ _ _ _ _ ring uranus); unfold P1;
      rewrite spec_follow_other by discriminate; assumption.
  - intros Habs. rewrite spec_follow_other by discriminate. unfold P2.
    rewrite spec_follow_absent; unfold P1;
      rewrite !spec_follow_other by discriminate; trivial.
  - intros cloud earth Hc' Hp.
    apply (spec_follow_both EarthCloud Earth 1.2 fE P2 cloud earth);
      rewrite H12 by discriminate; assumption.
  - intros Habs. rewrite spec_follow_absent.
    + apply H12; discriminate.
    + rewrite !H12 by discriminate. exact Habs.
  - intros k H1 H2 H3. rewrite spec_follow_other by exact H3. now apply H12.
Qed.

End Hierarchy.

(** ** Orbit solver *)

Section Orbit.

Variable auScale : R.

(** The result of [solarObjectPosition] for a body other than the Sun
    whose record and centre of orbit are registered. *)
Lemma solarObjectPosition_solved object d solarObj centerObj (planets : PlanetArray) :
  object <> Sun ->
  solarContainer d !! object = Some solarObj ->
  solarContainer d !! SolarObject.centerOfOrbit solarObj = Some centerObj ->
  container d = Some planets ->
  exists solarObj' : SolarObject.t,
    solarObjectPosition auScale object d
    = Some (set_container (Some (synced planets object solarObj'))
              (set_solarContainer (<[object := solarObj']> (solarContainer d)) d)) /\
    (let '(xh, yh, zh) :=
       offsetAt solarObj (currentTimeD d)
         (spec_eccentricAnomaly
            (elementAt (SolarObject.M1 solarObj) (SolarObject.M2 solarObj)
               (currentTimeD d) * PI / 180)
            (elementAt (SolarObject.e1 solarObj) (SolarObject.e2 solarObj)
               (currentTimeD d))) in
     positionOf solarObj'
     = (SolarObject.x centerObj + xh * auScale,
        SolarObject.y centerObj + yh * auScale,
        SolarObject.z centerObj + zh * auScale)) /\
    SolarObject.roll solarObj' = advancedRoll d solarObj.
Proof.
  intros Hne Hso Hce Hc. unfold solarObjectPosition.
  rewrite Hso. rewrite (bool_decide_eq_true_2 _ Hne). rewrite Hce.
  cbn [mbind option_bind]. rewrite Hc. cbn [mbind option_bind].
  unfold planets_index, synced.
  destruct (planets !! object) as [[vis|]|];
    (eexists; split; [reflexivity|]); split; reflexivity.
Qed.

(** C5: for a body other than the Sun with a registered record (and a
    registered centre of orbit, in a scene), [solarObjectPosition]
    returns, and the position it stores is the one derived from the
    eccentric anomaly [E = M + e*sin(M)*(1 + e*cos(M))], a single step
    from the mean anomaly, where [M = (M1 + M2*t)*PI/180] and
    [e = e1 + e2*t] at the current elapsed days [t]. *)
Theorem solarObjectPosition_eccentric_anomaly
    (object : SolarObjects) (d : Data) (solarObj centerObj : SolarObject.t)
    (planets : PlanetArray) :
  object <> Sun ->
  solarContainer d !! object = Some solarObj ->
  solarContainer d !! SolarObject.centerOfOrbit solarObj = Some centerObj ->
  container d = Some planets ->
  exists (d' : Data) (solarObj' : SolarObject.t),
    solarObjectPosition auScale object d = Some d' /\
    solarContainer d' !! object = Some solarObj' /\
    let t := currentTimeD d in
    let M := (SolarObject.M1 solarObj + SolarObject.M2 solarObj * t) * PI / 180 in
    let e := SolarObject.e1 solarObj + SolarObject.e2 solarObj * t in
    let E := M + e * sin M * (1 + e * cos M) in
    let '(xh, yh, zh) := offsetAt solarObj t E in
    positionOf solarObj'
    = (SolarObject.x centerObj + xh * auScale,
       SolarObject.y centerObj + yh * auScale,
       SolarObject.z centerObj + zh * auScale).
Proof.
  intros Hne Hso Hce Hc.
  destruct (solarObjectPosition_solved object d solarObj centerObj planets
              Hne Hso Hce Hc) as (solarObj' & Hrun & Hpos & _).
  eexists. exists solarObj'. split; [exact Hrun|].
  split; [apply lookup_insert_eq | exact Hpos].
Qed.

(** The single step is not a root of Kepler's equation [E - e*sin(E) = M]
    in general: at [M = PI/2] and [e = 1/2] it misses it. *)
Lemma spec_eccentricAnomaly_not_a_root :
  let E := spec_eccentricAnomaly (PI / 2) (1 / 2) in
  E - 1 / 2 * sin E <> PI / 2.
Proof.
  cbv zeta. unfold spec_eccentricAnomaly. rewrite sin_PI2, cos_PI2.
  replace (PI / 2 + 1 / 2 * 1 * (1 + 1 / 2 * 0)) with (PI / 2 + 1 / 2) by lra.
  rewrite sin_plus, sin_PI2, cos_PI2.
  assert (Hs : 0 < sin (1 / 2)) by (apply sin_pos_tech; lra).
  pose proof (sin2_cos2 (1 / 2)) as H. unfold Rsqr in H.
  intros Heq.
  assert (Hc1 : cos (1 / 2) = 1) by lra.
  rewrite Hc1 in H. nra.
Qed.

(** The offset of a circular orbit in the base plane: no out-of-plane
    part, and the length [|a|] in the plane. *)
Lemma orbitOffset_circular_flat N w a E :
  let '(xh, yh, zh) := orbitOffset N 0 w a 0 E in
  yh = 0 /\ xh * xh + zh * zh = a * a.
Proof.
  unfold orbitOffset.
  replace (1 - 0 * 0) with 1 by lra. rewrite sqrt_1.
  set (xv := a * (cos E - 0)). set (yv := a * (1 * sin E)).
  set (v := atan2 yv xv).
  assert (Hxy : xv * xv + yv * yv = a * a).
  { unfold xv, yv. pose proof (sin2_cos2 E) as H. unfold Rsqr in H.
    replace (a * (cos E - 0) * (a * (cos E - 0)) + a * (1 * sin E) * (a * (1 * sin E)))
      with (a * a * (sin E * sin E + cos E * cos E)) by ring.
    rewrite H. ring. }
  rewrite Hxy. set (r := sqrt (a * a)).
  assert (Hr : r * r = a * a) by (apply sqrt_sqrt; nra).
  rewrite sin_0, cos_0. split; [ring|].
  pose proof (sin2_cos2 N) as HN. pose proof (sin2_cos2 (v + w)) as Hv.
  unfold Rsqr in HN, Hv.
  replace (r * (cos N * cos (v + w) - sin N * sin (v + w) * 1) *
           (r * (cos N * cos (v + w) - sin N * sin (v + w) * 1)) +
           - r * (sin N * cos (v + w) + cos N * sin (v + w) * 1) *
           (- r * (sin N * cos (v + w) + cos N * sin (v + w) * 1)))
    with (r * r * ((sin N * sin N + cos N * cos N)
                   * (sin (v + w) * sin (v + w) + cos (v + w) * cos (v + w))))
    by ring.
  rewrite HN, Hv, Hr. ring.
Qed.

(** C6: for a body other than the Sun whose eccentricity and inclination
    evaluate to zero at the current elapsed days, [solarObjectPosition]
    returns, and whatever the mean anomaly the stored position has the y
    of the centre of orbit (it lies in the base plane) and lies at
    distance [|a * auScale|] from the centre: at [a * auScale], the
    semi-major axis and the unit scale being lengths. *)
Theorem solarObjectPosition_circular_flat
    (object : SolarObjects) (d : Data) (solarObj centerObj : SolarObject.t)
    (planets : PlanetArray) :
  object <> Sun ->
  solarContainer d !! object = Some solarObj ->
  solarContainer d !! SolarObject.centerOfOrbit solarObj = Some centerObj ->
  container d = Some planets ->
  elementAt (SolarObject.e1 solarObj) (SolarObject.e2 solarObj) (currentTimeD d) = 0 ->
  elementAt (SolarObject.i1 solarObj) (SolarObject.i2 solarObj) (currentTimeD d) = 0 ->
  let a := elementAt (SolarObject.a1 solarObj) (SolarObject.a2 solarObj)
             (currentTimeD d) in
  exists (d' : Data) (solarObj' : SolarObject.t),
    solarObjectPosition auScale object d = Some d' /\
    solarContainer d' !! object = Some solarObj' /\
    SolarObject.y solarObj' - SolarObject.y centerObj = 0 /\
    distance (positionOf solarObj') (positionOf centerObj) = Rabs (a * auScale) /\
    (0 <= a -> 0 <= auScale ->
     distance (positionOf solarObj') (positionOf centerObj) = a * auScale).
Proof.
  intros Hne Hso Hce Hc He Hi a.
  destruct (solarObjectPosition_solved object d solarObj centerObj planets
              Hne Hso Hce Hc) as (solarObj' & Hrun & Hpos & _).
  eexists. exists solarObj'. split; [exact Hrun|].
  split; [apply lookup_insert_eq|].
  unfold offsetAt in Hpos. rewrite He, Hi in Hpos.
  replace (0 * PI / 180) with 0 in Hpos by lra.
  fold a in Hpos.
  match type of Hpos with
  | context [orbitOffset ?N 0 ?w a 0 ?E] =>
      pose proof (orbitOffset_circular_flat N w a E) as Hoff;
      destruct (orbitOffset N 0 w a 0 E) as [[xh yh] zh]
  end.
  destruct Hoff as [-> Hlen].
  unfold positionOf in Hpos |- *. injection Hpos as -> -> ->.
  split; [ring|].
  assert (Hdist : distance
                    (SolarObject.x centerObj + xh * auScale,
                     SolarObject.y centerObj + 0 * auScale,
                     SolarObject.z centerObj + zh * auScale)
                    (SolarObject.x centerObj, SolarObject.y centerObj,
                     SolarObject.z centerObj)
                  = Rabs (a * auScale)).
  { unfold distance.
    replace ((SolarObject.x centerObj + xh * auScale - SolarObject.x centerObj) *
             (SolarObject.x centerObj + xh * auScale - SolarObject.x centerObj) +
             (SolarObject.y centerObj + 0 * auScale - SolarObject.y centerObj) *
             (SolarObject.y centerObj + 0 * auScale - SolarObject.y centerObj) +
             (SolarObject.z centerObj + zh * auScale - SolarObject.z centerObj) *
             (SolarObject.z centerObj + zh * auScale - SolarObject.z centerObj))
      with ((xh * xh + zh * zh) * (auScale * auScale)) by ring.
    rewrite Hlen.
    replace (a * a * (auScale * auScale)) with (Rsqr (a * auScale))
      by (unfold Rsqr; ring).
    apply sqrt_Rsqr_abs. }
  split; [exact Hdist|].
  intros Ha Hau. rewrite Hdist. apply Rabs_pos_eq. now apply Rmult_le_pos.
Qed.

(** The result of [solarObjectPosition] for any registered body: the
    Sun, or a body whose centre of orbit is registered. *)
Lemma solarObjectPosition_registered object d solarObj (planets : PlanetArray) :
  solarContainer d !! object = Some solarObj ->
  object = Sun \/ is_Some (solarContainer d !! SolarObject.centerOfOrbit solarObj) ->
  container d = Some planets ->
  exists solarObj' : SolarObject.t,
    solarObjectPosition auScale object d
    = Some (set_container (Some (synced planets object solarObj'))
              (set_solarContainer (<[object := solarObj']> (solarContainer d)) d)) /\
    SolarObject.roll solarObj' = advancedRoll d solarObj.
Proof.
  intros Hso Hcenter Hc.
  destruct (decide (object = Sun)) as [-> | Hne].
  - unfold solarObjectPosition. rewrite Hso.
    rewrite bool_decide_eq_false_2 by (intros H; now apply H).
    cbn [mbind option_bind]. rewrite Hc. cbn [mbind option_bind].
    unfold planets_index, synced.
    destruct (planets !! Sun) as [[vis|]|];
      (eexists; split; [reflexivity|]); reflexivity.
  - destruct Hcenter as [? | [centerObj Hce]]; [contradiction|].
    destruct (solarObjectPosition_solved object d solarObj centerObj planets
                Hne Hso Hce Hc) as (solarObj' & Hrun & _ & Hroll).
    now exists solarObj'.
Qed.

(** The record [solarObjectPosition] leaves for a registered body: for
    the Sun the old record with the roll advanced, for any other body the
    old record moved to the position of its centre of orbit plus the orbit
    offset times the unit scale, with the roll advanced. *)
Lemma solarObjectPosition_record object d solarObj (planets : PlanetArray) :
  solarContainer d !! object = Some solarObj ->
  object = Sun \/ is_Some (solarContainer d !! SolarObject.centerOfOrbit solarObj) ->
  container d = Some planets ->
  exists solarObj' : SolarObject.t,
    solarObjectPosition auScale object d
    = Some (set_container (Some (synced planets object solarObj'))
              (set_solarContainer (<[object := solarObj']> (solarContainer d)) d)) /\
    (object = Sun ->
     solarObj'
     = SolarObject.setRoll
         (SolarObject.roll solarObj + deltaTimeD d / SolarObject.period solarObj * 360)
         solarObj) /\
    (forall centerObj : SolarObject.t,
        object <> Sun ->
        solarContainer d !! SolarObject.centerOfOrbit solarObj = Some centerObj ->
        let t := currentTimeD d in
        let M := (SolarObject.M1 solarObj + SolarObject.M2 solarObj * t) * PI / 180 in
        let e := SolarObject.e1 solarObj + SolarObject.e2 solarObj * t in
        let E := M + e * sin M * (1 + e * cos M) in
        let '(xh, yh, zh) := offsetAt solarObj t E in
        solarObj'
        = movedTo solarObj
            (SolarObject.x centerObj + xh * auScale)
            (SolarObject.y centerObj + yh * auScale)
            (SolarObject.z centerObj + zh * auScale)
            (SolarObject.roll solarObj
             + deltaTimeD d / SolarObject.period solarObj * 360)).
Proof.
  intros Hso Hcenter Hc.
  destruct (decide (object = Sun)) as [-> | Hne].
  - unfold solarObjectPosition. rewrite Hso.
    rewrite bool_decide_eq_false_2 by (intros H; now apply H).
    cbn [mbind option_bind]. rewrite Hc. cbn [mbind option_bind].
    unfold planets_index, synced.
    eexists. split; [|split; [intros _; reflexivity | intros ? H; now destruct H]].
    destruct (planets !! Sun) as [[vis|]|]; reflexivity.
  - destruct Hcenter as [? | [centerObj Hce]]; [contradiction|].
    unfold solarObjectPosition. rewrite Hso.
    rewrite (bool_decide_eq_true_2 _ Hne). rewrite Hce.
    cbn [mbind option_bind]. rewrite Hc. cbn [mbind option_bind].
    unfold planets_index, synced.
    eexists. split; [|split; [intros ?; contradiction|]].
    + destruct (planets !! object) as [[vis|]|]; reflexivity.
    + intros centerObj' _ Hce'. injection Hce' as <-.
      destruct solarObj. reflexivity.
Qed.

(** C8 (amended): for an identifier without a live visual body,
    [solarObjectPosition] changes no live visual body.  It changes nothing
    at all when the identifier has no record in the registry.  When it has
    one (and the body is the Sun or its centre of orbit is registered) the
    call returns and replaces that record only: for the Sun by the same
    record with the roll advanced by [deltaTimeD / period * 360]; for any
    other body by the record moved to the position of the centre of orbit
    plus the orbit offset (from the eccentric anomaly of the single step)
    times the unit scale, with the roll advanced in the same way.  Nothing
    else in the registry or in the other fields changes. *)
Theorem solarObjectPosition_without_visual
    (object : SolarObjects) (d : Data) (planets : PlanetArray) :
  container d = Some planets ->
  planets !! object = None \/ planets !! object = Some None ->
  (solarContainer d !! object = None ->
   solarObjectPosition auScale object d = Some d) /\
  (forall solarObj : SolarObject.t,
      solarContainer d !! object = Some solarObj ->
      object = Sun \/
      is_Some (solarContainer d !! SolarObject.centerOfOrbit solarObj) ->
      exists (d' : Data) (planets' : PlanetArray) (solarObj' : SolarObject.t),
        solarObjectPosition auScale object d = Some d' /\
        container d' = Some planets' /\
        (forall k vis,
            planets' !! k = Some (Some vis) <-> planets !! k = Some (Some vis)) /\
        solarContainer d' = <[object := solarObj']> (solarContainer d) /\
        d' = set_container (Some planets')
               (set_solarContainer (solarContainer d') d) /\
        (object = Sun ->
         solarObj'
         = SolarObject.setRoll
             (SolarObject.roll solarObj
              + deltaTimeD d / SolarObject.period solarObj * 360)
             solarObj) /\
        (forall centerObj : SolarObject.t,
            object <> Sun ->
            solarContainer d !! SolarObject.centerOfOrbit solarObj = Some centerObj ->
            let t := currentTimeD d in
            let M := (SolarObject.M1 solarObj + SolarObject.M2 solarObj * t)
                     * PI / 180 in
            let e := SolarObject.e1 solarObj + SolarObject.e2 solarObj * t in
            let E := M + e * sin M * (1 + e * cos M) in
            let '(xh, yh, zh) := offsetAt solarObj t E in
            solarObj'
            = movedTo solarObj
                (SolarObject.x centerObj + xh * auScale)
                (SolarObject.y centerObj + yh * auScale)
                (SolarObject.z centerObj + zh * auScale)
                (SolarObject.roll solarObj
                 + deltaTimeD d / SolarObject.period solarObj * 360))).
Proof.
  intros Hc Hvis. split.
  - intros Hnone. unfold solarObjectPosition. now rewrite Hnone.
  - intros solarObj Hso Hcenter.
    destruct (solarObjectPosition_record object d solarObj planets
                Hso Hcenter Hc) as (solarObj' & Hrun & HSun & Hother).
    eexists. exists (synced planets object solarObj'), solarObj'.
    split; [exact Hrun|]. split; [reflexivity|].
    split; [|split; [reflexivity | split; [reflexivity | split; assumption]]].
    intros k vis. unfold synced.
    destruct Hvis as [Hv | Hv]; rewrite Hv; [|reflexivity].
    destruct (decide (object = k)) as [<- | Hne].
    + rewrite lookup_insert_eq, Hv. split; discriminate.
    + now rewrite lookup_insert_ne by exact Hne.
Qed.

End Orbit.

Lemma sampleContainer_Earth :
  sampleContainer !! Earth = Some (sampleObject Sun 1 0 0 1).
Proof. reflexivity. Qed.

Lemma sampleContainer_Sun :
  sampleContainer !! Sun = Some (sampleObject Sun 0 0 0 25).
Proof. reflexivity. Qed.

Lemma solarObjectPosition_eccentric_anomaly_witness :
  exists (d' : Data) (solarObj' : SolarObject.t),
    solarObjectPosition 100 Mars sampleEccentricData = Some d' /\
    solarContainer d' !! Mars = Some solarObj' /\
    let t := 0 in
    let M := (90 + 0 * t) * PI / 180 in
    let e := 1 / 2 + 0 * t in
    let E := M + e * sin M * (1 + e * cos M) in
    let '(xh, yh, zh) := offsetAt sampleMars t E in
    positionOf solarObj' = (0 + xh * 100, 0 + yh * 100, 0 + zh * 100).
Proof.
  apply (solarObjectPosition_eccentric_anomaly 100 Mars sampleEccentricData
           sampleMars (sampleObject Sun 0 0 0 25) sampleScene).
  - discriminate.
  - reflexivity.
  - reflexivity.
  - reflexivity.
Defined.

Lemma solarObjectPosition_circular_flat_witness :
  exists (d' : Data) (solarObj' : SolarObject.t),
    solarObjectPosition 100 Earth sampleSceneData = Some d' /\
    solarContainer d' !! Earth = Some solarObj' /\
    SolarObject.y solarObj' - 0 = 0 /\
    distance (positionOf solarObj') (0, 0, 0) = Rabs (elementAt 1 0 0 * 100) /\
    (0 <= elementAt 1 0 0 -> 0 <= 100 ->
     distance (positionOf solarObj') (0, 0, 0) = elementAt 1 0 0 * 100).
Proof.
  apply (solarObjectPosition_circular_flat 100 Earth sampleSceneData
           (sampleObject Sun 1 0 0 1) (sampleObject Sun 0 0 0 25) sampleScene).
  - discriminate.
  - reflexivity.
  - reflexivity.
  - reflexivity.
  - unfold elementAt. cbn. lra.
  - unfold elementAt. cbn. lra.
Defined.

(** C8 as stated fails: the sample registry holds the Earth, the scene is
    empty, and the call still advances the Earth's roll in the registry
    from 0 to 360. *)
Lemma solarObjectPosition_missing_visual_not_noop :
  ~ (forall (auScale : R) (id : SolarObjects) (d : Data),
        no_live_visual d id -> solarObjectPosition auScale id d = Some d).
Proof.
  intros Hclaim.
  assert (Hno : no_live_visual sampleEmptySceneData Earth).
  { exists ∅. split; [reflexivity | left; apply lookup_empty]. }
  specialize (Hclaim 1 Earth sampleEmptySceneData Hno).
  destruct (solarObjectPosition_registered 1 Earth sampleEmptySceneData
              (sampleObject Sun 1 0 0 1) ∅ sampleContainer_Earth)
    as (solarObj' & Hrun & Hroll).
  - right. exists (sampleObject Sun 0 0 0 25). reflexivity.
  - reflexivity.
  - rewrite Hrun in Hclaim.
    assert (Hd := f_equal (fun o : option Data =>
                             d ← o; SolarObject.roll <$> solarContainer d !! Earth)
                    Hclaim).
    cbn [mbind option_bind solarContainer set_container set_solarContainer] in Hd.
    rewrite lookup_insert_eq in Hd.
    change (solarContainer sampleEmptySceneData) with sampleContainer in Hd.
    rewrite sampleContainer_Earth in Hd. cbn in Hd.
    injection Hd as Hd. rewrite Hroll in Hd.
    unfold advancedRoll in Hd. cbn in Hd. lra.
Qed.

Lemma solarObjectPosition_without_visual_witness :
  exists (d' : Data) (solarObj' : SolarObject.t),
    solarObjectPosition 100 Mars sampleEccentricData = Some d' /\
    solarContainer d' = <[Mars := solarObj']> (solarContainer sampleEccentricData) /\
    let t := 0 in
    let M := (90 + 0 * t) * PI / 180 in
    let e := 1 / 2 + 0 * t in
    let E := M + e * sin M * (1 + e * cos M) in
    let '(xh, yh, zh) := offsetAt sampleMars t E in
    solarObj'
    = movedTo sampleMars (0 + xh * 100) (0 + yh * 100) (0 + zh * 100)
        (0 + 1 / 3 * 360).
Proof.
  destruct (solarObjectPosition_without_visual 100 Mars sampleEccentricData
              sampleScene) as [_ H].
  - reflexivity.
  - left. reflexivity.
  - destruct (H sampleMars) as (d' & planets' & solarObj' & H').
    + reflexivity.
    + right. exists (sampleObject Sun 0 0 0 25). reflexivity.
    + exists d', solarObj'.
      destruct H' as (Hrun & _ & _ & Hsc & _ & _ & Hother).
      split; [exact Hrun|]. split; [exact Hsc|].
      apply (Hother (sampleObject Sun 0 0 0 25)); [discriminate | reflexivity].
Defined.

Lemma samplePartialScene_lookups :
  samplePartialScene !! SaturnRing = Some (Some sampleVisual) /\
  samplePartialScene !! Saturn = Some (Some (SolarObject3D.mk 7 8 9 30 2 4)) /\
  samplePartialScene !! Uranus = Some None /\
  samplePartialScene !! UranusRing = None /\
  samplePartialScene !! EarthCloud = None.
Proof. repeat split. Qed.

Lemma additionalCalculation_propagates_witness :
  exists planets' : PlanetArray,
    additionalCalculation samplePartialSceneData
    = Some (set_container (Some planets') samplePartialSceneData) /\
    planets' !! SaturnRing
    = Some (Some (SolarObject3D.mk 7 8 9 (30 / 10) 2 ((10 + 12) / 1.75))) /\
    planets' !! UranusRing = None /\
    planets' !! Uranus = Some None.
Proof.
  destruct samplePartialScene_lookups as (HSR & HS & HU & HUR & HEC).
  destruct (additionalCalculation_propagates samplePartialSceneData samplePartialScene)
    as (planets' & Hrun & HSat & _ & _ & HUra & _ & _ & Hother).
  - reflexivity.
  - intros _ _. rewrite HSR, HS. split; discriminate.
  - intros [x Hx]. rewrite HUR in Hx. discriminate.
  - intros [x Hx]. rewrite HEC in Hx. discriminate.
  - exists planets'. split; [exact Hrun|]. split; [|split].
    + apply (HSat sampleVisual (SolarObject3D.mk 7 8 9 30 2 4)); assumption.
    + rewrite HUra; [exact HUR | left; exact HUR].
    + rewrite Hother by discriminate. exact HU.
Defined.

(** C9 as stated fails twice.  On the sample scene the radius the ring of
    Saturn gets is [(10 + 12) / 1.75]: not the average [(10 + 12) / 2] of
    the inner and outer radius, and larger than the outer radius.  And
    with a null pointer under the key of Saturn (a Saturn that is not in
    the scene, after [planets[Saturn]]) and a live ring, the step does not
    leave things as they are: it dereferences the null pointer. *)
Lemma additionalCalculation_not_average_not_tolerant :
  (exists (d' : Data) (planets' : PlanetArray) (ring : SolarObject3D.t),
      additionalCalculation sampleSceneData = Some d' /\
      container d' = Some planets' /\
      planets' !! SaturnRing = Some (Some ring) /\
      SolarObject3D.r ring
      <> (saturnRingInnerRadius sampleSceneData
          + saturnRingOuterRadius sampleSceneData) / 2 /\
      saturnRingOuterRadius sampleSceneData < SolarObject3D.r ring) /\
  additionalCalculation sampleBrokenSceneData = None.
Proof.
  split.
  - unfold additionalCalculation.
    rewrite (setupPlanetRings_follow sampleSceneData sampleScene eq_refl
               no_null_sampleScene).
    cbn [mbind option_bind].
    erewrite atmosphereCalculations_follow;
      [| reflexivity | do 2 apply no_null_spec_follow; exact no_null_sampleScene].
    eexists; eexists; eexists. split; [reflexivity|]. split; [reflexivity|].
    split.
    + rewrite spec_follow_other by discriminate.
      rewrite spec_follow_other by discriminate.
      apply (spec_follow_both SaturnRing Saturn 10 _ sampleScene sampleVisual
               (SolarObject3D.mk 7 8 9 30 2 4)); reflexivity.
    + cbn [SolarObject3D.r followed]. 
      change (saturnRingInnerRadius sampleSceneData) with 10.
      change (saturnRingOuterRadius sampleSceneData) with 12.
      split; lra.
  - unfold additionalCalculation, setupPlanetRings.
    change (container sampleBrokenSceneData)
      with (Some (<[Saturn := None]> sampleScene)).
    cbn [mbind option_bind]. unfold planets_count, planets_index.
    assert (H1 : <[Saturn := None]> sampleScene !! SaturnRing = Some (Some sampleVisual))
      by reflexivity.
    assert (H2 : <[Saturn := None]> sampleScene !! Saturn = Some None)
      by reflexivity.
    rewrite H1, H2. rewrite !bool_decide_eq_true_2 by eauto.
    cbn [andb]. rewrite H1. reflexivity.
Qed.

(** * Further properties *)

(** ** Visual scale, continued *)

(** A call of [setSolarObjectsScale] repeated with the same arguments
    changes nothing more. *)
Theorem setSolarObjectsScale_idempotent (scale : R) (focused : bool) (d : Data) :
  setSolarObjectsScale scale focused (setSolarObjectsScale scale focused d)
  = setSolarObjectsScale scale focused d.
Proof.
  destruct d. unfold setSolarObjectsScale.
  destruct focused; cbn [negb];
    cbn [focusedMinimumScale focusedScaling actualScale set_actualScale];
    destruct (Rleb scale (IZR focusedMinimumScale0)) eqn:Hle;
    destruct focusedScaling0;
    cbn [andb orb set_planetScale focusedMinimumScale focusedScaling
           actualScale set_actualScale planetScale];
    rewrite ?Hle; reflexivity.
Qed.

(** A focused request above the floor does not apply the requested value:
    the effective scale is the persistent scale of the last persistent
    request, also when that one lies below the floor. *)
Theorem setSolarObjectsScale_focused_above_floor (x y : R) (d : Data) :
  IZR (focusedMinimumScale d) < y ->
  planetScale (setSolarObjectsScale y true (setSolarObjectsScale x false d)) = x.
Proof.
  intros Hy. rewrite setSolarObjectsScale_planetScale.
  destruct (setSolarObjectsScale_frame x false d) as (-> & _).
  rewrite (Rleb_false _ _ Hy), andb_false_r.
  now rewrite !setSolarObjectsScale_actualScale.
Qed.

Lemma setSolarObjectsScale_focused_above_floor_witness :
  planetScale (setSolarObjectsScale 30 true (setSolarObjectsScale 5 false sampleData))
  = 5.
Proof.
  apply (setSolarObjectsScale_focused_above_floor 5 30 sampleData). cbn. lra.
Defined.

(** One visit of the loop at a live body: the entry the visit leaves. *)
Lemma changeSolarSystemScale_body_scene parse scaling k vis d (P : PlanetArray) :
  container d = Some P ->
  exists d',
    changeSolarSystemScale_body parse scaling k (Some vis) (Some d) = Some d' /\
    container d'
    = Some (if scaled_body k
            then <[k := Some (scaledVisual parse scaling k vis)]> P
            else P).
Proof.
  intros Hc. unfold changeSolarSystemScale_body.
  destruct k; cbn [mbind option_bind scaled_body scaledVisual]; rewrite ?Hc;
    cbn [mbind option_bind]; (eexists; split; [reflexivity|]);
    cbn; rewrite ?Hc; reflexivity.
Qed.

(** The scene the loop of [changeSolarSystemScale] leaves, entry by
    entry. *)
Lemma changeSolarSystemScale_loop_scene parse scaling d (P planets : PlanetArray) :
  container d = Some P -> no_null planets ->
  exists d' (P' : PlanetArray),
    map_fold (changeSolarSystemScale_body parse scaling) (Some d) planets = Some d' /\
    container d' = Some P' /\
    forall j,
      P' !! j
      = match planets !! j with
        | Some (Some vis) =>
            if scaled_body j then Some (Some (scaledVisual parse scaling j vis))
            else P !! j
        | _ => P !! j
        end.
Proof.
  intros Hc.
  apply (map_fold_weak_ind
           (fun acc (m : PlanetArray) =>
              no_null m ->
              exists d' (P' : PlanetArray),
                acc = Some d' /\ container d' = Some P' /\
                forall j,
                  P' !! j
                  = match m !! j with
                    | Some (Some vis) =>
                        if scaled_body j
                        then Some (Some (scaledVisual parse scaling j vis))
                        else P !! j
                    | _ => P !! j
                    end)).
  - intros _. exists d, P. split; [reflexivity|]. split; [exact Hc|].
    intros j. now rewrite lookup_empty.
  - intros k p m acc Hk IH Hnn.
    assert (Hnn' : no_null m).
    { intros j Hj. apply (Hnn j). rewrite lookup_insert_ne; [exact Hj|].
      intros ->. rewrite Hk in Hj. discriminate. }
    destruct (IH Hnn') as (d1 & P1 & -> & Hc1 & HP1).
    destruct p as [vis|]; [|exfalso; apply (Hnn k); apply lookup_insert_eq].
    destruct (changeSolarSystemScale_body_scene parse scaling k vis d1 P1 Hc1)
      as (d2 & Hd2 & Hc2).
    eexists d2, _. split; [exact Hd2|]. split; [exact Hc2|].
    intros j. destruct (decide (k = j)) as [<- | Hne].
    + rewrite lookup_insert_eq.
      destruct (scaled_body k); [now rewrite lookup_insert_eq|].
      rewrite HP1, Hk. reflexivity.
    + rewrite (lookup_insert_ne m) by exact Hne.
      destruct (scaled_body k); [rewrite lookup_insert_ne by exact Hne|];
        apply HP1.
Qed.

Lemma scaledVisual_not_scaled parse scaling k vis :
  scaled_body k = false -> scaledVisual parse scaling k vis = vis.
Proof. destruct k; (discriminate || reflexivity). Qed.

Lemma scaledVisual_twice parse scaling k vis :
  scaledVisual parse scaling k (scaledVisual parse scaling k vis)
  = scaledVisual parse scaling k vis.
Proof. destruct k; reflexivity. Qed.

(** The scene [changeSolarSystemScale] leaves, entry by entry. *)
Lemma changeSolarSystemScale_scene_entries
    (parse : SolarObjects -> R) (scale : R) (focused : bool) (d : Data)
    (planets : PlanetArray) :
  container d = Some planets -> no_null planets ->
  exists (d' : Data) (planets' : PlanetArray),
    changeSolarSystemScale parse scale focused d = Some d' /\
    container d' = Some planets' /\
    forall j,
      planets' !! j
      = fmap (scaledVisual parse
                (planetScale (setSolarObjectsScale scale focused d)) j)
        <$> planets !! j.
Proof.
  intros Hc Hnn. unfold changeSolarSystemScale.
  destruct (setSolarObjectsScale_frame scale focused d) as (_ & _ & Hc' & _).
  rewrite Hc', Hc. cbn [mbind option_bind].
  destruct (changeSolarSystemScale_loop_scene parse
              (planetScale (setSolarObjectsScale scale focused d))
              (setSolarObjectsScale scale focused d) planets planets)
    as (d' & P' & Hd' & Hcd' & HP'); [rewrite Hc', Hc; reflexivity | exact Hnn |].
  exists d', P'. split; [exact Hd'|]. split; [exact Hcd'|].
  intros j. rewrite HP'.
  destruct (planets !! j) as [[vis|]|] eqn:Hj; cbn; try reflexivity.
  destruct (scaled_body j) eqn:Hb; [reflexivity|].
  now rewrite scaledVisual_not_scaled.
Qed.

(** On a scene of live bodies [changeSolarSystemScale] returns, and every
    body of the scene keeps its position, roll and tilt; the radius of the
    Sun becomes [parsed radius * effective scale / 80], the radius of a
    planet or the Moon [parsed radius * effective scale], and rings, clouds
    and other bodies keep theirs.  No key is added or removed. *)
Theorem changeSolarSystemScale_scene
    (parse : SolarObjects -> R) (scale : R) (focused : bool) (d : Data)
    (planets : PlanetArray) :
  container d = Some planets -> no_null planets ->
  exists (d' : Data) (planets' : PlanetArray),
    changeSolarSystemScale parse scale focused d = Some d' /\
    container d' = Some planets' /\
    forall j,
      planets' !! j
      = fmap (scaledVisual parse
                (planetScale (setSolarObjectsScale scale focused d)) j)
        <$> planets !! j.
Proof. exact (changeSolarSystemScale_scene_entries parse scale focused d planets). Qed.

Lemma changeSolarSystemScale_scene_witness :
  exists (d' : Data) (planets' : PlanetArray),
    changeSolarSystemScale (fun _ => 3) 2 false sampleSceneData = Some d' /\
    container d' = Some planets' /\
    forall j,
      planets' !! j
      = fmap (scaledVisual (fun _ => 3)
                (planetScale (setSolarObjectsScale 2 false sampleSceneData)) j)
        <$> sampleScene !! j.
Proof.
  apply (changeSolarSystemScale_scene (fun _ => 3) 2 false sampleSceneData sampleScene).
  - reflexivity.
  - exact no_null_sampleScene.
Defined.

(** Repeating [changeSolarSystemScale] with the same arguments leaves the
    scene of the first call: the radii of the visual bodies do not
    compound. *)
Theorem changeSolarSystemScale_scene_idempotent
    (parse : SolarObjects -> R) (scale : R) (focused : bool) (d : Data)
    (planets : PlanetArray) :
  container d = Some planets -> no_null planets ->
  exists d1 d2 : Data,
    changeSolarSystemScale parse scale focused d = Some d1 /\
    changeSolarSystemScale parse scale focused d1 = Some d2 /\
    container d2 = container d1 /\
    scaleState d2 = scaleState d1.
Proof.
  intros Hc Hnn.
  destruct (changeSolarSystemScale_rings parse scale focused d planets Hc Hnn)
    as (d1 & P1 & Hd1 & (Hc1 & Hnn1 & _) & Hs1 & _).
  destruct (changeSolarSystemScale_scene_entries parse scale focused d planets Hc Hnn)
    as (d1' & P1' & Hd1' & Hc1' & HP1).
  rewrite Hd1 in Hd1'. injection Hd1' as <-.
  rewrite Hc1 in Hc1'. injection Hc1' as <-.
  destruct (changeSolarSystemScale_rings parse scale focused d1 P1 Hc1 Hnn1)
    as (d2 & P2 & Hd2 & _ & Hs2 & _).
  destruct (changeSolarSystemScale_scene_entries parse scale focused d1 P1 Hc1 Hnn1)
    as (d2' & P2' & Hd2' & Hc2 & HP2).
  rewrite Hd2 in Hd2'. injection Hd2' as <-.
  assert (Hstate : scaleState (setSolarObjectsScale scale focused d1)
                   = scaleState (setSolarObjectsScale scale focused d)).
  { unfold scaleState in *. injection Hs1 as Hp Hf Hm Ha.
    rewrite !setSolarObjectsScale_planetScale, !setSolarObjectsScale_actualScale.
    destruct (setSolarObjectsScale_frame scale focused d) as (Hm' & Hf' & _).
    destruct (setSolarObjectsScale_frame scale focused d1) as (Hm1 & Hf1 & _).
    rewrite Hm1, Hf1, Hm, Hf, Hm', Hf', Ha.
    rewrite !setSolarObjectsScale_actualScale.
    destruct focused; reflexivity. }
  exists d1, d2. split; [exact Hd1|]. split; [exact Hd2|]. split.
  - rewrite Hc2, Hc1. f_equal. apply map_eq. intros j.
    rewrite HP2, HP1.
    assert (Hscale : planetScale (setSolarObjectsScale scale focused d1)
                     = planetScale (setSolarObjectsScale scale focused d)).
    { unfold scaleState in Hstate. now injection Hstate. }
    rewrite Hscale.
    destruct (planets !! j) as [[vis|]|]; cbn; try reflexivity.
    now rewrite scaledVisual_twice.
  - congruence.
Qed.

Lemma changeSolarSystemScale_scene_idempotent_witness :
  exists d1 d2 : Data,
    changeSolarSystemScale (fun _ => 3) 2 false sampleSceneData = Some d1 /\
    changeSolarSystemScale (fun _ => 3) 2 false d1 = Some d2 /\
    container d2 = container d1 /\
    scaleState d2 = scaleState d1.
Proof.
  apply (changeSolarSystemScale_scene_idempotent (fun _ => 3) 2 false
           sampleSceneData sampleScene).
  - reflexivity.
  - exact no_null_sampleScene.
Defined.

(** A null pointer stored under the key of the Sun, a planet or the Moon
    is dereferenced by [changeSolarSystemScale]; so is a null container. *)
Theorem changeSolarSystemScale_null_body
    (parse : SolarObjects -> R) (scale : R) (focused : bool) (d : Data) :
  (container d = None -> changeSolarSystemScale parse scale focused d = None) /\
  (forall (planets : PlanetArray) (k : SolarObjects),
      container d = Some planets -> planets !! k = Some None ->
      scaled_body k = true ->
      changeSolarSystemScale parse scale focused d = None).
Proof.
  destruct (setSolarObjectsScale_frame scale focused d) as (_ & _ & Hc' & _).
  unfold changeSolarSystemScale. split.
  - intros Hc. now rewrite Hc', Hc.
  - intros planets k Hc Hk Hb. rewrite Hc', Hc. cbn [mbind option_bind].
    rewrite <- (changeSolarSystemScale_any_order parse _ planets
                  ((k, None) :: map_to_list (delete k planets)))
      by (now apply map_to_list_delete).
    cbn [foldr uncurry].
    destruct (foldr _ _ _) as [d0|]; [|reflexivity].
    destruct k; (discriminate || reflexivity).
Qed.

Lemma changeSolarSystemScale_null_body_witness :
  changeSolarSystemScale (fun _ => 3) 2 false
    (setPlanetsContainer (Some (<[Earth := None]> sampleScene)) sampleData)
  = None.
Proof.
  apply (proj2 (changeSolarSystemScale_null_body (fun _ => 3) 2 false
                  (setPlanetsContainer (Some (<[Earth := None]> sampleScene))
                     sampleData))
           (<[Earth := None]> sampleScene) Earth); reflexivity.
Defined.

(** ** Orbit solver, continued *)

Section OrbitMore.

Variable auScale : R.

(** The complete result of [solarObjectPosition] for a registered body. *)
Lemma solarObjectPosition_run object d solarObj (planets : PlanetArray) :
  solarContainer d !! object = Some solarObj ->
  object = Sun \/ is_Some (solarContainer d !! SolarObject.centerOfOrbit solarObj) ->
  container d = Some planets ->
  exists x y z : R,
    let solarObj' := movedTo solarObj x y z (advancedRoll d solarObj) in
    solarObjectPosition auScale object d
    = Some (set_container (Some (synced planets object solarObj'))
              (set_solarContainer (<[object := solarObj']> (solarContainer d)) d)) /\
    (object = Sun -> (x, y, z) = positionOf solarObj).
Proof.
  intros Hso Hcenter Hc.
  destruct (decide (object = Sun)) as [-> | Hne].
  - exists (SolarObject.x solarObj), (SolarObject.y solarObj), (SolarObject.z solarObj).
    unfold solarObjectPosition. rewrite Hso.
    rewrite bool_decide_eq_false_2 by (intros H; now apply H).
    cbn [mbind option_bind]. rewrite Hc. cbn [mbind option_bind].
    unfold planets_index, synced. destruct solarObj.
    destruct (planets !! Sun) as [[vis|]|]; split; reflexivity.
  - destruct Hcenter as [? | [centerObj Hce]]; [contradiction|].
    unfold solarObjectPosition. rewrite Hso.
    rewrite (bool_decide_eq_true_2 _ Hne). rewrite Hce.
    cbn [mbind option_bind]. rewrite Hc. cbn [mbind option_bind].
    unfold planets_index, synced.
    eexists; eexists; eexists.
    destruct (planets !! object) as [[vis|]|];
      (split; [reflexivity | intros ?; contradiction]).
Qed.

(** For the Sun [solarObjectPosition] solves no orbit: the registered
    position stays where it is and only the roll advances, by
    [deltaTimeD / period * 360]. *)
Theorem solarObjectPosition_Sun (d : Data) (sun : SolarObject.t)
    (planets : PlanetArray) :
  solarContainer d !! Sun = Some sun ->
  container d = Some planets ->
  exists d' : Data,
    solarObjectPosition auScale Sun d = Some d' /\
    solarContainer d' !! Sun
    = Some (SolarObject.setRoll
              (SolarObject.roll sun + deltaTimeD d / SolarObject.period sun * 360)
              sun).
Proof.
  intros Hso Hc.
  destruct (solarObjectPosition_run Sun d sun planets Hso (or_introl eq_refl) Hc)
    as (x & y & z & Hrun & Hpos).
  specialize (Hpos eq_refl). unfold positionOf in Hpos. injection Hpos as -> -> ->.
  eexists. split; [exact Hrun|].
  cbn [solarContainer set_container set_solarContainer].
  rewrite lookup_insert_eq. destruct sun. reflexivity.
Qed.

(** When the body has a live visual body, [solarObjectPosition] leaves the
    visual body on the position and roll of the registry record, and keeps
    its tilt and radius. *)
Theorem solarObjectPosition_syncs_visual (object : SolarObjects) (d : Data)
    (solarObj : SolarObject.t) (planets : PlanetArray) (vis : SolarObject3D.t) :
  solarContainer d !! object = Some solarObj ->
  object = Sun \/ is_Some (solarContainer d !! SolarObject.centerOfOrbit solarObj) ->
  container d = Some planets ->
  planets !! object = Some (Some vis) ->
  exists (d' : Data) (planets' : PlanetArray) (solarObj' : SolarObject.t),
    solarObjectPosition auScale object d = Some d' /\
    container d' = Some planets' /\
    solarContainer d' !! object = Some solarObj' /\
    planets' !! object
    = Some (Some (SolarObject3D.mk
                    (SolarObject.x solarObj') (SolarObject.y solarObj')
                    (SolarObject.z solarObj') (SolarObject.roll solarObj')
                    (SolarObject3D.tilt vis) (SolarObject3D.r vis))).
Proof.
  intros Hso Hcenter Hc Hvis.
  destruct (solarObjectPosition_run object d solarObj planets Hso Hcenter Hc)
    as (x & y & z & Hrun & _).
  eexists; eexists; eexists. split; [exact Hrun|]. split; [reflexivity|].
  cbn [solarContainer set_container set_solarContainer].
  split; [apply lookup_insert_eq|].
  unfold synced. rewrite Hvis. apply lookup_insert_eq.
Qed.

(** [solarObjectPosition] writes one registry record and one scene entry:
    the record of the body keeps its elements, period, radius and centre
    of orbit, every other record and every other scene entry is as before,
    and so is every other field of [Data]. *)
Theorem solarObjectPosition_frame (object : SolarObjects) (d : Data)
    (solarObj : SolarObject.t) (planets : PlanetArray) :
  solarContainer d !! object = Some solarObj ->
  object = Sun \/ is_Some (solarContainer d !! SolarObject.centerOfOrbit solarObj) ->
  container d = Some planets ->
  exists (d' : Data) (planets' : PlanetArray) (x y z : R),
    solarObjectPosition auScale object d = Some d' /\
    container d' = Some planets' /\
    solarContainer d'
    = <[object := movedTo solarObj x y z (advancedRoll d solarObj)]> (solarContainer d) /\
    (forall k, k <> object -> planets' !! k = planets !! k) /\
    d' = set_container (Some planets') (set_solarContainer (solarContainer d') d).
Proof.
  intros Hso Hcenter Hc.
  destruct (solarObjectPosition_run object d solarObj planets Hso Hcenter Hc)
    as (x & y & z & Hrun & _).
  eexists; eexists; exists x, y, z. split; [exact Hrun|].
  split; [reflexivity|]. split; [reflexivity|]. split; [|reflexivity].
  intros k Hk. unfold synced.
  destruct (planets !! object) as [[vis|]|]; trivial;
    now rewrite lookup_insert_ne by congruence.
Qed.

(** [solarObjectPosition] dereferences a null pointer when a registered
    body other than the Sun has no registered centre of orbit, and when a
    registered body is solved before a planets container is set. *)
Theorem solarObjectPosition_null_dereference (object : SolarObjects) (d : Data)
    (solarObj : SolarObject.t) :
  solarContainer d !! object = Some solarObj ->
  (object <> Sun ->
   solarContainer d !! SolarObject.centerOfOrbit solarObj = None ->
   solarObjectPosition auScale object d = None) /\
  (container d = None -> solarObjectPosition auScale object d = None).
Proof.
  intros Hso. unfold solarObjectPosition. rewrite Hso. split.
  - intros Hne Hce. rewrite (bool_decide_eq_true_2 _ Hne), Hce. reflexivity.
  - intros Hc. rewrite Hc.
    destruct (bool_decide (object <> Sun)); [|reflexivity].
    destruct (solarContainer d !! SolarObject.centerOfOrbit solarObj); reflexivity.
Qed.

End OrbitMore.

Lemma solarObjectPosition_Sun_witness :
  exists d' : Data,
    solarObjectPosition 100 Sun sampleSceneData = Some d' /\
    solarContainer d' !! Sun
    = Some (SolarObject.setRoll (0 + 1 / 25 * 360) (sampleObject Sun 0 0 0 25)).
Proof.
  apply (solarObjectPosition_Sun 100 sampleSceneData (sampleObject Sun 0 0 0 25)
           sampleScene); reflexivity.
Defined.

Lemma solarObjectPosition_syncs_visual_witness :
  exists (d' : Data) (planets' : PlanetArray) (solarObj' : SolarObject.t),
    solarObjectPosition 100 Earth sampleSceneData = Some d' /\
    container d' = Some planets' /\
    solarContainer d' !! Earth = Some solarObj' /\
    planets' !! Earth
    = Some (Some (SolarObject3D.mk
                    (SolarObject.x solarObj') (SolarObject.y solarObj')
                    (SolarObject.z solarObj') (SolarObject.roll solarObj') 5 6)).
Proof.
  apply (solarObjectPosition_syncs_visual 100 Earth sampleSceneData
           (sampleObject Sun 1 0 0 1) sampleScene sampleVisual).
  - reflexivity.
  - right. exists (sampleObject Sun 0 0 0 25). reflexivity.
  - reflexivity.
  - reflexivity.
Defined.

Lemma solarObjectPosition_frame_witness :
  exists (d' : Data) (planets' : PlanetArray) (x y z : R),
    solarObjectPosition 100 Earth sampleSceneData = Some d' /\
    container d' = Some planets' /\
    solarContainer d'
    = <[Earth := movedTo (sampleObject Sun 1 0 0 1) x y z
                   (advancedRoll sampleSceneData (sampleObject Sun 1 0 0 1))]>
        sampleContainer /\
    (forall k, k <> Earth -> planets' !! k = sampleScene !! k) /\
    d' = set_container (Some planets')
           (set_solarContainer (solarContainer d') sampleSceneData).
Proof.
  apply (solarObjectPosition_frame 100 Earth sampleSceneData
           (sampleObject Sun 1 0 0 1) sampleScene).
  - reflexivity.
  - right. exists (sampleObject Sun 0 0 0 25). reflexivity.
  - reflexivity.
Defined.

Lemma solarObjectPosition_null_dereference_witness :
  solarObjectPosition 100 Earth sampleData = None.
Proof.
  apply (proj2 (solarObjectPosition_null_dereference 100 Earth sampleData
                  (sampleObject Sun 1 0 0 1) eq_refl)).
  reflexivity.
Defined.

Section OrbitDistance.

Variable auScale : R.

(** The in-plane radius: [xv^2 + yv^2 = (a (1 - e cos E))^2]. *)
Lemma orbit_plane_radius a e E :
  e * e <= 1 ->
  a * (cos E - e) * (a * (cos E - e))
  + a * (sqrt (1 - e * e) * sin E) * (a * (sqrt (1 - e * e) * sin E))
  = (a * (1 - e * cos E)) * (a * (1 - e * cos E)).
Proof.
  intros He.
  assert (Hq : sqrt (1 - e * e) * sqrt (1 - e * e) = 1 - e * e)
    by (apply sqrt_sqrt; lra).
  pose proof (sin2_cos2 E) as H. unfold Rsqr in H.
  set (q := sqrt (1 - e * e)) in *. set (s := sin E) in *. set (c := cos E) in *.
  replace (a * (c - e) * (a * (c - e)) + a * (q * s) * (a * (q * s)))
    with (a * a * ((c - e) * (c - e) + (q * q) * (s * s))) by ring.
  rewrite Hq.
  replace (s * s) with (1 - c * c) by lra. ring.
Qed.

(** The rotation into the frame of the centre keeps the length of the
    offset. *)
Lemma orbitOffset_norm N iPlanet w a e E :
  e * e <= 1 ->
  let '(xh, yh, zh) := orbitOffset N iPlanet w a e E in
  xh * xh + yh * yh + zh * zh = (a * (1 - e * cos E)) * (a * (1 - e * cos E)).
Proof.
  intros He. unfold orbitOffset.
  rewrite (orbit_plane_radius a e E He).
  set (xv := a * (cos E - e)). set (yv := a * (sqrt (1 - e * e) * sin E)).
  set (v := atan2 yv xv).
  set (r := sqrt (a * (1 - e * cos E) * (a * (1 - e * cos E)))).
  assert (Hr : r * r = a * (1 - e * cos E) * (a * (1 - e * cos E)))
    by (apply sqrt_sqrt; apply (Rle_0_sqr (a * (1 - e * cos E)))).
  rewrite <- Hr.
  pose proof (sin2_cos2 N) as HN. pose proof (sin2_cos2 (v + w)) as Hv.
  pose proof (sin2_cos2 iPlanet) as Hi. unfold Rsqr in HN, Hv, Hi.
  replace (w + v) with (v + w) by ring.
  set (cN := cos N) in *. set (sN := sin N) in *.
  set (c := cos (v + w)) in *. set (s := sin (v + w)) in *.
  set (ci := cos iPlanet) in *. set (si := sin iPlanet) in *.
  replace (r * (cN * c - sN * s * ci) * (r * (cN * c - sN * s * ci)) +
           r * (s * si) * (r * (s * si)) +
           - r * (sN * c + cN * s * ci) * (- r * (sN * c + cN * s * ci)))
    with (r * r * ((sN * sN + cN * cN) * (c * c + s * s * (ci * ci))
                   + s * s * (si * si))) by ring.
  rewrite HN.
  replace (1 * (c * c + s * s * (ci * ci)) + s * s * (si * si))
    with (c * c + s * s * (si * si + ci * ci)) by ring.
  rewrite Hi. replace (c * c + s * s * 1) with (s * s + c * c) by ring.
  rewrite Hv. ring.
Qed.

(** The distance of the solved position from the centre of orbit. *)
Lemma solarObjectPosition_distance_law
    (object : SolarObjects) (d : Data) (solarObj centerObj : SolarObject.t)
    (planets : PlanetArray) :
  object <> Sun ->
  solarContainer d !! object = Some solarObj ->
  solarContainer d !! SolarObject.centerOfOrbit solarObj = Some centerObj ->
  container d = Some planets ->
  let t := currentTimeD d in
  let a := elementAt (SolarObject.a1 solarObj) (SolarObject.a2 solarObj) t in
  let e := elementAt (SolarObject.e1 solarObj) (SolarObject.e2 solarObj) t in
  let M := elementAt (SolarObject.M1 solarObj) (SolarObject.M2 solarObj) t * PI / 180 in
  let E := spec_eccentricAnomaly M e in
  -1 <= e <= 1 ->
  exists (d' : Data) (solarObj' : SolarObject.t),
    solarObjectPosition auScale object d = Some d' /\
    solarContainer d' !! object = Some solarObj' /\
    distance (positionOf solarObj') (positionOf centerObj)
    = Rabs (a * (1 - e * cos E) * auScale).
Proof.
  intros Hne Hso Hce Hc t a e M E He.
  destruct (solarObjectPosition_solved auScale object d solarObj centerObj planets
              Hne Hso Hce Hc) as (solarObj' & Hrun & Hpos & _).
  eexists. exists solarObj'. split; [exact Hrun|].
  split; [apply lookup_insert_eq|].
  unfold offsetAt in Hpos. fold t in Hpos. fold a e M in Hpos. fold E in Hpos.
  match type of Hpos with
  | context [orbitOffset ?N ?i ?w a e E] =>
      assert (Hoff := orbitOffset_norm N i w a e E);
      destruct (orbitOffset N i w a e E) as [[xh yh] zh]
  end.
  assert (He2 : e * e <= 1) by nra. specialize (Hoff He2).
  unfold positionOf in Hpos |- *. injection Hpos as -> -> ->.
  unfold distance.
  replace ((SolarObject.x centerObj + xh * auScale - SolarObject.x centerObj) *
           (SolarObject.x centerObj + xh * auScale - SolarObject.x centerObj) +
           (SolarObject.y centerObj + yh * auScale - SolarObject.y centerObj) *
           (SolarObject.y centerObj + yh * auScale - SolarObject.y centerObj) +
           (SolarObject.z centerObj + zh * auScale - SolarObject.z centerObj) *
           (SolarObject.z centerObj + zh * auScale - SolarObject.z centerObj))
    with ((xh * xh + yh * yh + zh * zh) * (auScale * auScale)) by ring.
  rewrite Hoff.
  replace (a * (1 - e * cos E) * (a * (1 - e * cos E)) * (auScale * auScale))
    with (Rsqr (a * (1 - e * cos E) * auScale)) by (unfold Rsqr; ring).
  apply sqrt_Rsqr_abs.
Qed.

(** The solved position of a body other than the Sun lies at the distance
    [|a (1 - e cos E) auScale|] from the position its centre of orbit had
    at the call, whatever the node, inclination and perihelion angles; [E]
    is the eccentric anomaly of the single step and the eccentricity is at
    most 1 in absolute value. *)
Theorem solarObjectPosition_distance
    (object : SolarObjects) (d : Data) (solarObj centerObj : SolarObject.t)
    (planets : PlanetArray) :
  object <> Sun ->
  solarContainer d !! object = Some solarObj ->
  solarContainer d !! SolarObject.centerOfOrbit solarObj = Some centerObj ->
  container d = Some planets ->
  let t := currentTimeD d in
  let a := elementAt (SolarObject.a1 solarObj) (SolarObject.a2 solarObj) t in
  let e := elementAt (SolarObject.e1 solarObj) (SolarObject.e2 solarObj) t in
  let M := elementAt (SolarObject.M1 solarObj) (SolarObject.M2 solarObj) t * PI / 180 in
  let E := spec_eccentricAnomaly M e in
  -1 <= e <= 1 ->
  exists (d' : Data) (solarObj' : SolarObject.t),
    solarObjectPosition auScale object d = Some d' /\
    solarContainer d' !! object = Some solarObj' /\
    distance (positionOf solarObj') (positionOf centerObj)
    = Rabs (a * (1 - e * cos E) * auScale).
Proof. exact (solarObjectPosition_distance_law object d solarObj centerObj planets). Qed.

(** For an eccentricity between 0 and 1 (semi-major axis and unit scale
    not negative) the solved position lies between the perihelion distance
    [a (1 - e) auScale] and the aphelion distance [a (1 + e) auScale] from
    the centre of orbit. *)
Theorem solarObjectPosition_between_apsides
    (object : SolarObjects) (d : Data) (solarObj centerObj : SolarObject.t)
    (planets : PlanetArray) :
  object <> Sun ->
  solarContainer d !! object = Some solarObj ->
  solarContainer d !! SolarObject.centerOfOrbit solarObj = Some centerObj ->
  container d = Some planets ->
  let t := currentTimeD d in
  let a := elementAt (SolarObject.a1 solarObj) (SolarObject.a2 solarObj) t in
  let e := elementAt (SolarObject.e1 solarObj) (SolarObject.e2 solarObj) t in
  0 <= e <= 1 -> 0 <= a -> 0 <= auScale ->
  exists (d' : Data) (solarObj' : SolarObject.t),
    solarObjectPosition auScale object d = Some d' /\
    solarContainer d' !! object = Some solarObj' /\
    a * (1 - e) * auScale
    <= distance (positionOf solarObj') (positionOf centerObj)
    <= a * (1 + e) * auScale.
Proof.
  intros Hne Hso Hce Hc t a e He Ha Hau.
  destruct (solarObjectPosition_distance_law object d solarObj centerObj planets
              Hne Hso Hce Hc) as (d' & solarObj' & Hrun & Hlook & Hdist).
  { fold t. fold e. lra. }
  exists d', solarObj'. split; [exact Hrun|]. split; [exact Hlook|].
  rewrite Hdist. fold t. fold a e.
  set (E := spec_eccentricAnomaly _ _).
  pose proof (COS_bound E) as [Hlo Hhi].
  assert (H1 : 0 <= 1 - e * cos E) by nra.
  rewrite Rabs_pos_eq by (apply Rmult_le_pos; [apply Rmult_le_pos|]; assumption).
  assert (Hau' : 0 <= a * auScale) by (apply Rmult_le_pos; assumption).
  split.
  - replace (a * (1 - e) * auScale) with ((a * auScale) * (1 - e)) by ring.
    replace (a * (1 - e * cos E) * auScale) with ((a * auScale) * (1 - e * cos E)) by ring.
    apply Rmult_le_compat_l; [exact Hau' | nra].
  - replace (a * (1 + e) * auScale) with ((a * auScale) * (1 + e)) by ring.
    replace (a * (1 - e * cos E) * auScale) with ((a * auScale) * (1 - e * cos E)) by ring.
    apply Rmult_le_compat_l; [exact Hau' | nra].
Qed.

End OrbitDistance.

Lemma solarObjectPosition_distance_witness :
  exists (d' : Data) (solarObj' : SolarObject.t),
    solarObjectPosition 100 Mars sampleEccentricData = Some d' /\
    solarContainer d' !! Mars = Some solarObj' /\
    distance (positionOf solarObj') (positionOf (sampleObject Sun 0 0 0 25))
    = Rabs (elementAt 2 0 0
            * (1 - elementAt (1 / 2) 0 0
                   * cos (spec_eccentricAnomaly (elementAt 90 0 0 * PI / 180)
                            (elementAt (1 / 2) 0 0)))
            * 100).
Proof.
  apply (solarObjectPosition_distance 100 Mars sampleEccentricData sampleMars
           (sampleObject Sun 0 0 0 25) sampleScene).
  - discriminate.
  - reflexivity.
  - reflexivity.
  - reflexivity.
  - unfold elementAt. cbn. lra.
Defined.

Lemma solarObjectPosition_between_apsides_witness :
  exists (d' : Data) (solarObj' : SolarObject.t),
    solarObjectPosition 100 Mars sampleEccentricData = Some d' /\
    solarContainer d' !! Mars = Some solarObj' /\
    elementAt 2 0 0 * (1 - elementAt (1 / 2) 0 0) * 100
    <= distance (positionOf solarObj') (positionOf (sampleObject Sun 0 0 0 25))
    <= elementAt 2 0 0 * (1 + elementAt (1 / 2) 0 0) * 100.
Proof.
  apply (solarObjectPosition_between_apsides 100 Mars sampleEccentricData sampleMars
           (sampleObject Sun 0 0 0 25) sampleScene).
  - discriminate.
  - reflexivity.
  - reflexivity.
  - reflexivity.
  - unfold elementAt. cbn. lra.
  - unfold elementAt. cbn. lra.
  - lra.
Defined.

Section OrbitCompose.

Variable auScale : R.

Lemma movedTo_fields solarObj x y z roll :
  SolarObject.period (movedTo solarObj x y z roll) = SolarObject.period solarObj /\
  SolarObject.centerOfOrbit (movedTo solarObj x y z roll)
  = SolarObject.centerOfOrbit solarObj /\
  SolarObject.roll (movedTo solarObj x y z roll) = roll /\
  positionOf (movedTo solarObj x y z roll) = (x, y, z).
Proof. destruct solarObj. repeat split. Qed.

(** The complete result of a call, in the shape the compositions use. *)
Lemma solarObjectPosition_step object d solarObj (planets : PlanetArray) :
  solarContainer d !! object = Some solarObj ->
  object = Sun \/ is_Some (solarContainer d !! SolarObject.centerOfOrbit solarObj) ->
  container d = Some planets ->
  exists (d' : Data) (planets' : PlanetArray) (x y z : R),
    solarObjectPosition auScale object d = Some d' /\
    container d' = Some planets' /\
    solarContainer d'
    = <[object := movedTo solarObj x y z (advancedRoll d solarObj)]> (solarContainer d) /\
    currentTimeD d' = currentTimeD d /\ deltaTimeD d' = deltaTimeD d /\
    d' = set_container (Some planets') (set_solarContainer (solarContainer d') d).
Proof.
  intros Hso Hcenter Hc.
  destruct (solarObjectPosition_run auScale object d solarObj planets Hso Hcenter Hc)
    as (x & y & z & Hrun & _).
  eexists; eexists; exists x, y, z. split; [exact Hrun|]. repeat split.
Qed.

(** Centre before dependent: when the centre of orbit is solved first and
    the dependent body next, the dependent is placed relative to the
    position the centre has just been given, and the second call leaves
    the centre where the first put it. *)
Theorem solarObjectPosition_center_then_dependent
    (center object : SolarObjects) (d : Data)
    (centerObj solarObj : SolarObject.t) (planets : PlanetArray) :
  object <> Sun -> object <> center ->
  solarContainer d !! center = Some centerObj ->
  center = Sun \/ is_Some (solarContainer d !! SolarObject.centerOfOrbit centerObj) ->
  solarContainer d !! object = Some solarObj ->
  SolarObject.centerOfOrbit solarObj = center ->
  container d = Some planets ->
  exists (d1 d2 : Data) (centerObj' solarObj' : SolarObject.t),
    solarObjectPosition auScale center d = Some d1 /\
    solarObjectPosition auScale object d1 = Some d2 /\
    solarContainer d1 !! center = Some centerObj' /\
    solarContainer d2 !! center = Some centerObj' /\
    solarContainer d2 !! object = Some solarObj' /\
    let t := currentTimeD d in
    let E := spec_eccentricAnomaly
               (elementAt (SolarObject.M1 solarObj) (SolarObject.M2 solarObj) t
                * PI / 180)
               (elementAt (SolarObject.e1 solarObj) (SolarObject.e2 solarObj) t) in
    let '(xh, yh, zh) := offsetAt solarObj t E in
    positionOf solarObj'
    = (SolarObject.x centerObj' + xh * auScale,
       SolarObject.y centerObj' + yh * auScale,
       SolarObject.z centerObj' + zh * auScale).
Proof.
  intros Hsun Hne Hce Hcc Hso Hcen Hc.
  destruct (solarObjectPosition_step center d centerObj planets Hce Hcc Hc)
    as (d1 & P1 & x & y & z & Hrun1 & Hc1 & Hsc1 & Ht1 & _ & _).
  set (centerObj' := movedTo centerObj x y z (advancedRoll d centerObj)) in *.
  assert (Hso1 : solarContainer d1 !! object = Some solarObj)
    by (rewrite Hsc1, lookup_insert_ne by congruence; exact Hso).
  assert (Hce1 : solarContainer d1 !! SolarObject.centerOfOrbit solarObj
                 = Some centerObj')
    by (rewrite Hcen, Hsc1; apply lookup_insert_eq).
  destruct (solarObjectPosition_solved auScale object d1 solarObj centerObj' P1
              Hsun Hso1 Hce1 Hc1) as (solarObj' & Hrun2 & Hpos & _).
  eexists d1, _, centerObj', solarObj'.
  split; [exact Hrun1|]. split; [exact Hrun2|].
  split; [rewrite Hsc1; apply lookup_insert_eq|].
  cbn [solarContainer set_container set_solarContainer].
  split; [rewrite lookup_insert_ne by congruence; rewrite Hsc1; apply lookup_insert_eq|].
  split; [apply lookup_insert_eq|].
  rewrite Ht1 in Hpos. exact Hpos.
Qed.

(** The roll is never wrapped: after [n] calls in a row for the same body
    (the frame delta unchanged) the registered roll is the initial roll
    plus [n] times [deltaTimeD / period * 360]. *)
Theorem solarObjectPosition_roll_accumulates
    (object : SolarObjects) (d : Data) (solarObj : SolarObject.t)
    (planets : PlanetArray) (n : nat) :
  solarContainer d !! object = Some solarObj ->
  object = Sun \/ is_Some (solarContainer d !! SolarObject.centerOfOrbit solarObj) ->
  container d = Some planets ->
  exists (d' : Data) (solarObj' : SolarObject.t),
    solarObjectPosition_times auScale object n d = Some d' /\
    solarContainer d' !! object = Some solarObj' /\
    SolarObject.roll solarObj'
    = SolarObject.roll solarObj
      + INR n * (deltaTimeD d / SolarObject.period solarObj * 360).
Proof.
  intros Hso Hcenter Hc.
  assert (H : exists d' solarObj' (planets' : PlanetArray),
             solarObjectPosition_times auScale object n d = Some d' /\
             solarContainer d' !! object = Some solarObj' /\
             SolarObject.roll solarObj'
             = SolarObject.roll solarObj
               + INR n * (deltaTimeD d / SolarObject.period solarObj * 360) /\
             SolarObject.period solarObj' = SolarObject.period solarObj /\
             SolarObject.centerOfOrbit solarObj' = SolarObject.centerOfOrbit solarObj /\
             (object = Sun \/
              is_Some (solarContainer d' !! SolarObject.centerOfOrbit solarObj)) /\
             container d' = Some planets' /\
             deltaTimeD d' = deltaTimeD d).
  { induction n as [|n IH].
    - exists d, solarObj, planets. repeat split; trivial. cbn [INR]. lra.
    - destruct IH as (dn & on & Pn & Hrun & Hon & Hroll & Hper & Hcen & Hcc & Hcn & Hdt).
      assert (Hcc' : object = Sun \/
                     is_Some (solarContainer dn !! SolarObject.centerOfOrbit on))
        by (rewrite Hcen; exact Hcc).
      destruct (solarObjectPosition_step object dn on Pn Hon Hcc' Hcn)
        as (d' & P' & x & y & z & Hrun' & Hc' & Hsc' & _ & Hdt' & _).
      destruct (movedTo_fields on x y z (advancedRoll dn on))
        as (Hp' & Hce' & Hr' & _).
      exists d', (movedTo on x y z (advancedRoll dn on)), P'.
      split.
      { change (solarObjectPosition_times auScale object (S n) d)
          with (d0 ← solarObjectPosition_times auScale object n d;
                solarObjectPosition auScale object d0).
        rewrite Hrun. exact Hrun'. }
      split; [rewrite Hsc'; apply lookup_insert_eq|].
      split.
      { rewrite Hr'. unfold advancedRoll. rewrite Hroll, Hper, Hdt, S_INR. ring. }
      split; [congruence|]. split; [congruence|]. split; [|split; congruence].
      destruct Hcc as [Hs | Hsome]; [now left | right].
      rewrite Hsc'.
      destruct (decide (object = SolarObject.centerOfOrbit solarObj)) as [<- | Hne].
      + rewrite lookup_insert_eq. eauto.
      + now rewrite lookup_insert_ne by exact Hne. }
  destruct H as (d' & solarObj' & _ & Hrun & Hlook & Hroll & _).
  now exists d', solarObj'.
Qed.

End OrbitCompose.

Lemma solarObjectPosition_center_then_dependent_witness :
  exists (d1 d2 : Data) (centerObj' solarObj' : SolarObject.t),
    solarObjectPosition 100 Earth sampleEccentricData = Some d1 /\
    solarObjectPosition 100 Moon d1 = Some d2 /\
    solarContainer d1 !! Earth = Some centerObj' /\
    solarContainer d2 !! Earth = Some centerObj' /\
    solarContainer d2 !! Moon = Some solarObj' /\
    let t := 0 in
    let E := spec_eccentricAnomaly (elementAt 0 0 t * PI / 180) (elementAt 0 0 t) in
    let '(xh, yh, zh) := offsetAt sampleMoon t E in
    positionOf solarObj'
    = (SolarObject.x centerObj' + xh * 100,
       SolarObject.y centerObj' + yh * 100,
       SolarObject.z centerObj' + zh * 100).
Proof.
  apply (solarObjectPosition_center_then_dependent 100 Earth Moon
           sampleEccentricData (sampleObject Sun 1 0 0 1) sampleMoon sampleScene).
  - discriminate.
  - discriminate.
  - reflexivity.
  - right. exists (sampleObject Sun 0 0 0 25). reflexivity.
  - reflexivity.
  - reflexivity.
  - reflexivity.
Defined.

Lemma solarObjectPosition_roll_accumulates_witness :
  exists (d' : Data) (solarObj' : SolarObject.t),
    solarObjectPosition_times 100 Earth 1000 sampleSceneData = Some d' /\
    solarContainer d' !! Earth = Some solarObj' /\
    SolarObject.roll solarObj' = 0 + INR 1000 * (1 / 1 * 360).
Proof.
  apply (solarObjectPosition_roll_accumulates 100 Earth sampleSceneData
           (sampleObject Sun 1 0 0 1) sampleScene 1000).
  - reflexivity.
  - right. exists (sampleObject Sun 0 0 0 25). reflexivity.
  - reflexivity.
Defined.

(** ** Null entries of the scene *)

Section NullEntries.

Variable auScale : R.

(** Solving a registered body that is not in the scene puts its key in the
    scene with a null pointer ([planets[object]] on a missing key), and the
    next [changeSolarSystemScale] dereferences it when the body is the Sun,
    a planet or the Moon. *)
Theorem solarObjectPosition_missing_then_scale
    (object : SolarObjects) (d : Data) (solarObj : SolarObject.t)
    (planets : PlanetArray) :
  solarContainer d !! object = Some solarObj ->
  object = Sun \/ is_Some (solarContainer d !! SolarObject.centerOfOrbit solarObj) ->
  container d = Some planets ->
  planets !! object = None ->
  scaled_body object = true ->
  exists d1 : Data,
    solarObjectPosition auScale object d = Some d1 /\
    container d1 = Some (<[object := None]> planets) /\
    forall (parse : SolarObjects -> R) (scale : R) (focused : bool),
      changeSolarSystemScale parse scale focused d1 = None.
Proof.
  intros Hso Hcenter Hc Hvis Hb.
  destruct (solarObjectPosition_run auScale object d solarObj planets Hso Hcenter Hc)
    as (x & y & z & Hrun & _).
  assert (Hsync : forall o, synced planets object o = <[object := None]> planets)
    by (intros o; unfold synced; now rewrite Hvis).
  cbv zeta in Hrun. rewrite Hsync in Hrun.
  match type of Hrun with _ = Some ?r => set (d1 := r) in * end.
  exists d1. split; [exact Hrun|]. split; [reflexivity|].
  intros parse scale focused.
  unfold changeSolarSystemScale.
  destruct (setSolarObjectsScale_frame scale focused d1) as (_ & _ & Hc' & _).
  rewrite Hc'. change (container d1) with (Some (<[object := None]> planets)).
  cbn [mbind option_bind].
  rewrite <- (changeSolarSystemScale_any_order parse _ (<[object := None]> planets)
                ((object, None) :: map_to_list (delete object (<[object := None]> planets))))
    by (apply map_to_list_delete, lookup_insert_eq).
  cbn [foldr uncurry].
  destruct (foldr _ _ _) as [d0|]; [|reflexivity].
  destruct object; (discriminate || reflexivity).
Qed.

(** Solving a registered Saturn that is not in the scene while its ring
    is: [setupPlanetRings] returned before the call and dereferences the
    null pointer after it. *)
Theorem solarObjectPosition_missing_parent_then_rings
    (d : Data) (saturn : SolarObject.t) (planets : PlanetArray)
    (ring : SolarObject3D.t) :
  solarContainer d !! Saturn = Some saturn ->
  is_Some (solarContainer d !! SolarObject.centerOfOrbit saturn) ->
  container d = Some planets -> no_null planets ->
  planets !! Saturn = None ->
  planets !! SaturnRing = Some (Some ring) ->
  exists d1 : Data,
    is_Some (setupPlanetRings d) /\
    solarObjectPosition auScale Saturn d = Some d1 /\
    setupPlanetRings d1 = None.
Proof.
  intros Hso Hcenter Hc Hnn Hsat Hring.
  destruct (solarObjectPosition_run auScale Saturn d saturn planets Hso
              (or_intror Hcenter) Hc) as (x & y & z & Hrun & _).
  cbv zeta in Hrun. unfold synced in Hrun. rewrite Hsat in Hrun.
  match type of Hrun with _ = Some ?r => set (d1 := r) in * end.
  exists d1. split; [|split; [exact Hrun|]].
  - rewrite (setupPlanetRings_follow d planets Hc Hnn). eauto.
  - unfold setupPlanetRings.
    change (container d1) with (Some (<[Saturn := None]> planets)).
    cbn [mbind option_bind].
    unfold planets_count, planets_index.
    assert (H1 : <[Saturn := None]> planets !! SaturnRing = Some (Some ring))
      by (rewrite lookup_insert_ne by discriminate; exact Hring).
    assert (H2 : <[Saturn := None]> planets !! Saturn = Some None)
      by apply lookup_insert_eq.
    rewrite H1, H2. rewrite !bool_decide_eq_true_2 by eauto.
    cbn [andb]. rewrite H1. reflexivity.
Qed.

End NullEntries.

Lemma solarObjectPosition_missing_then_scale_witness :
  exists d1 : Data,
    solarObjectPosition 100 Uranus sampleSceneData = Some d1 /\
    container d1 = Some (<[Uranus := None]> sampleScene) /\
    forall (parse : SolarObjects -> R) (scale : R) (focused : bool),
      changeSolarSystemScale parse scale focused d1 = None.
Proof.
  apply (solarObjectPosition_missing_then_scale 100 Uranus sampleSceneData
           (sampleObject Sun 19 0 0 4) sampleScene).
  - reflexivity.
  - right. exists (sampleObject Sun 0 0 0 25). reflexivity.
  - reflexivity.
  - reflexivity.
  - reflexivity.
Defined.

Lemma solarObjectPosition_missing_parent_then_rings_witness :
  exists d1 : Data,
    is_Some (setupPlanetRings
               (setPlanetsContainer (Some (delete Saturn sampleScene)) sampleData)) /\
    solarObjectPosition 100 Saturn
      (setPlanetsContainer (Some (delete Saturn sampleScene)) sampleData) = Some d1 /\
    setupPlanetRings d1 = None.
Proof.
  apply (solarObjectPosition_missing_parent_then_rings 100
           (setPlanetsContainer (Some (delete Saturn sampleScene)) sampleData)
           (sampleObject Sun 10 0 0 2) (delete Saturn sampleScene) sampleVisual).
  - reflexivity.
  - exists (sampleObject Sun 0 0 0 25). reflexivity.
  - reflexivity.
  - intros k Hk. apply lookup_delete_Some in Hk as [_ Hk].
    exact (no_null_sampleScene k Hk).
  - reflexivity.
  - reflexivity.
Defined.

(** ** Hierarchy propagation, continued *)

Section HierarchyMore.

Lemma spec_follow_lookup_dep dep parent q radius (planets : PlanetArray) :
  spec_follow dep parent q radius planets !! dep
  = match planets !! dep, planets !! parent with
    | Some (Some _), Some (Some p) =>
        Some (Some (followed p (SolarObject3D.roll p / q) (radius p)))
    | _, _ => planets !! dep
    end.
Proof.
  unfold spec_follow.
  destruct (planets !! dep) as [[dv|]|] eqn:Hd; rewrite ?Hd; trivial.
  destruct (planets !! parent) as [[p|]|]; rewrite ?Hd; trivial.
  apply lookup_insert_eq.
Qed.

(** A step repeated on a table that kept the parent and already holds the
    dependent the step produces changes nothing. *)
Lemma spec_follow_settled dep parent q radius (planets settled : PlanetArray) :
  dep <> parent ->
  settled !! parent = planets !! parent ->
  settled !! dep = spec_follow dep parent q radius planets !! dep ->
  spec_follow dep parent q radius settled = settled.
Proof.
  intros Hne Hp Hd. apply map_eq. intros j.
  destruct (decide (j = dep)) as [-> | Hj];
    [|now apply spec_follow_other].
  rewrite spec_follow_lookup_dep, Hp, Hd, spec_follow_lookup_dep.
  destruct (planets !! dep) as [[dv|]|]; trivial;
    destruct (planets !! parent) as [[p|]|]; trivial.
Qed.

(** The result of [additionalCalculation] on a scene of live bodies. *)
Lemma additionalCalculation_follow d (planets : PlanetArray) :
  container d = Some planets -> no_null planets ->
  additionalCalculation d
  = Some (set_container
            (Some (spec_follow EarthCloud Earth 1.2
                     (fun earth => SolarObject3D.r earth * earthCloudRModifier d)
                     (spec_follow UranusRing Uranus 10
                        (fun _ => (uranusRingInnerRadius d + uranusRingOuterRadius d) / 1.75)
                        (spec_follow SaturnRing Saturn 10
                           (fun _ => (saturnRingInnerRadius d + saturnRingOuterRadius d) / 1.75)
                           planets)))) d).
Proof.
  intros Hc Hnn. unfold additionalCalculation.
  rewrite (setupPlanetRings_follow d planets Hc Hnn). cbn [mbind option_bind].
  erewrite atmosphereCalculations_follow; [reflexivity | reflexivity |].
  do 2 apply no_null_spec_follow. exact Hnn.
Qed.

(** [additionalCalculation] repeated on a scene of live bodies changes
    nothing more: the dependents are derived from their parents, which the
    step leaves alone. *)
Theorem additionalCalculation_idempotent (d : Data) (planets : PlanetArray) :
  container d = Some planets -> no_null planets ->
  exists d1 : Data,
    additionalCalculation d = Some d1 /\
    additionalCalculation d1 = Some d1.
Proof.
  intros Hc Hnn. eexists. split; [apply (additionalCalculation_follow d planets Hc Hnn)|].
  set (fS := fun _ : SolarObject3D.t =>
               (saturnRingInnerRadius d + saturnRingOuterRadius d) / 1.75).
  set (fU := fun _ : SolarObject3D.t =>
               (uranusRingInnerRadius d + uranusRingOuterRadius d) / 1.75).
  set (fE := fun earth : SolarObject3D.t =>
               SolarObject3D.r earth * earthCloudRModifier d).
  set (P1 := spec_follow SaturnRing Saturn 10 fS planets).
  set (P2 := spec_follow UranusRing Uranus 10 fU P1).
  set (P3 := spec_follow EarthCloud Earth 1.2 fE P2).
  assert (Hnn3 : no_null P3) by (do 3 apply no_null_spec_follow; exact Hnn).
  rewrite (additionalCalculation_follow (set_container (Some P3) d) P3 eq_refl Hnn3).
  cbn [saturnRingInnerRadius saturnRingOuterRadius uranusRingInnerRadius
         uranusRingOuterRadius earthCloudRModifier set_container].
  fold fS fU fE.
  assert (HS : spec_follow SaturnRing Saturn 10 fS P3 = P3).
  { apply (spec_follow_settled _ _ _ _ planets); [discriminate| |];
      unfold P3, P2; rewrite !spec_follow_other by discriminate;
      [apply spec_follow_other; discriminate | reflexivity]. }
  rewrite HS.
  assert (HU : spec_follow UranusRing Uranus 10 fU P3 = P3).
  { apply (spec_follow_settled _ _ _ _ P1); [discriminate| |];
      unfold P3; rewrite !spec_follow_other by discriminate;
      [apply spec_follow_other; discriminate | reflexivity]. }
  rewrite HU.
  assert (HE : spec_follow EarthCloud Earth 1.2 fE P3 = P3).
  { apply (spec_follow_settled _ _ _ _ P2); [discriminate| |];
      [apply spec_follow_other; discriminate | reflexivity]. }
  rewrite HE. reflexivity.
Qed.

End HierarchyMore.

Lemma additionalCalculation_idempotent_witness :
  exists d1 : Data,
    additionalCalculation sampleSceneData = Some d1 /\
    additionalCalculation d1 = Some d1.
Proof.
  apply (additionalCalculation_idempotent sampleSceneData sampleScene).
  - reflexivity.
  - exact no_null_sampleScene.
Defined.

(** ** Time model, continued *)

(** Reduction of field reads over field assignments. *)
Ltac data_simpl :=
  cbn [year month day hours minutes seconds solarTime deltaTime startD
       oldTimeD currentTimeD deltaTimeD daysPerFrame daysPerFrameScale
       planetScale focusedScaling focusedMinimumScale actualScale
       ultraSpeed ultraSpeedStep ultraSpeedMax saturnRingInnerRadius
       saturnRingOuterRadius uranusRingInnerRadius uranusRingOuterRadius
       earthCloudRModifier solarContainer container cameraController
       set_year set_month set_day set_hours set_minutes set_seconds
       set_solarTime set_deltaTime set_oldTimeD set_currentTimeD
       set_deltaTimeD set_daysPerFrame set_daysPerFrameScale
       set_planetScale set_actualScale set_ultraSpeed
       set_saturnRingInnerRadius set_saturnRingOuterRadius
       set_uranusRingInnerRadius set_uranusRingOuterRadius
       set_solarContainer set_container set_cameraController
       mbind option_bind from_option].

Ltac data_simpl_in H :=
  cbn [year month day hours minutes seconds solarTime deltaTime startD
       oldTimeD currentTimeD deltaTimeD daysPerFrame daysPerFrameScale
       planetScale focusedScaling focusedMinimumScale actualScale
       ultraSpeed ultraSpeedStep ultraSpeedMax saturnRingInnerRadius
       saturnRingOuterRadius uranusRingInnerRadius uranusRingOuterRadius
       earthCloudRModifier solarContainer container cameraController
       set_year set_month set_day set_hours set_minutes set_seconds
       set_solarTime set_deltaTime set_oldTimeD set_currentTimeD
       set_deltaTimeD set_daysPerFrame set_daysPerFrameScale
       set_planetScale set_actualScale set_ultraSpeed
       set_saturnRingInnerRadius set_saturnRingOuterRadius
       set_uranusRingInnerRadius set_uranusRingOuterRadius
       set_solarContainer set_container set_cameraController
       mbind option_bind from_option] in H.

Section TimeMore.

Variable calculateTimeScale : Z -> Z -> Z -> R.
Variable calculateUT : Z -> Z -> R -> R.
Variable dateOf : QDateTime -> QDate.t.
Variable timeOf : QDateTime -> QTime.t.

Lemma truncate_small (x : R) : -1 < x < 1 -> truncate x = 0%Z.
Proof.
  intros [Hlo Hhi]. unfold truncate. destruct (Rle_dec 0 x) as [H | H].
  - symmetry. apply Int_part_spec. cbn. lra.
  - assert (E : Int_part (- x) = 0%Z) by (symmetry; apply Int_part_spec; cbn; lra).
    now rewrite E.
Qed.

(** The days-per-frame [advanceTime] stores, when it returns. *)
Lemma advanceTime_run object d :
  object = SolarSystemView \/ is_Some (solarContainer d !! object) ->
  exists dpf : R,
    dpf = daysPerFrameScale d * spec_periodFactor object (periodOf d object) /\
    exists d' : Data,
      advanceTime calculateTimeScale calculateUT dateOf timeOf object d = Some d' /\
      daysPerFrame d' = dpf /\
      solarTime d' = addMSecs (solarTime d) (frameMSecs dpf d) /\
      currentTimeD d' = elapsedDaysOf calculateTimeScale calculateUT dateOf timeOf
                          (solarTime d') /\
      oldTimeD d' = currentTimeD d /\
      deltaTimeD d' = currentTimeD d' - oldTimeD d' /\
      (year d', month d', day d')
      = (QDate.year (dateOf (solarTime d')), QDate.month (dateOf (solarTime d')),
         QDate.day (dateOf (solarTime d'))) /\
      (hours d', minutes d', seconds d')
      = (QTime.hour (timeOf (solarTime d')), QTime.minute (timeOf (solarTime d')),
         IZR (QTime.second (timeOf (solarTime d')))) /\
      outsideClock d' = outsideClock d.
Proof.
  intros Hobj.
  assert (Hdpf : exists dpf,
             dpf = daysPerFrameScale d * spec_periodFactor object (periodOf d object) /\
             (if bool_decide (object = SolarSystemView) then
                Some (set_daysPerFrame (daysPerFrameScale d) d)
              else if bool_decide (object = Mercury) || bool_decide (object = Venus) then
                solarObj ← solarContainer d !! object;
                Some (set_daysPerFrame
                        (daysPerFrameScale d * SolarObject.period solarObj / 15000) d)
              else
                solarObj ← solarContainer d !! object;
                Some (set_daysPerFrame
                        (daysPerFrameScale d * SolarObject.period solarObj / 100) d))
             = Some (set_daysPerFrame dpf d)).
  { unfold periodOf.
    destruct (bool_decide (object = SolarSystemView)) eqn:Hview.
    - apply bool_decide_eq_true in Hview. subst object.
      exists (daysPerFrameScale d). split; [cbn [spec_periodFactor]; lra | reflexivity].
    - apply bool_decide_eq_false in Hview.
      destruct Hobj as [? | [solarObj Hso]]; [contradiction|].
      rewrite Hso. cbn [from_option mbind option_bind].
      destruct (bool_decide (object = Mercury) || bool_decide (object = Venus))
        eqn:Hinner.
      + eexists. split; [|reflexivity].
        apply orb_prop in Hinner as [H | H]; apply bool_decide_eq_true in H;
          subst object; cbn [spec_periodFactor]; unfold Rdiv; ring.
      + eexists. split; [|reflexivity].
        apply orb_false_elim in Hinner as [Hm Hv].
        apply bool_decide_eq_false in Hm, Hv.
        destruct object; try contradiction; cbn [spec_periodFactor];
          unfold Rdiv; ring. }
  destruct Hdpf as (dpf & Hval & Hfirst).
  exists dpf. split; [exact Hval|].
  unfold advanceTime. rewrite Hfirst. clear Hfirst Hval Hobj.
  destruct d. unfold outsideClock, scaleState, ringRadii, frameMSecs.
  data_simpl. eexists. split; [reflexivity|].
  data_simpl. repeat split.
Qed.

(** [advanceTime] returns exactly for the whole-system view and for a
    focus with a record in the registry: for any other focus it reads the
    period through a null pointer. *)
Theorem advanceTime_returns_iff (object : SolarObjects) (d : Data) :
  is_Some (advanceTime calculateTimeScale calculateUT dateOf timeOf object d)
  <-> object = SolarSystemView \/ is_Some (solarContainer d !! object).
Proof.
  split.
  - intros [d' Hd']. unfold advanceTime in Hd'.
    destruct (bool_decide (object = SolarSystemView)) eqn:Hview;
      [left; now apply bool_decide_eq_true in Hview | right].
    destruct (solarContainer d !! object) as [solarObj|]; [eauto|].
    destruct (bool_decide (object = Mercury) || bool_decide (object = Venus));
      discriminate.
  - intros Hobj. destruct (advanceTime_run object d Hobj) as (_ & _ & d' & Hrun & _).
    eauto.
Qed.

(** After [advanceTime] the clock is consistent: the timestamp moved by
    the frame's milliseconds (frame seconds * 1000 * days-per-frame * burst
    multiplier, the fraction dropped), the calendar fields and the elapsed
    days are the ones of the new timestamp, the previous elapsed days are
    kept in [oldTimeD] and [deltaTimeD] is their difference.  Nothing
    outside the clock changes. *)
Theorem advanceTime_clock (object : SolarObjects) (d : Data) :
  object = SolarSystemView \/ is_Some (solarContainer d !! object) ->
  exists d' : Data,
    advanceTime calculateTimeScale calculateUT dateOf timeOf object d = Some d' /\
    solarTime d'
    = addMSecs (solarTime d)
        (truncate (deltaTime d * 1000 * daysPerFrame d' * ultraSpeed d)) /\
    clock_in_sync calculateTimeScale calculateUT dateOf timeOf d' /\
    oldTimeD d' = currentTimeD d /\
    deltaTimeD d' = currentTimeD d' - currentTimeD d /\
    (year d', month d', day d')
    = (QDate.year (dateOf (solarTime d')), QDate.month (dateOf (solarTime d')),
       QDate.day (dateOf (solarTime d'))) /\
    (hours d', minutes d', seconds d')
    = (QTime.hour (timeOf (solarTime d')), QTime.minute (timeOf (solarTime d')),
       IZR (QTime.second (timeOf (solarTime d')))) /\
    outsideClock d' = outsideClock d.
Proof.
  intros Hobj.
  destruct (advanceTime_run object d Hobj)
    as (dpf & _ & d' & Hrun & Hdpf & Ht & Hcur & Hold & Hdelta & Hdate & Htime & Hout).
  exists d'. split; [exact Hrun|]. split; [rewrite Hdpf; exact Ht|].
  split; [exact Hcur|]. split; [exact Hold|]. split; [now rewrite Hdelta, Hold|].
  auto.
Qed.

(** A frame whose step is below one millisecond does not move the clock:
    with the elapsed days in step with the timestamp, [advanceTime] leaves
    the timestamp and the elapsed days where they are and records a delta
    of zero days. *)
Theorem advanceTime_sub_millisecond (object : SolarObjects) (d : Data) :
  object = SolarSystemView \/ is_Some (solarContainer d !! object) ->
  clock_in_sync calculateTimeScale calculateUT dateOf timeOf d ->
  -1 < deltaTime d * 1000
       * (daysPerFrameScale d * spec_periodFactor object (periodOf d object))
       * ultraSpeed d < 1 ->
  exists d' : Data,
    advanceTime calculateTimeScale calculateUT dateOf timeOf object d = Some d' /\
    solarTime d' = solarTime d /\
    currentTimeD d' = currentTimeD d /\
    deltaTimeD d' = 0.
Proof.
  intros Hobj Hsync Hsmall.
  destruct (advanceTime_run object d Hobj)
    as (dpf & Hdpf & d' & Hrun & _ & Ht & Hcur & Hold & Hdelta & _).
  exists d'. split; [exact Hrun|].
  assert (Ht' : solarTime d' = solarTime d).
  { rewrite Ht. unfold frameMSecs. rewrite Hdpf, (truncate_small _ Hsmall).
    unfold addMSecs. lia. }
  split; [exact Ht'|].
  assert (Hcur' : currentTimeD d' = currentTimeD d)
    by (rewrite Hcur, Ht'; symmetry; exact Hsync).
  split; [exact Hcur'|]. rewrite Hdelta, Hold, Hcur'. ring.
Qed.

End TimeMore.

Lemma truncate_IZR (z : Z) : (0 <= z)%Z -> truncate (IZR z) = z.
Proof.
  intros Hz. unfold truncate.
  destruct (Rle_dec 0 (IZR z)) as [_ | H]; [|exfalso; apply H; now apply IZR_le].
  symmetry. apply Int_part_spec. lra.
Qed.

(** The elapsed days of the sample clock at a timestamp of [s] whole
    seconds below a minute. *)
Lemma sample_elapsedDays (t s : Z) :
  (t / 3600000 = 0)%Z -> ((t / 60000) mod 60 = 0)%Z -> ((t / 1000) mod 60 = s)%Z ->
  elapsedDaysOf sampleTimeScale sampleUT sampleDateOf sampleTimeOf t
  = IZR s / 3600 / 24.
Proof.
  intros Hh Hm Hs. unfold elapsedDaysOf, sampleTimeScale, sampleUT, sampleTimeOf.
  cbn [QTime.hour QTime.minute QTime.second]. rewrite Hh, Hm, Hs. lra.
Qed.

Lemma advanceTime_clock_witness :
  exists d' : Data,
    advanceTime sampleTimeScale sampleUT sampleDateOf sampleTimeOf SolarSystemView
      (sampleClockData 2.5) = Some d' /\
    solarTime d' = 9500%Z /\
    (hours d', minutes d', seconds d') = (0%Z, 0%Z, 9) /\
    oldTimeD d' = 7 / 3600 / 24 /\
    currentTimeD d' = 9 / 3600 / 24 /\
    deltaTimeD d' = 9 / 3600 / 24 - 7 / 3600 / 24.
Proof.
  destruct (advanceTime_clock sampleTimeScale sampleUT sampleDateOf sampleTimeOf
              SolarSystemView (sampleClockData 2.5))
    as (d' & Hrun & Ht & Hsync & Hold & Hdelta & _ & Htime & _).
  - left. reflexivity.
  - destruct (advanceTime_run sampleTimeScale sampleUT sampleDateOf sampleTimeOf
                SolarSystemView (sampleClockData 2.5) (or_introl eq_refl))
      as (dpf & Hdpf & d1 & Hrun1 & Hdpf1 & _).
    rewrite Hrun in Hrun1. injection Hrun1 as <-.
    assert (Hms : deltaTime (sampleClockData 2.5) * 1000 * daysPerFrame d'
                  * ultraSpeed (sampleClockData 2.5) = IZR 2500).
    { rewrite Hdpf1, Hdpf. cbn [spec_periodFactor].
      change (deltaTime (sampleClockData 2.5)) with 2.5.
      change (daysPerFrameScale (sampleClockData 2.5)) with 1.
      change (ultraSpeed (sampleClockData 2.5)) with 1. lra. }
    rewrite Hms, truncate_IZR in Ht by lia.
    change (solarTime (sampleClockData 2.5)) with 7000%Z in Ht.
    assert (Ht' : solarTime d' = 9500%Z) by (rewrite Ht; reflexivity).
    exists d'. split; [exact Hrun|]. split; [exact Ht'|].
    unfold clock_in_sync in Hsync. rewrite Ht' in Hsync, Htime.
    rewrite (sample_elapsedDays 9500 9) in Hsync by reflexivity.
    split; [exact Htime|]. split; [exact Hold|].
    split; [exact Hsync|]. rewrite Hdelta, Hsync. reflexivity.
Defined.

Lemma advanceTime_sub_millisecond_witness :
  exists d' : Data,
    advanceTime sampleTimeScale sampleUT sampleDateOf sampleTimeOf SolarSystemView
      (sampleClockData 0.0006) = Some d' /\
    solarTime d' = 7000%Z /\
    currentTimeD d' = 7 / 3600 / 24 /\
    deltaTimeD d' = 0.
Proof.
  apply (advanceTime_sub_millisecond sampleTimeScale sampleUT sampleDateOf
           sampleTimeOf SolarSystemView (sampleClockData 0.0006)).
  - left. reflexivity.
  - unfold clock_in_sync.
    change (solarTime (sampleClockData 0.0006)) with 7000%Z.
    rewrite (sample_elapsedDays 7000 7) by reflexivity. reflexivity.
  - cbn [spec_periodFactor].
    change (deltaTime (sampleClockData 0.0006)) with 0.0006.
    change (daysPerFrameScale (sampleClockData 0.0006)) with 1.
    change (ultraSpeed (sampleClockData 0.0006)) with 1. lra.
Defined.

(** ** Zoom limit, continued *)

Section ZoomMore.

Variable parseSolarObjectRadius : SolarObjects -> R.

(** Without a controller [updateSolarViewZoomLimit] changes nothing, but
    for the Sun it reads the default limit through the null controller. *)
Theorem updateSolarViewZoomLimit_without_controller
    (object : SolarObjects) (d : Data) :
  cameraController d = None ->
  (object <> Sun -> updateSolarViewZoomLimit parseSolarObjectRadius object d = Some d) /\
  (object = Sun -> updateSolarViewZoomLimit parseSolarObjectRadius object d = None).
Proof.
  intros Hc. unfold updateSolarViewZoomLimit, calculateZoomLimit. rewrite Hc. split.
  - intros Hne. destruct object; try reflexivity. contradiction.
  - intros ->. reflexivity.
Qed.

(** With a controller attached, focusing any body sets the zoom speed to a
    third of the default speed, and the limit it sets is the one
    [calculateZoomLimit(object)] returns, the limit [viewPositionOfObject]
    uses; the defaults of the controller and the rest of [Data] are left
    alone. *)
Theorem updateSolarViewZoomLimit_speed (object : SolarObjects) (d : Data)
    (controller : CameraController.t) :
  cameraController d = Some controller ->
  object <> SolarSystemView ->
  exists (d' : Data) (controller' : CameraController.t),
    updateSolarViewZoomLimit parseSolarObjectRadius object d = Some d' /\
    d' = set_cameraController (Some controller') d /\
    CameraController.zoomSpeed controller'
    = CameraController.defaultZoomSpeed controller / 3 /\
    calculateZoomLimit_of parseSolarObjectRadius object d
    = Some (CameraController.zoomLimit controller') /\
    CameraController.defaultZoomLimit controller'
    = CameraController.defaultZoomLimit controller /\
    CameraController.defaultZoomSpeed controller'
    = CameraController.defaultZoomSpeed controller.
Proof.
  intros Hc Hne. unfold updateSolarViewZoomLimit, calculateZoomLimit_of.
  rewrite (bool_decide_eq_false_2 _ Hne).
  rewrite (calculateZoomLimit_correction _ _ _ _ Hc).
  cbn [mbind option_bind]. rewrite Hc.
  eexists; eexists. split; [reflexivity|]. repeat split.
Qed.

End ZoomMore.

Lemma updateSolarViewZoomLimit_without_controller_witness :
  updateSolarViewZoomLimit (fun _ => 5) Sun (setCameraController None sampleData)
  = None.
Proof.
  apply (proj2 (updateSolarViewZoomLimit_without_controller (fun _ => 5) Sun
                  (setCameraController None sampleData) eq_refl)).
  reflexivity.
Defined.

Lemma updateSolarViewZoomLimit_speed_witness :
  exists (d' : Data) (controller' : CameraController.t),
    updateSolarViewZoomLimit (fun _ => 5) Earth sampleData = Some d' /\
    d' = set_cameraController (Some controller') sampleData /\
    CameraController.zoomSpeed controller' = 3 / 3 /\
    calculateZoomLimit_of (fun _ => 5) Earth sampleData
    = Some (CameraController.zoomLimit controller') /\
    CameraController.defaultZoomLimit controller' = 50 /\
    CameraController.defaultZoomSpeed controller' = 3.
Proof.
  apply (updateSolarViewZoomLimit_speed (fun _ => 5) Earth sampleData sampleController).
  - reflexivity.
  - discriminate.
Defined.

(** ** Burst speed, continued *)

Section BurstMore.

Lemma changeExtraSpeed_next d :
  burst_constants d ->
  changeExtraSpeed d = set_ultraSpeed (nextBurst (ultraSpeed d)) d.
Proof.
  intros [Hs Hm]. unfold changeExtraSpeed, nextBurst. rewrite Hs, Hm.
  destruct (Rleb _ _); reflexivity.
Qed.

Lemma iter_changeExtraSpeed_next n d :
  burst_constants d ->
  Nat.iter n changeExtraSpeed d
  = Nat.iter n (fun d => set_ultraSpeed (nextBurst (ultraSpeed d)) d) d.
Proof.
  intros Hc. induction n as [|n IH]; [reflexivity|].
  rewrite !Nat.iter_succ, <- IH.
  apply changeExtraSpeed_next. now apply iter_changeExtraSpeed_constants.
Qed.

Lemma iter_set_ultraSpeed n d :
  Nat.iter n (fun d => set_ultraSpeed (nextBurst (ultraSpeed d)) d) d
  = set_ultraSpeed (Nat.iter n nextBurst (ultraSpeed d)) d.
Proof.
  induction n as [|n IH]; [destruct d; reflexivity|].
  rewrite !Nat.iter_succ, IH. destruct d. reflexivity.
Qed.

Lemma nextBurst_double u : u * 2 <= 64 -> nextBurst u = u * 2.
Proof. intros H. unfold nextBurst. now rewrite Rleb_true. Qed.

Lemma nextBurst_wrap u : 64 < u * 2 -> nextBurst u = 1.
Proof. intros H. unfold nextBurst. now rewrite Rleb_false. Qed.

Lemma nextBurst_period k : (k <= 6)%nat -> Nat.iter 7 nextBurst (2 ^ k) = 2 ^ k.
Proof.
  intros Hk.
  assert (Hcase : (k = 0 \/ k = 1 \/ k = 2 \/ k = 3 \/ k = 4 \/ k = 5 \/ k = 6)%nat)
    by lia.
  rewrite !Nat.iter_succ. change (Nat.iter 0 nextBurst (2 ^ k)) with (2 ^ k).
  repeat destruct Hcase as [-> | Hcase]; try subst k; cbn [pow];
    repeat match goal with
      | |- context [nextBurst ?u] =>
          first [ rewrite (nextBurst_double u) by lra
                | rewrite (nextBurst_wrap u) by lra ]
      end;
    lra.
Qed.

(** The burst multiplier cycles with period seven: from a state of the
    invariant (a power of two up to 64), seven calls of [changeExtraSpeed]
    give back the same [Data]. *)
Theorem changeExtraSpeed_period_seven (d : Data) :
  ultraSpeedStep d = 2 -> ultraSpeedMax d = 64 ->
  (exists k : nat, (k <= 6)%nat /\ ultraSpeed d = 2 ^ k) ->
  Nat.iter 7 changeExtraSpeed d = d.
Proof.
  intros Hs Hm (k & Hk & Hu).
  rewrite iter_changeExtraSpeed_next by (split; assumption).
  rewrite iter_set_ultraSpeed, Hu, (nextBurst_period k Hk), <- Hu.
  destruct d. reflexivity.
Qed.

End BurstMore.

Lemma changeExtraSpeed_period_seven_witness :
  Nat.iter 7 changeExtraSpeed sampleData = sampleData.
Proof.
  apply changeExtraSpeed_period_seven.
  - reflexivity.
  - reflexivity.
  - exists 0%nat. split; [lia | reflexivity].
Defined.

(** ** Scale and the other parts of the engine *)

Section ScaleFrame.

Variable parseSolarObjectRadius : SolarObjects -> R.

Lemma changeSolarSystemScale_body_outside scaling k p d d' :
  changeSolarSystemScale_body parseSolarObjectRadius scaling k p (Some d) = Some d' ->
  outsideScale d' = outsideScale d.
Proof.
  destruct d. unfold changeSolarSystemScale_body, outsideScale.
  destruct k, p as [vis|]; data_simpl;
    try discriminate;
    try (destruct container0 as [P|]; data_simpl; try discriminate);
    intros H; injection H as <-; reflexivity.
Qed.

Lemma setSolarObjectsScale_outside scale focused d :
  outsideScale (setSolarObjectsScale scale focused d) = outsideScale d.
Proof.
  destruct d. unfold setSolarObjectsScale, outsideScale.
  destruct focused; cbn [negb]; data_simpl;
    match goal with |- context [if ?c then _ else _] => destruct c end;
    reflexivity.
Qed.

(** [changeSolarSystemScale] writes the scale, the ring radii and the
    scene only: when it returns, the clock, the speed settings, the
    registry and the controller are as before. *)
Theorem changeSolarSystemScale_outside (scale : R) (focused : bool) (d d' : Data) :
  changeSolarSystemScale parseSolarObjectRadius scale focused d = Some d' ->
  outsideScale d' = outsideScale d.
Proof.
  unfold changeSolarSystemScale.
  destruct (container (setSolarObjectsScale scale focused d)) as [planets|];
    [|discriminate].
  cbn [mbind option_bind]. intros Hrun.
  rewrite <- (setSolarObjectsScale_outside scale focused d).
  revert d' Hrun.
  apply (map_fold_weak_ind
           (fun acc (_ : PlanetArray) =>
              forall d', acc = Some d' ->
                outsideScale d' = outsideScale (setSolarObjectsScale scale focused d))).
  - intros d' H. now injection H as <-.
  - intros k p m acc _ IH d' H.
    destruct acc as [d1|]; [|discriminate].
    rewrite (changeSolarSystemScale_body_outside _ _ _ _ _ H). now apply IH.
Qed.

(** After [changeSolarSystemScale] the zoom limit pushed for a body
    without an own correction (Venus, Earth, Mars, Saturn, Uranus, Neptune,
    Moon) that is in the scene is four times the radius its visual body
    now shows. *)
Theorem changeSolarSystemScale_then_zoomLimit
    (scale : R) (focused : bool) (object : SolarObjects) (d : Data)
    (planets : PlanetArray) (vis : SolarObject3D.t)
    (controller : CameraController.t) :
  container d = Some planets -> no_null planets ->
  planets !! object = Some (Some vis) ->
  uncorrected_body object = true ->
  cameraController d = Some controller ->
  exists (d1 d2 : Data) (planets1 : PlanetArray) (vis1 : SolarObject3D.t)
         (controller2 : CameraController.t),
    changeSolarSystemScale parseSolarObjectRadius scale focused d = Some d1 /\
    updateSolarViewZoomLimit parseSolarObjectRadius object d1 = Some d2 /\
    container d1 = Some planets1 /\ planets1 !! object = Some (Some vis1) /\
    cameraController d2 = Some controller2 /\
    CameraController.zoomLimit controller2 = 4 * SolarObject3D.r vis1.
Proof.
  intros Hc Hnn Hvis Hb Hctl.
  destruct (changeSolarSystemScale_rings parseSolarObjectRadius scale focused d
              planets Hc Hnn) as (d1 & P1 & Hd1 & _ & Hs1 & _).
  destruct (changeSolarSystemScale_loop_scene parseSolarObjectRadius
              (planetScale (setSolarObjectsScale scale focused d))
              (setSolarObjectsScale scale focused d) planets planets)
    as (d1' & P1' & Hd1' & Hc1 & HP1); [|exact Hnn|].
  { destruct (setSolarObjectsScale_frame scale focused d) as (_ & _ & -> & _).
    exact Hc. }
  assert (Hsame : Some d1' = Some d1).
  { rewrite <- Hd1', <- Hd1. unfold changeSolarSystemScale.
    destruct (setSolarObjectsScale_frame scale focused d) as (_ & _ & -> & _).
    rewrite Hc. reflexivity. }
  injection Hsame as ->.
  assert (Hout : outsideScale d1 = outsideScale d).
  { unfold changeSolarSystemScale in Hd1.
    destruct (setSolarObjectsScale_frame scale focused d) as (_ & _ & Hcs & _).
    rewrite Hcs, Hc in Hd1. cbn [mbind option_bind] in Hd1.
    rewrite <- (setSolarObjectsScale_outside scale focused d).
    revert Hd1. generalize d1.
    apply (map_fold_weak_ind
             (fun acc (_ : PlanetArray) =>
                forall d', acc = Some d' ->
                  outsideScale d' = outsideScale (setSolarObjectsScale scale focused d))).
    - intros d' H. now injection H as <-.
    - intros k p m acc _ IH d' H.
      destruct acc as [d0|]; [|discriminate].
      rewrite (changeSolarSystemScale_body_outside _ _ _ _ _ H). now apply IH. }
  assert (Hctl1 : cameraController d1 = Some controller).
  { unfold outsideScale in Hout. injection Hout as _ _ _ _ _ _ _ _ _ _ _.
    congruence. }
  assert (Hview : object <> SolarSystemView) by (intros ->; discriminate).
  assert (Hupd : exists d2 controller2,
             updateSolarViewZoomLimit parseSolarObjectRadius object d1 = Some d2 /\
             cameraController d2 = Some controller2 /\
             CameraController.zoomLimit controller2
             = planetScale d1 * parseSolarObjectRadius object * 4).
  { unfold updateSolarViewZoomLimit.
    rewrite (bool_decide_eq_false_2 _ Hview).
    rewrite (calculateZoomLimit_correction _ _ _ _ Hctl1).
    cbn [mbind option_bind]. rewrite Hctl1.
    eexists; eexists. split; [reflexivity|]. split; [reflexivity|].
    destruct object; try discriminate; reflexivity. }
  destruct Hupd as (d2 & controller2 & Hd2 & Hctl2 & Hlimit).
  exists d1, d2, P1'. eexists. exists controller2.
  split; [exact Hd1|]. split; [exact Hd2|]. split; [exact Hc1|].
  split.
  { rewrite HP1, Hvis.
    destruct object; try discriminate; reflexivity. }
  split; [exact Hctl2|]. rewrite Hlimit.
  unfold scaleState in Hs1. injection Hs1 as Hp _ _ _. rewrite Hp.
  destruct object; try discriminate; cbn; ring.
Qed.

End ScaleFrame.

Lemma changeSolarSystemScale_outside_witness :
  exists d' : Data,
    changeSolarSystemScale (fun _ => 3) 2 false sampleSceneData = Some d' /\
    outsideScale d' = outsideScale sampleSceneData.
Proof.
  destruct (changeSolarSystemScale_rings (fun _ => 3) 2 false sampleSceneData
              sampleScene eq_refl no_null_sampleScene) as (d' & _ & Hrun & _).
  exists d'. split; [exact Hrun|].
  exact (changeSolarSystemScale_outside (fun _ => 3) 2 false sampleSceneData d' Hrun).
Defined.

Lemma changeSolarSystemScale_then_zoomLimit_witness :
  exists (d1 d2 : Data) (planets1 : PlanetArray) (vis1 : SolarObject3D.t)
         (controller2 : CameraController.t),
    changeSolarSystemScale (fun _ => 3) 2 false sampleSceneData = Some d1 /\
    updateSolarViewZoomLimit (fun _ => 3) Earth d1 = Some d2 /\
    container d1 = Some planets1 /\ planets1 !! Earth = Some (Some vis1) /\
    cameraController d2 = Some controller2 /\
    CameraController.zoomLimit controller2 = 4 * SolarObject3D.r vis1.
Proof.
  apply (changeSolarSystemScale_then_zoomLimit (fun _ => 3) 2 false Earth
           sampleSceneData sampleScene sampleVisual sampleController).
  - reflexivity.
  - exact no_null_sampleScene.
  - reflexivity.
  - reflexivity.
  - reflexivity.
Defined.

(** ** Solving every body *)

Section SolveAll.

Variable auScale : R.
Variable planetsNumber : PlanetArray -> Z.
Variable objectOfIndex : Z -> SolarObjects.

Lemma solarObjectPosition_invariant object d0 d :
  solve_invariant d0 d ->
  exists d', solarObjectPosition auScale object d = Some d' /\ solve_invariant d0 d'.
Proof.
  intros ([planets Hc] & Hclosed & Hkeys & Hout).
  destruct (solarContainer d !! object) as [solarObj|] eqn:Hso.
  - destruct (solarObjectPosition_step auScale object d solarObj planets Hso
                (Hclosed _ _ Hso) Hc)
      as (d' & P' & x & y & z & Hrun & Hc' & Hsc' & _ & _ & Hd').
    exists d'. split; [exact Hrun|].
    assert (Hk' : forall k, is_Some (solarContainer d' !! k)
                            <-> is_Some (solarContainer d !! k)).
    { intros k. rewrite Hsc'. destruct (decide (object = k)) as [<- | Hne].
      - rewrite lookup_insert_eq, Hso. split; eauto.
      - now rewrite lookup_insert_ne by exact Hne. }
    split; [rewrite Hc'; eauto|]. split; [|split].
    + intros k o Hk. rewrite Hk'.
      rewrite Hsc' in Hk. destruct (decide (object = k)) as [<- | Hne].
      * rewrite lookup_insert_eq in Hk. injection Hk as <-.
        destruct (movedTo_fields solarObj x y z (advancedRoll d solarObj))
          as (_ & -> & _). exact (Hclosed _ _ Hso).
      * rewrite lookup_insert_ne in Hk by exact Hne. exact (Hclosed _ _ Hk).
    + intros k. rewrite Hk'. apply Hkeys.
    + rewrite <- Hout, Hd'. destruct d. reflexivity.
  - exists d. split; [unfold solarObjectPosition; now rewrite Hso|].
    split; [eauto|]. split; [exact Hclosed|]. split; [exact Hkeys | exact Hout].
Qed.

Lemma solarObjectPosition_run_invariant (objects : list SolarObjects) d0 : forall d,
  solve_invariant d0 d ->
  exists d',
    foldl (fun acc object => d ← acc; solarObjectPosition auScale object d)
          (Some d) objects = Some d' /\
    solve_invariant d0 d'.
Proof.
  induction objects as [|object objects IH]; intros d Hinv.
  - exists d. split; [reflexivity | exact Hinv].
  - destruct (solarObjectPosition_invariant object d0 d Hinv) as (d1 & Hrun & Hinv1).
    cbn [foldl mbind option_bind]. rewrite Hrun. now apply IH.
Qed.

(** [calculateAllSolarObjectsPosiitons] returns whenever a planets
    container is set and every registered body other than the Sun has its
    centre of orbit registered, whatever the number of bodies and the
    identifiers of the indices.  The registry keeps its identifiers, and
    nothing outside registry and scene changes; with a number of bodies of
    zero or less nothing changes at all. *)
Theorem calculateAllSolarObjectsPosiitons_returns (d : Data) (planets : PlanetArray) :
  container d = Some planets ->
  closed_registry (solarContainer d) ->
  exists d' : Data,
    calculateAllSolarObjectsPosiitons auScale planetsNumber objectOfIndex d = Some d' /\
    is_Some (container d') /\
    closed_registry (solarContainer d') /\
    (forall k, is_Some (solarContainer d' !! k) <-> is_Some (solarContainer d !! k)) /\
    outsideBodies d' = outsideBodies d /\
    ((planetsNumber planets <= 0)%Z -> d' = d).
Proof.
  intros Hc Hclosed. unfold calculateAllSolarObjectsPosiitons.
  rewrite Hc. cbn [mbind option_bind].
  assert (Hinv : solve_invariant d d).
  { split; [rewrite Hc; eauto|]. split; [exact Hclosed|]. split; [tauto | reflexivity]. }
  destruct (solarObjectPosition_run_invariant
              (map (fun i => objectOfIndex (Z.of_nat i))
                   (seq 0 (Z.to_nat (planetsNumber planets)))) d d Hinv)
    as (d' & Hrun & Hc' & Hcl' & Hk' & Ho').
  assert (Hfold : forall (l : list nat) acc,
             foldl (fun acc i =>
                      d ← acc; solarObjectPosition auScale (objectOfIndex (Z.of_nat i)) d)
                   acc l
             = foldl (fun acc object => d ← acc; solarObjectPosition auScale object d)
                     acc (map (fun i => objectOfIndex (Z.of_nat i)) l)).
  { induction l as [|i l IHl]; intros acc; [reflexivity|]. cbn [foldl map]. apply IHl. }
  rewrite Hfold. exists d'. split; [exact Hrun|].
  split; [exact Hc'|]. split; [exact Hcl'|]. split; [exact Hk'|].
  split; [exact Ho'|].
  intros Hle. replace (Z.to_nat (planetsNumber planets)) with 0%nat in Hrun by lia.
  cbn in Hrun. now injection Hrun as <-.
Qed.

(** Without a planets container [calculateAllSolarObjectsPosiitons]
    reads the number of bodies through a null pointer. *)
Lemma calculateAllSolarObjectsPosiitons_null d :
  container d = None ->
  calculateAllSolarObjectsPosiitons auScale planetsNumber objectOfIndex d = None.
Proof. intros Hc. unfold calculateAllSolarObjectsPosiitons. now rewrite Hc. Qed.

End SolveAll.

Lemma closed_registry_sampleContainer : closed_registry sampleContainer.
Proof.
  intros k o Hk. right. unfold sampleContainer in Hk.
  repeat (apply lookup_insert_Some in Hk as [[_ <-] | [_ Hk]];
          [exists (sampleObject Sun 0 0 0 25); reflexivity|]).
  rewrite lookup_empty in Hk. discriminate.
Qed.

Lemma calculateAllSolarObjectsPosiitons_returns_witness :
  exists d' : Data,
    calculateAllSolarObjectsPosiitons 100 (fun _ => 11%Z) SolarObjects_decode_Z
      sampleSceneData = Some d' /\
    is_Some (container d') /\
    closed_registry (solarContainer d') /\
    (forall k, is_Some (solarContainer d' !! k) <-> is_Some (sampleContainer !! k)) /\
    outsideBodies d' = outsideBodies sampleSceneData /\
    ((11 <= 0)%Z -> d' = sampleSceneData).
Proof.
  apply (calculateAllSolarObjectsPosiitons_returns 100 (fun _ => 11%Z)
           SolarObjects_decode_Z sampleSceneData sampleScene).
  - reflexivity.
  - exact closed_registry_sampleContainer.
Defined.

(** ** Camera *)

Section Camera.

Variable parseSolarObjectRadius : SolarObjects -> R.
Variable auScale : R.

Lemma set_container_same d (planets : PlanetArray) :
  container d = Some planets -> set_container (Some planets) d = d.
Proof. destruct d. cbn. now intros ->. Qed.

(** [updateSolarView] centres the camera on the visual body of the focus,
    and on the one of the Sun for the whole-system view, leaving the
    camera position and [Data] as they are; a live focus with a null
    camera is a null dereference. *)
Theorem updateSolarView_centers (object : SolarObjects) (d : Data)
    (planets : PlanetArray) (vis : SolarObject3D.t) :
  container d = Some planets ->
  planets !! (if bool_decide (object = SolarSystemView) then Sun else object)
  = Some (Some vis) ->
  (forall camera : QCamera.t,
      updateSolarView object (Some camera) d
      = Some (Some (QCamera.mk (QCamera.position camera) (visualPosition vis)), d)) /\
  updateSolarView object None d = None.
Proof.
  intros Hc Hvis. unfold updateSolarView. rewrite Hc. cbn [mbind option_bind].
  unfold planets_index.
  destruct (bool_decide (object = SolarSystemView)) eqn:Hview.
  - apply bool_decide_eq_true in Hview. subst object.
    rewrite bool_decide_eq_false_2 by (intros H; now apply H).
    rewrite Hvis, (set_container_same d planets Hc). split; reflexivity.
  - apply bool_decide_eq_false in Hview.
    rewrite (bool_decide_eq_true_2 _ Hview).
    rewrite Hvis, (set_container_same d planets Hc). split; reflexivity.
Qed.

(** When the focus has no live visual body [updateSolarView] leaves the
    camera, null or not, as it is. *)
Theorem updateSolarView_absent (object : SolarObjects) (d : Data)
    (planets : PlanetArray) (camera : option QCamera.t) :
  container d = Some planets ->
  (let target := if bool_decide (object = SolarSystemView) then Sun else object in
   planets !! target = None \/ planets !! target = Some None) ->
  exists d' : Data, updateSolarView object camera d = Some (camera, d').
Proof.
  intros Hc Hvis. unfold updateSolarView. rewrite Hc. cbn [mbind option_bind].
  unfold planets_index. cbv zeta in Hvis.
  destruct (bool_decide (object = SolarSystemView)) eqn:Hview.
  - apply bool_decide_eq_true in Hview. subst object.
    rewrite bool_decide_eq_false_2 by (intros H; now apply H).
    destruct Hvis as [-> | ->]; eauto.
  - apply bool_decide_eq_false in Hview.
    rewrite (bool_decide_eq_true_2 _ Hview).
    destruct Hvis as [-> | ->]; eauto.
Qed.

(** Solving a body with a live visual body and then focusing the view on
    it centres the camera on the position the registry has just been
    given. *)
Theorem solarObjectPosition_then_updateSolarView
    (object : SolarObjects) (d : Data) (solarObj : SolarObject.t)
    (planets : PlanetArray) (vis : SolarObject3D.t) (camera : QCamera.t) :
  object <> SolarSystemView ->
  solarContainer d !! object = Some solarObj ->
  object = Sun \/ is_Some (solarContainer d !! SolarObject.centerOfOrbit solarObj) ->
  container d = Some planets ->
  planets !! object = Some (Some vis) ->
  exists (d1 : Data) (solarObj' : SolarObject.t),
    solarObjectPosition auScale object d = Some d1 /\
    solarContainer d1 !! object = Some solarObj' /\
    updateSolarView object (Some camera) d1
    = Some (Some (QCamera.mk (QCamera.position camera)
                    (QVector3D.mk (SolarObject.x solarObj') (SolarObject.y solarObj')
                       (SolarObject.z solarObj'))), d1).
Proof.
  intros Hview Hso Hcenter Hc Hvis.
  destruct (solarObjectPosition_run auScale object d solarObj planets Hso Hcenter Hc)
    as (x & y & z & Hrun & _).
  cbv zeta in Hrun. unfold synced in Hrun. rewrite Hvis in Hrun.
  match type of Hrun with _ = Some ?r => set (d1 := r) in * end.
  exists d1. eexists. split; [exact Hrun|].
  split; [apply lookup_insert_eq|].
  unfold updateSolarView.
  match goal with
  | |- context [container d1] =>
      change (container d1) with
        (Some (<[object := Some (SolarObject3D.mk
                   (SolarObject.x (movedTo solarObj x y z (advancedRoll d solarObj)))
                   (SolarObject.y (movedTo solarObj x y z (advancedRoll d solarObj)))
                   (SolarObject.z (movedTo solarObj x y z (advancedRoll d solarObj)))
                   (SolarObject.roll (movedTo solarObj x y z (advancedRoll d solarObj)))
                   (SolarObject3D.tilt vis) (SolarObject3D.r vis))]> planets))
  end.
  cbn [mbind option_bind]. rewrite (bool_decide_eq_true_2 _ Hview).
  unfold planets_index. rewrite lookup_insert_eq.
  rewrite set_container_same by reflexivity. reflexivity.
Qed.

End Camera.

Lemma updateSolarView_centers_witness :
  (forall camera : QCamera.t,
      updateSolarView SolarSystemView (Some camera) sampleSceneData
      = Some (Some (QCamera.mk (QCamera.position camera) (visualPosition sampleVisual)),
              sampleSceneData)) /\
  updateSolarView SolarSystemView None sampleSceneData = None.
Proof.
  apply (updateSolarView_centers SolarSystemView sampleSceneData sampleScene sampleVisual);
    reflexivity.
Defined.

Lemma updateSolarView_absent_witness :
  exists d' : Data,
    updateSolarView Pluto None sampleSceneData = Some (None, d').
Proof.
  apply (updateSolarView_absent Pluto sampleSceneData sampleScene None).
  - reflexivity.
  - left. reflexivity.
Defined.

Lemma solarObjectPosition_then_updateSolarView_witness :
  exists (d1 : Data) (solarObj' : SolarObject.t),
    solarObjectPosition 100 Earth sampleSceneData = Some d1 /\
    solarContainer d1 !! Earth = Some solarObj' /\
    updateSolarView Earth (Some sampleCamera) d1
    = Some (Some (QCamera.mk (QCamera.position sampleCamera)
                    (QVector3D.mk (SolarObject.x solarObj') (SolarObject.y solarObj')
                       (SolarObject.z solarObj'))), d1).
Proof.
  apply (solarObjectPosition_then_updateSolarView 100 Earth sampleSceneData
           (sampleObject Sun 1 0 0 1) sampleScene sampleVisual sampleCamera).
  - discriminate.
  - reflexivity.
  - right. exists (sampleObject Sun 0 0 0 25). reflexivity.
  - reflexivity.
  - reflexivity.
Defined.

Section ViewPosition.

Variable parseSolarObjectRadius : SolarObjects -> R.

Lemma QVector3D_length_sqr v :
  QVector3D.length v * QVector3D.length v
  = QVector3D.xp v * QVector3D.xp v + QVector3D.yp v * QVector3D.yp v
    + QVector3D.zp v * QVector3D.zp v.
Proof. unfold QVector3D.length. apply sqrt_sqrt. nra. Qed.

Lemma QVector3D_length_nonneg v : 0 <= QVector3D.length v.
Proof. apply sqrt_pos. Qed.

(** The point at [need] along the direction from [cam] to [obj]: its
    distances to the two ends. *)
Lemma along_direction (obj cam : QVector3D.t) (need : R) :
  let onTarget := QVector3D.minus obj cam in
  let dist := QVector3D.length onTarget in
  let pos := QVector3D.plus (QVector3D.times (QVector3D.normalized onTarget) need) cam in
  0 < dist ->
  QVector3D.length (QVector3D.minus pos cam) = Rabs need /\
  QVector3D.length (QVector3D.minus pos obj) = Rabs (dist - need).
Proof.
  intros onTarget dist pos Hdist.
  pose proof (QVector3D_length_sqr onTarget) as HL. fold dist in HL.
  assert (Hne : dist <> 0) by lra.
  unfold pos, QVector3D.normalized. fold dist.
  destruct (Req_dec_T dist 0) as [? | _]; [contradiction|].
  destruct obj as [ox oy oz], cam as [cx cy cz].
  unfold onTarget in HL |- *. unfold QVector3D.length.
  cbn [QVector3D.minus QVector3D.plus QVector3D.times QVector3D.xp QVector3D.yp
         QVector3D.zp] in HL |- *.
  split.
  - replace (((ox - cx) / dist * need + cx - cx) * ((ox - cx) / dist * need + cx - cx) +
             ((oy - cy) / dist * need + cy - cy) * ((oy - cy) / dist * need + cy - cy) +
             ((oz - cz) / dist * need + cz - cz) * ((oz - cz) / dist * need + cz - cz))
      with (((ox - cx) * (ox - cx) + (oy - cy) * (oy - cy) + (oz - cz) * (oz - cz))
            * (need * need) / (dist * dist)) by (field; exact Hne).
    rewrite <- HL.
    replace (dist * dist * (need * need) / (dist * dist)) with (Rsqr need)
      by (unfold Rsqr; field; exact Hne).
    apply sqrt_Rsqr_abs.
  - replace (((ox - cx) / dist * need + cx - ox) * ((ox - cx) / dist * need + cx - ox) +
             ((oy - cy) / dist * need + cy - oy) * ((oy - cy) / dist * need + cy - oy) +
             ((oz - cz) / dist * need + cz - oz) * ((oz - cz) / dist * need + cz - oz))
      with (((ox - cx) * (ox - cx) + (oy - cy) * (oy - cy) + (oz - cz) * (oz - cz))
            * ((dist - need) * (dist - need)) / (dist * dist)) by (field; exact Hne).
    rewrite <- HL.
    replace (dist * dist * ((dist - need) * (dist - need)) / (dist * dist))
      with (Rsqr (dist - need)) by (unfold Rsqr; field; exact Hne).
    apply sqrt_Rsqr_abs.
Qed.

(** The result of [viewPositionOfObject] for a live visual body seen by a
    camera, in terms of the distance [need] it computes. *)
Lemma viewPositionOfObject_run object d (planets : PlanetArray) vis camera limit :
  container d = Some planets ->
  planets !! object = Some (Some vis) ->
  calculateZoomLimit_of parseSolarObjectRadius object d = Some limit ->
  let onTarget := QVector3D.minus (visualPosition vis) (QCamera.position camera) in
  let dist := QVector3D.length onTarget in
  viewPositionOfObject parseSolarObjectRadius object (Some camera) d
  = Some (QVector3D.plus
            (QVector3D.times (QVector3D.normalized onTarget)
               (if Rleb (dist - limit) 0 then limit - dist else dist - limit))
            (QCamera.position camera), d).
Proof.
  intros Hc Hvis Hlimit. cbv zeta. unfold viewPositionOfObject.
  rewrite Hc. cbn [mbind option_bind]. unfold planets_index. rewrite Hvis.
  rewrite (set_container_same d planets Hc). rewrite Hlimit. reflexivity.
Qed.

(** A camera farther from a body than its zoom limit: the position
    [viewPositionOfObject] returns lies at the zoom limit from the body,
    [dist - limit] away from the camera, and [Data] is unchanged. *)
Theorem viewPositionOfObject_outside_limit
    (object : SolarObjects) (d : Data) (planets : PlanetArray)
    (vis : SolarObject3D.t) (camera : QCamera.t) (limit : R) :
  container d = Some planets ->
  planets !! object = Some (Some vis) ->
  calculateZoomLimit_of parseSolarObjectRadius object d = Some limit ->
  let dist :=
    QVector3D.length (QVector3D.minus (visualPosition vis) (QCamera.position camera)) in
  0 <= limit < dist ->
  exists pos : QVector3D.t,
    viewPositionOfObject parseSolarObjectRadius object (Some camera) d = Some (pos, d) /\
    QVector3D.length (QVector3D.minus pos (visualPosition vis)) = limit /\
    QVector3D.length (QVector3D.minus pos (QCamera.position camera)) = dist - limit.
Proof.
  intros Hc Hvis Hlimit dist [Hlo Hhi].
  eexists. split; [apply (viewPositionOfObject_run object d planets vis camera limit
                            Hc Hvis Hlimit)|].
  fold dist. rewrite (Rleb_false (dist - limit) 0) by lra.
  destruct (along_direction (visualPosition vis) (QCamera.position camera)
              (dist - limit)) as [Hcam Hobj]; [fold dist; lra|].
  fold dist in Hcam, Hobj. split.
  - rewrite Hobj. replace (dist - (dist - limit)) with limit by ring.
    now apply Rabs_pos_eq.
  - rewrite Hcam. apply Rabs_pos_eq. lra.
Qed.

(** A camera inside the zoom limit of a body (and not on it): the
    position returned lies [limit - dist] from the camera on the side of
    the body, so at [|2 dist - limit|] from the body and not at the
    limit. *)
Theorem viewPositionOfObject_inside_limit
    (object : SolarObjects) (d : Data) (planets : PlanetArray)
    (vis : SolarObject3D.t) (camera : QCamera.t) (limit : R) :
  container d = Some planets ->
  planets !! object = Some (Some vis) ->
  calculateZoomLimit_of parseSolarObjectRadius object d = Some limit ->
  let dist :=
    QVector3D.length (QVector3D.minus (visualPosition vis) (QCamera.position camera)) in
  0 < dist <= limit ->
  exists pos : QVector3D.t,
    viewPositionOfObject parseSolarObjectRadius object (Some camera) d = Some (pos, d) /\
    QVector3D.length (QVector3D.minus pos (QCamera.position camera)) = limit - dist /\
    QVector3D.length (QVector3D.minus pos (visualPosition vis))
    = Rabs (2 * dist - limit).
Proof.
  intros Hc Hvis Hlimit dist [Hlo Hhi].
  eexists. split; [apply (viewPositionOfObject_run object d planets vis camera limit
                            Hc Hvis Hlimit)|].
  fold dist. rewrite (Rleb_true (dist - limit) 0) by lra.
  destruct (along_direction (visualPosition vis) (QCamera.position camera)
              (limit - dist)) as [Hcam Hobj]; [fold dist; lra|].
  fold dist in Hcam, Hobj. split.
  - rewrite Hcam. apply Rabs_pos_eq. lra.
  - rewrite Hobj. f_equal. ring.
Qed.

(** For an identifier without a live visual body [viewPositionOfObject]
    returns the origin, whatever the camera. *)
Theorem viewPositionOfObject_absent (object : SolarObjects) (d : Data)
    (planets : PlanetArray) (camera : option QCamera.t) :
  container d = Some planets ->
  planets !! object = None \/ planets !! object = Some None ->
  exists d' : Data,
    viewPositionOfObject parseSolarObjectRadius object camera d
    = Some (QVector3D.mk 0 0 0, d').
Proof.
  intros Hc Hvis. unfold viewPositionOfObject. rewrite Hc.
  cbn [mbind option_bind]. unfold planets_index.
  destruct Hvis as [-> | ->]; eauto.
Qed.

End ViewPosition.

Lemma sample_view_distance :
  QVector3D.length
    (QVector3D.minus (visualPosition sampleVisual) (QCamera.position sampleCamera))
  = 10.
Proof.
  unfold QVector3D.length, visualPosition, sampleVisual, sampleCamera.
  cbn [QVector3D.minus QVector3D.xp QVector3D.yp QVector3D.zp QCamera.position
         SolarObject3D.x SolarObject3D.y SolarObject3D.z].
  replace ((1 - 1) * (1 - 1) + (2 - 2) * (2 - 2) + (3 - 13) * (3 - 13))
    with (10 * 10) by lra.
  apply sqrt_square. lra.
Qed.

Lemma viewPositionOfObject_outside_limit_witness :
  exists pos : QVector3D.t,
    viewPositionOfObject (fun _ => 1) Earth (Some sampleCamera) sampleSceneData
    = Some (pos, sampleSceneData) /\
    QVector3D.length (QVector3D.minus pos (visualPosition sampleVisual)) = 1 * 1 * 4 /\
    QVector3D.length (QVector3D.minus pos (QCamera.position sampleCamera))
    = QVector3D.length
        (QVector3D.minus (visualPosition sampleVisual) (QCamera.position sampleCamera))
      - 1 * 1 * 4.
Proof.
  apply (viewPositionOfObject_outside_limit (fun _ => 1) Earth sampleSceneData
           sampleScene sampleVisual sampleCamera (1 * 1 * 4)).
  - reflexivity.
  - reflexivity.
  - reflexivity.
  - rewrite sample_view_distance. lra.
Defined.

Lemma viewPositionOfObject_inside_limit_witness :
  exists pos : QVector3D.t,
    viewPositionOfObject (fun _ => 5) Earth (Some sampleCamera) sampleSceneData
    = Some (pos, sampleSceneData) /\
    QVector3D.length (QVector3D.minus pos (QCamera.position sampleCamera))
    = 1 * 5 * 4
      - QVector3D.length
          (QVector3D.minus (visualPosition sampleVisual) (QCamera.position sampleCamera)) /\
    QVector3D.length (QVector3D.minus pos (visualPosition sampleVisual))
    = Rabs (2 * QVector3D.length
                  (QVector3D.minus (visualPosition sampleVisual)
                     (QCamera.position sampleCamera))
            - 1 * 5 * 4).
Proof.
  apply (viewPositionOfObject_inside_limit (fun _ => 5) Earth sampleSceneData
           sampleScene sampleVisual sampleCamera (1 * 5 * 4)).
  - reflexivity.
  - reflexivity.
  - reflexivity.
  - rewrite sample_view_distance. lra.
Defined.

Lemma viewPositionOfObject_absent_witness :
  exists d' : Data,
    viewPositionOfObject (fun _ => 5) Pluto None sampleSceneData
    = Some (QVector3D.mk 0 0 0, d').
Proof.
  apply (viewPositionOfObject_absent (fun _ => 5) Pluto sampleSceneData sampleScene None).
  - reflexivity.
  - left. reflexivity.
Defined.

(** ** Outer radius *)

Section OuterRadius.

Variable solarDistance : R.
Variable saturnOuterRadius uranusOuterRadius : R.
Variable valuesRadius : SolarObjects -> R.

(** With radii and ring extents that are not negative, the outer radius of
    every identifier other than the Sun is at least the solar distance, to
    which it adds the radius of the body (and the ring extent for Saturn
    and Uranus); for the Sun it is a hundredth of the Sun's radius,
    whatever the solar distance. *)
Theorem getOuterRadius_bounds (object : SolarObjects) :
  (forall k, 0 <= valuesRadius k) -> 0 <= saturnOuterRadius -> 0 <= uranusOuterRadius ->
  (object <> Sun ->
   solarDistance
   <= getOuterRadius solarDistance saturnOuterRadius uranusOuterRadius valuesRadius object
   <= solarDistance + valuesRadius object + saturnOuterRadius + uranusOuterRadius) /\
  (object = Sun ->
   getOuterRadius solarDistance saturnOuterRadius uranusOuterRadius valuesRadius object
   = valuesRadius Sun / 100).
Proof.
  intros Hr Hs Hu. split.
  - intros Hne. pose proof (Hr object) as Ho.
    destruct object; try contradiction; cbn [getOuterRadius]; lra.
  - intros ->. reflexivity.
Qed.

End OuterRadius.

Lemma getOuterRadius_bounds_witness :
  (Saturn <> Sun ->
   1000 <= getOuterRadius 1000 8 3 (fun _ => 5) Saturn <= 1000 + 5 + 8 + 3) /\
  (Saturn = Sun -> getOuterRadius 1000 8 3 (fun _ => 5) Saturn = 5 / 100).
Proof.
  apply (getOuterRadius_bounds 1000 8 3 (fun _ => 5) Saturn).
  - intros _. lra.
  - lra.
  - lra.
Defined.

(** ** Construction *)

Section Construction.

Variable calculateTimeScale : Z -> Z -> Z -> R.
Variable calculateUT : Z -> Z -> R -> R.
Variable SolarValues_year SolarValues_month SolarValues_day : Z.
Variable saturnOuterRadius uranusOuterRadius : R.
Variable mkDateTime : QDate.t -> QTime.t -> QDateTime.
Variable auScale : R.

(** [Data::Data()] reads the radii of Saturn and Uranus through the
    pointers the registry gives: it returns exactly when both are
    registered. *)
Theorem newData_returns_iff (sc : SolarObjectsContainer) (planetScale0 actualScale0 : R) :
  is_Some (newData calculateTimeScale calculateUT SolarValues_year SolarValues_month
             SolarValues_day saturnOuterRadius uranusOuterRadius mkDateTime
             sc planetScale0 actualScale0)
  <-> is_Some (sc !! Saturn) /\ is_Some (sc !! Uranus).
Proof.
  unfold newData.
  destruct (sc !! Saturn) as [saturn|]; destruct (sc !! Uranus) as [uranus|];
    cbn [mbind option_bind]; split;
    try (intros [? ?]; discriminate);
    try (intros [[? ?] [? ?]]; discriminate);
    eauto.
Qed.

(** A freshly constructed [Data] has no planets container, a delta of
    zero days and the elapsed days at their start value; solving a
    registered body before [setPlanetsContainer] dereferences the null
    container, and solving an unregistered one does nothing. *)
Theorem newData_fresh (sc : SolarObjectsContainer) (planetScale0 actualScale0 : R)
    (d0 : Data) :
  newData calculateTimeScale calculateUT SolarValues_year SolarValues_month
    SolarValues_day saturnOuterRadius uranusOuterRadius mkDateTime
    sc planetScale0 actualScale0 = Some d0 ->
  (solarContainer d0 = sc /\ container d0 = None /\ cameraController d0 = None) /\
  (deltaTimeD d0 = 0 /\ currentTimeD d0 = startD d0 /\ oldTimeD d0 = startD d0) /\
  saturnRingOuterRadius d0 - saturnRingInnerRadius d0 = saturnOuterRadius - 6.630 /\
  uranusRingOuterRadius d0 - uranusRingInnerRadius d0 = uranusOuterRadius - 2 /\
  forall object : SolarObjects,
    solarObjectPosition auScale object d0
    = match sc !! object with Some _ => None | None => Some d0 end.
Proof.
  unfold newData. intros Hnew.
  destruct (sc !! Saturn) as [saturn|]; [|discriminate].
  destruct (sc !! Uranus) as [uranus|]; [|discriminate].
  cbn [mbind option_bind] in Hnew. injection Hnew as <-.
  split; [repeat split|]. split; [repeat split|].
  split; [cbn; lra|]. split; [cbn; lra|].
  intros object. unfold solarObjectPosition. cbn [solarContainer container].
  destruct (sc !! object) as [solarObj|]; [|reflexivity].
  destruct (bool_decide (object <> Sun)); [|reflexivity].
  destruct (sc !! SolarObject.centerOfOrbit solarObj); reflexivity.
Qed.

End Construction.

Lemma newData_fresh_witness :
  exists d0 : Data,
    newData (fun _ _ _ => 0) (fun _ _ _ => 0) 2000 1 1 8 3
      (fun _ _ => 0%Z) sampleContainer 1 1 = Some d0 /\
    container d0 = None /\
    solarObjectPosition 100 Earth d0 = None.
Proof.
  eexists. split; [reflexivity|].
  destruct (newData_fresh (fun _ _ _ => 0) (fun _ _ _ => 0) 2000 1 1 8 3
              (fun _ _ => 0%Z) 100 sampleContainer 1 1 _ eq_refl)
    as ((_ & Hc & _) & _ & _ & _ & Hsolve).
  split; [exact Hc|]. exact (Hsolve Earth).
Defined.

Lemma advanceTime_returns_iff_witness :
  is_Some (advanceTime (fun _ _ _ => 0) (fun _ _ _ => 0)
             (fun _ => QDate.mk 2000 1 1) (fun _ => QTime.mk 0 0 0) Saturn sampleData).
Proof.
  apply (proj2 (advanceTime_returns_iff (fun _ _ _ => 0) (fun _ _ _ => 0)
                  (fun _ => QDate.mk 2000 1 1) (fun _ => QTime.mk 0 0 0) Saturn
                  sampleData)).
  right. exists (sampleObject Sun 10 0 0 2). reflexivity.
Defined.
